(** * IA Interact: a shallow embedding of [ia-interact.py]

    The program is a menu-driven client of the Internet Archive's
    S3-like object API and of its metadata API.  Every function of the
    script that talks to the network, to the process environment or to
    the local file system is embedded here as a computation in a small
    state-and-exception monad whose state is the chronological log of
    observable events: exchanges on the wire, calls of the [requests]
    API with what they gave back, pauses of the retry policy, progress
    updates and console messages.  Pure string functions are embedded
    as plain functions on [string].

    What the outside world answers is an input of the model: an
    [environment] fixes the process environment variables, the local
    files, and for the n-th exchange on the wire the outcome the
    network produces.

    Left out of the model: the prompt texts of [input], the dispatch
    at the top of [main] and [print_help], the rendering of the
    progress bar, the reason phrase of a response, HTTP redirects and
    the [Retry-After] header (a server that sends neither is assumed).
    Strings are strings of 8-bit characters and paths are POSIX
    paths. *)

From stdpp Require Import gmap strings list fin_maps.
From Stdlib Require Import ZArith Lia Ascii.

Set Warnings "-register-all".

Local Open Scope string_scope.
Local Open Scope list_scope.
Local Open Scope Z_scope.

(** ** Strings: the pieces of [re], [str] and [os.path] the script uses *)

Module Str.

Definition slash : ascii := "/"%char.

(** [s.split("/")]: the components between slashes; never empty. *)
Fixpoint split (s : string) : list string :=
  match s with
  | EmptyString => [EmptyString]
  | String c s' =>
      if Ascii.eqb c slash then EmptyString :: split s'
      else match split s' with
           | [] => [String c EmptyString]
           | p :: ps => String c p :: ps
           end
  end.

(** [s.endswith(suf)]: some tail of [s] is [suf]. *)
Fixpoint endswith (s suf : string) : bool :=
  if String.eqb s suf then true
  else match s with
       | EmptyString => false
       | String _ s' => endswith s' suf
       end.

(** [s] with the literal prefix [p] removed, when it starts with it. *)
Fixpoint strip_prefix (p s : string) : option string :=
  match p, s with
  | EmptyString, _ => Some s
  | String a p', String b s' =>
      if Ascii.eqb a b then strip_prefix p' s' else None
  | String _ _, EmptyString => None
  end.

(** The longest prefix of [s] without a slash: what the greedy class
    [[^/]+] consumes when nothing follows it in the pattern. *)
Fixpoint take_segment (s : string) : string :=
  match s with
  | EmptyString => EmptyString
  | String c s' =>
      if Ascii.eqb c slash then EmptyString else String c (take_segment s')
  end.

(** [os.path.basename(p)] on POSIX: what follows the last slash. *)
Fixpoint basename (p : string) : string :=
  match p with
  | EmptyString => EmptyString
  | String c p' =>
      if Ascii.eqb c slash then basename p'
      else if existsb (Ascii.eqb slash) (String.list_ascii_of_string p')
           then basename p' else p
  end.

(** ["/".join(parts)]. *)
Definition join (parts : list string) : string := String.concat "/" parts.

(** Python truthiness of an optional string: [None] and [""] are false. *)
Definition truthy (o : option string) : bool :=
  match o with
  | Some (String _ _) => true
  | _ => false
  end.

End Str.

(** ** The regular expression of [get_repo_identifier] *)

Definition marker : string := "archive.org/details/".

(** One attempt of the pattern [archive\.org/details/([^/]+)] at the
    start of [s]; the result is group 1. *)
Definition match_here (s : string) : option string :=
  match Str.strip_prefix marker s with
  | Some rest =>
      match Str.take_segment rest with
      | EmptyString => None
      | seg => Some seg
      end
  | None => None
  end.

(** [re.search]: the match at the leftmost position where one exists. *)
Fixpoint re_search (s : string) : option string :=
  match match_here s with
  | Some g => Some g
  | None =>
      match s with
      | EmptyString => None
      | String _ s' => re_search s'
      end
  end.

(** ** HTTP vocabulary *)

Inductive method := GET | PUT | DELETE | POST.

Global Instance method_eq_dec : EqDecision method.
Proof. solve_decision. Defined.

Definition method_eqb (a b : method) : bool := bool_decide (a = b).

(** What a request carries as [data=]. *)
Inductive body :=
| NoBody
| Bytes (b : list Byte.byte)                 (* a [bytes] object: one chunk *)
| FileStream (b : list Byte.byte)            (* an open file, streamed whole *)
| Form (fields : gmap string string).   (* a dict, form-encoded *)

Record request := Request {
  req_method : method;
  req_url : string;
  req_headers : gmap string string;
  req_body : body;
  req_timeout : option (Z * Z)          (* (connect, read) in seconds *)
}.

(** A file record of the metadata document is a JSON object; the
    script reads only its [name] member. *)
Inductive payload :=
| NoJson                                                  (* [.json()] raises *)
| Json (files : option (list (gmap string string))).      (* [data.get("files")] *)

Inductive exn :=
| SSLError            (* requests.exceptions.SSLError *)
| ConnectionError     (* a RequestException *)
| Timeout             (* a RequestException *)
| RetryError          (* a RequestException: retries exhausted on a status *)
| OSError             (* local file errors *)
| ValueError.         (* a body that is not JSON *)

Definition is_request_exception (e : exn) : bool :=
  match e with
  | SSLError | ConnectionError | Timeout | RetryError => true
  | OSError | ValueError => false
  end.

Inductive result (A : Type) :=
| Ret (a : A)
| Raise (e : exn).
Arguments Ret {A} a.
Arguments Raise {A} e.

Definition response : Type := Z * payload.
Definition status_code (r : response) : Z := fst r.

(** What one exchange on the wire gives: a response, or a failure of
    the transport; [e] is then the exception [requests] raises for
    that failure when nothing is tried again. *)
Inductive outcome :=
| Response (status : Z) (p : payload)
| Broken (e : exn).

(** ** Console messages, one constructor per [print] *)

Inductive msg :=
| InvalidURL
| CredentialsMissing
| UploadError (path : string) (status : Z)
| UploadOK (path : string)
| UploadSSLError
| UploadRequestError (e : exn)
| UploadUnexpected (e : exn)
| MetadataFetchError (status : Z)
| FilesHeader
| FileLine (idx : nat) (name : string)
| NoFilesFound
| ListingError (e : exn)
| DeleteKeysMissing
| Deleted (path : string)
| DeleteFailed (path : string) (status : Z)
| DeletionError (e : exn)
| MoveKeysMissing
| CopyError (src dst : string) (status : Z)
| Copied (src dst : string)
| Moved (src dst : string)
| CopiedNotDeleted (src : string)
| MoveError (e : exn)
| TestBanner
| TestFolder (path : string)
| TestIdentifier (identifier : string)
| TestMetadata (metadata : gmap string string)
| TestFilesHeader
| WouldUpload (relative_path : string)
| TestComplete
| UploadingFile (relative_path : string)
| InitUploadError (relative_path : string) (status : Z)
| InitUploaded (relative_path : string)
| InitException (e : exn)
| AddingMetadata
| MetadataAdded
| MetadataError (status : Z)
| MetadataException (e : exn)
| FileNotFound (path : string)
| AllUploaded
| SomeFailed.

(** ** Observable events *)

Inductive event :=
| Wire (r : request) (o : outcome)          (* one exchange with the server *)
| Call (r : request) (res : result response)
      (* one call of [requests.<method>] or [session.put] has returned
         [res] to the script *)
| Sleep (seconds : Z)                        (* [time.sleep] of the policy *)
| Progress (n : Z)                           (* [pbar.update(n)] *)
| Print (m : msg).

(** ** The local world *)

Record file := File { readable : bool; content : list Byte.byte }.

(** A directory tree as [os.scandir] lists it, entries in listing order. *)
Inductive node :=
| FileNode (f : file)
| DirNode (entries : list (string * node)).

Record environment := Environment {
  getenv : string → option string;       (* [os.getenv] *)
  fs_file : string → option file;        (* the file a path names, if any *)
  fs_tree : string → node;               (* the tree [os.walk] finds at a path *)
  net : nat → outcome                    (* outcome of the n-th exchange *)
}.

(** ** The monad: a log of events, and exceptions *)

Definition M (A : Type) : Type := list event → result A * list event.

Definition ret {A} (a : A) : M A := λ log, (Ret a, log).
Definition raise {A} (e : exn) : M A := λ log, (Raise e, log).
Definition bind {A B} (m : M A) (k : A → M B) : M B :=
  λ log, match m log with
         | (Ret a, log') => k a log'
         | (Raise e, log') => (Raise e, log')
         end.
Definition emit (e : event) : M unit := λ log, (Ret tt, log ++ [e]).
Definition print (m : msg) : M unit := emit (Print m).

(** [try: m except Exception as e: h e]. *)
Definition try_except {A} (m : M A) (h : exn → M A) : M A :=
  λ log, match m log with
         | (Ret a, log') => (Ret a, log')
         | (Raise e, log') => h e log'
         end.

Notation "x <- m ;; k" := (bind m (λ x, k))
  (at level 100, m at next level, right associativity,
   format "'[' x  <-  m  ;;  '/' k ']'").
Notation "m >> k" := (bind m (λ _, k))
  (at level 100, right associativity).

(** Projections of a log. *)
Definition exchanges (log : list event) : list (request * outcome) :=
  omap (λ e, match e with Wire r o => Some (r, o) | _ => None end) log.
Definition calls (log : list event) : list (request * result response) :=
  omap (λ e, match e with Call r res => Some (r, res) | _ => None end) log.
Definition printed (log : list event) : list msg :=
  omap (λ e, match e with Print m => Some m | _ => None end) log.
Definition pauses (log : list event) : list Z :=
  omap (λ e, match e with Sleep s => Some s | _ => None end) log.

(** ** The remote object store, as an honest server would keep it

    The store is not part of the script.  To speak of what a sequence
    of exchanges leaves behind, the exchanges of a log are replayed on
    a map from object paths ([/identifier/path]) to contents: an
    accepted PUT with an [x-amz-copy-source] header copies the source
    object, an accepted PUT with a body stores it, an accepted DELETE
    removes the object, and a refused or broken exchange changes
    nothing.

    The object a request acts on is the one whose path reaches the
    server.  [requests] and urllib3 do not send the fragment of a URL
    (what follows the first [#]); they send a path made of unreserved
    characters and slashes, without [.] and [..] segments, as it is,
    and the server reads it as it is.  Of any other path (a query, a
    percent sign, a character that is sent encoded, a dot segment) the
    replay does not say what the server makes: it gives no store. *)

Definition s3_base : string := "https://s3.us.archive.org".

Definition object_key (url : string) : option string :=
  Str.strip_prefix s3_base url.

Definition accepted (status : Z) : bool := (200 <=? status) && (status <? 300).

(** The unreserved characters of RFC 3986: letters, digits and [-._~]. *)
Definition unreserved (c : ascii) : bool :=
  let n := nat_of_ascii c in
  ((65 <=? n) && (n <=? 90) || (97 <=? n) && (n <=? 122)
   || (48 <=? n) && (n <=? 57))%nat
  || existsb (Ascii.eqb c) ["-"; "."; "_"; "~"]%char.

(** A path that goes over the wire unchanged. *)
Definition plain (path : string) : bool :=
  forallb (λ c, unreserved c || Ascii.eqb c Str.slash)
    (String.list_ascii_of_string path)
  && forallb (λ segment,
                negb (String.eqb segment "." || String.eqb segment ".."))
       (Str.split path).

(** What precedes the first [#]. *)
Fixpoint before_fragment (s : string) : string :=
  match s with
  | EmptyString => EmptyString
  | String c s' =>
      if Ascii.eqb c "#" then EmptyString else String c (before_fragment s')
  end.

(** The object path the server receives for what follows the host in
    a URL, when the replay can tell. *)
Definition served (rest : string) : option string :=
  let path := before_fragment rest in
  if plain path then Some path else None.

(** The object an [x-amz-copy-source] header names: the value itself,
    unless it holds a character that URL decoding changes or that
    starts a parameter. *)
Definition copy_source (value : string) : option string :=
  if forallb (λ c, negb (existsb (Ascii.eqb c) ["%"; "+"; "?"]%char))
       (String.list_ascii_of_string value)
  then Some value else None.

Definition store_step (st : gmap string (list Byte.byte))
    (x : request * outcome) : option (gmap string (list Byte.byte)) :=
  match x with
  | (r, Response s _) =>
      if accepted s then
        match object_key (req_url r), req_method r with
        | Some rest, PUT =>
            match served rest with
            | Some k =>
                match req_headers r !! "x-amz-copy-source" with
                | Some value =>
                    match copy_source value with
                    | Some src =>
                        match st !! src with
                        | Some c => Some (<[k := c]> st)
                        | None => Some st
                        end
                    | None => None
                    end
                | None =>
                    match req_body r with
                    | Bytes b | FileStream b => Some (<[k := b]> st)
                    | _ => Some st
                    end
                end
            | None => None
            end
        | Some rest, DELETE =>
            match served rest with
            | Some k => Some (delete k st)
            | None => None
            end
        | _, _ => Some st
        end
      else Some st
  | (_, Broken _) => Some st
  end.

(** The replay of a list of exchanges; [None] once the replay cannot
    tell. *)
Definition store_replay (start : option (gmap string (list Byte.byte)))
    (xs : list (request * outcome)) : option (gmap string (list Byte.byte)) :=
  foldl (λ acc x, match acc with
                  | Some st => store_step st x
                  | None => None
                  end) start xs.

Definition store_after (st : gmap string (list Byte.byte))
    (log : list event) : option (gmap string (list Byte.byte)) :=
  store_replay (Some st) (exchanges log).

(** ** The retry policy of urllib3

    [Retry(total, backoff_factor, status_forcelist, allowed_methods)]
    as [HTTPAdapter] hands it to [urlopen].  [total] is, in urllib3's
    words, the "total number of retries to allow": [increment] takes
    one off at each failed exchange and the policy is exhausted when
    the count falls below zero.  [read_retries] is [false] for
    [read=False], with which [increment] raises a failure again as it
    is; otherwise a failure that exhausts the policy leaves urllib3 as
    a [MaxRetryError]. *)

Record Retry := {
  total : nat;
  backoff_factor : Z;
  status_forcelist : list Z;
  allowed_methods : list method;
  read_retries : bool
}.

(** [HTTPAdapter.send] on a [MaxRetryError] whose reason is a failure
    of the transport: [SSLError] for an SSL error, and for any other
    reason, a read timeout included, [ConnectionError] (of which the
    [ConnectTimeout] of a connect timeout is a subclass). *)
Definition max_retry_error (e : exn) : exn :=
  match e with
  | SSLError => SSLError
  | _ => ConnectionError
  end.

Definition BACKOFF_MAX : Z := 120.

(** [Retry._is_method_retryable]: an empty allow list allows every
    method. *)
Definition is_method_retryable (pol : Retry) (m : method) : bool :=
  match allowed_methods pol with
  | [] => true
  | allowed => existsb (method_eqb m) allowed
  end.

(** [Retry.is_retry], without a [Retry-After] header. *)
Definition is_retry (pol : Retry) (m : method) (status : Z) : bool :=
  is_method_retryable pol m
  && existsb (Z.eqb status) (status_forcelist pol).

(** [Retry.get_backoff_time] after [errors] consecutive failures. *)
Definition get_backoff_time (pol : Retry) (errors : nat) : Z :=
  if (errors <=? 1)%nat then 0
  else Z.min BACKOFF_MAX (backoff_factor pol * 2 ^ (Z.of_nat errors - 1)).

Section Program.

Context (E : environment).

(** One exchange on the wire: the environment decides its outcome. *)
Definition exchange (r : request) : M outcome :=
  λ log, let o := net E (length (exchanges log)) in
         (Ret o, log ++ [Wire r o]).

(** [Retry.sleep]: no call of [time.sleep] for a zero pause. *)
Definition sleep_backoff (pol : Retry) (errors : nat) : M unit :=
  let backoff := get_backoff_time pol errors in
  if backoff <=? 0 then ret tt else emit (Sleep backoff).

(** [HTTPConnectionPool.urlopen] under a policy with [left] retries
    remaining and [errors] failures so far.  A status of the force
    list (for an allowed method) and a broken exchange both go
    through [Retry.increment]: with no retry left the policy is
    exhausted and the call raises ([requests] turns the error into
    [RetryError] for a status; for a failure of the transport it
    raises what [max_retry_error] gives, or the failure as it is under
    [read=False]), otherwise it pauses and sends the request again.  The
    script reaches this function with retries left only for PUT, which
    the session's policy allows, so the refusal of urllib3 to retry a
    read error of a method outside the allow list never applies. *)
Fixpoint urlopen (pol : Retry) (left : nat) (errors : nat)
    (r : request) : M response :=
  o <- exchange r;;
  match o with
  | Response s p =>
      if is_retry pol (req_method r) s then
        match left with
        | O => raise RetryError
        | S left' =>
            sleep_backoff pol (S errors) >>
            urlopen pol left' (S errors) r
        end
      else ret (s, p)
  | Broken e =>
      match left with
      | O => raise (if read_retries pol then max_retry_error e else e)
      | S left' =>
          sleep_backoff pol (S errors) >>
          urlopen pol left' (S errors) r
      end
  end.

(** The return of an API call is recorded in the log. *)
Definition api_call (r : request) (m : M response) : M response :=
  λ log, let '(res, log') := m log in (res, log' ++ [Call r res]).

(** [requests.get/put/delete/post]: the default adapter allows no
    retry ([Retry(0, read=False)]), so the request is exchanged once. *)
Definition DEFAULT_RETRIES : Retry :=
  {| total := 0; backoff_factor := 0;
     status_forcelist := []; allowed_methods := [GET; PUT; DELETE];
     read_retries := false |}.

Definition requests_request (r : request) : M response :=
  api_call r (urlopen DEFAULT_RETRIES (total DEFAULT_RETRIES) 0 r).

(** Lines 34-42: the session whose adapter carries the retry policy. *)
Definition retry_strategy : Retry :=
  {| total := 5; backoff_factor := 2;
     status_forcelist := [500; 502; 503; 504];
     allowed_methods := [PUT]; read_retries := true |}.

Definition session_put (url : string) (headers : gmap string string)
    (data : body) (timeout : option (Z * Z)) : M response :=
  let r := Request PUT url headers data timeout in
  api_call r (urlopen retry_strategy (total retry_strategy) 0 r).

(** *** [get_repo_identifier], lines 8-18 *)
Definition get_repo_identifier (repo_link : string) : M (option string) :=
  match re_search repo_link with
  | Some g => ret (Some g)
  | None => print InvalidURL >> ret None
  end.

(** The credentials every function reads first, and the headers built
    from them. *)
Definition access_key : option string := getenv E "S3_ACCESS_KEY".
Definition secret_key : option string := getenv E "S3_SECRET_KEY".

Definition keys_missing : bool :=
  negb (Str.truthy access_key) || negb (Str.truthy secret_key).

Definition auth_headers : gmap string string :=
  <["Authorization" :=
      "AWS " +:+ default "" access_key +:+ ":" +:+ default "" secret_key]>
    {["x-amz-auto-make-bucket" := "1"]}.

(** Local file operations. *)
Definition os_path_getsize (path : string) : M Z :=
  match fs_file E path with
  | Some f => ret (Z.of_nat (length (content f)))
  | None => raise OSError
  end.

Definition open_rb (path : string) : M (list Byte.byte) :=
  match fs_file E path with
  | Some f => if readable f then ret (content f) else raise OSError
  | None => raise OSError
  end.

(** [f.read(size)] for a positive [size]: the bytes read and the rest
    of the file. *)
Fixpoint read (size : Z) (f : list Byte.byte)
    : list Byte.byte * list Byte.byte :=
  match f with
  | [] => ([], [])
  | b :: f' =>
      if size <=? 0 then ([], f)
      else let '(c, r) := read (size - 1) f' in (b :: c, r)
  end.

(** *** [upload_file_with_progress], lines 20-71 *)

Definition CHUNK_SIZE : Z := 1024 * 1024 * 2.

(** The [while True] loop of lines 52-60.  Each turn consumes a
    non-empty chunk, so [fuel] above the length of the file is never
    used up.  The loop gives [false] when the function returned
    [False] from inside it and [true] when it left by [break]. *)
Fixpoint upload_loop (chunk_size : Z) (fuel : nat)
    (file_path upload_url : string) (headers : gmap string string)
    (f : list Byte.byte) : M bool :=
  match fuel with
  | O => ret true
  | S fuel' =>
      let '(chunk, f') := read chunk_size f in
      match chunk with
      | [] => ret true
      | _ :: _ =>
          resp <- session_put upload_url headers (Bytes chunk)
                    (Some (60, 600));;
          if negb (status_code resp =? 200) then
            print (UploadError file_path (status_code resp)) >> ret false
          else
            emit (Progress (Z.of_nat (length chunk))) >>
            upload_loop chunk_size fuel' file_path upload_url headers f'
      end
  end.

Definition upload_handlers (e : exn) : M bool :=
  match e with
  | SSLError => print UploadSSLError >> ret false
  | _ =>
      if is_request_exception e
      then print (UploadRequestError e) >> ret false
      else print (UploadUnexpected e) >> ret false
  end.

Definition upload_url_of (identifier file_path directory : string) : string :=
  "https://s3.us.archive.org/" +:+ identifier +:+ "/" +:+ directory +:+ "/"
    +:+ Str.basename file_path.

Definition upload_file_with_progress
    (identifier file_path directory : string) : M bool :=
  if keys_missing then print CredentialsMissing >> ret false
  else
    let upload_url := upload_url_of identifier file_path directory in
    file_size <- os_path_getsize file_path;;
    try_except
      (f <- open_rb file_path;;
       finished <- upload_loop CHUNK_SIZE (S (length f)) file_path
                     upload_url auth_headers f;;
       if finished then print (UploadOK file_path) >> ret true
       else ret false)
      upload_handlers.

(** *** [list_repository_files], lines 73-105 *)

Definition response_json (resp : response) : M (option (list (gmap string string))) :=
  match snd resp with
  | Json files => ret files
  | NoJson => raise ValueError
  end.

(** Lines 91-93: some component of the path ends with [.thumbs]. *)
Definition in_thumbs (name : string) : bool :=
  existsb (λ part, Str.endswith part ".thumbs") (Str.split name).

(** The body of the [for f in files] loop, lines 88-95, on the list
    accumulated so far. *)
Definition collect_name (file_list : list string)
    (f : gmap string string) : list string :=
  match f !! "name" with
  | Some name => if in_thumbs name then file_list else file_list ++ [name]
  | None => file_list
  end.

Fixpoint print_file_lines (idx : nat) (names : list string) : M unit :=
  match names with
  | [] => ret tt
  | name :: names' =>
      print (FileLine idx name) >> print_file_lines (S idx) names'
  end.

Definition list_repository_files (identifier : string) : M (list string) :=
  let url := "https://archive.org/metadata/" +:+ identifier in
  try_except
    (resp <- requests_request (Request GET url ∅ NoBody None);;
     if negb (status_code resp =? 200) then
       print (MetadataFetchError (status_code resp)) >> ret []
     else
       data_files <- response_json resp;;
       let files := default [] data_files in
       let file_list := foldl collect_name [] files in
       match file_list with
       | _ :: _ =>
           print FilesHeader >> print_file_lines 1 file_list >> ret file_list
       | [] => print NoFilesFound >> ret file_list
       end)
    (λ e, print (ListingError e) >> ret []).

(** *** [delete_file], lines 107-131 *)

Definition delete_file (identifier file_path : string) : M bool :=
  if keys_missing then print DeleteKeysMissing >> ret false
  else
    let delete_url :=
      "https://s3.us.archive.org/" +:+ identifier +:+ "/" +:+ file_path in
    try_except
      (resp <- requests_request
                 (Request DELETE delete_url auth_headers NoBody None);;
       if (status_code resp =? 200) || (status_code resp =? 204) then
         print (Deleted file_path) >> ret true
       else
         print (DeleteFailed file_path (status_code resp)) >> ret false)
      (λ e, print (DeletionError e) >> ret false).

(** *** [move_file], lines 133-168 *)

(** Lines 144-145: a directory, when given, is joined to the name. *)
Definition path_in (dir file_name : string) : string :=
  match dir with
  | EmptyString => file_name
  | _ => dir +:+ "/" +:+ file_name
  end.

Definition move_file
    (identifier file_name source_dir target_dir : string) : M bool :=
  if keys_missing then print MoveKeysMissing >> ret false
  else
    let source_path := path_in source_dir file_name in
    let destination_path := path_in target_dir file_name in
    let copy_url :=
      "https://s3.us.archive.org/" +:+ identifier +:+ "/"
        +:+ destination_path in
    let source_url := "/" +:+ identifier +:+ "/" +:+ source_path in
    let headers := <["x-amz-copy-source" := source_url]> auth_headers in
    try_except
      (resp <- requests_request (Request PUT copy_url headers NoBody None);;
       if negb ((status_code resp =? 200) || (status_code resp =? 201)) then
         print (CopyError source_path destination_path (status_code resp)) >>
         ret false
       else
         print (Copied source_path destination_path) >>
         deleted <- delete_file identifier source_path;;
         if deleted then
           print (Moved source_path destination_path) >> ret true
         else
           print (CopiedNotDeleted source_path) >> ret false)
      (λ e, print (MoveError e) >> ret false).

(** *** [initialize_repository], lines 221-277 *)

(** [os.walk(top)], top-down: for every directory one item with its
    path (here the components below [top]), its sub-directories and
    its other entries, in listing order; then the items of each
    sub-directory in turn.  An entry that is a file carries the file
    that [os.path.join(root, name)] names. *)
Definition dirnames (entries : list (string * node)) : list string :=
  omap (λ e, match e with (n, DirNode _) => Some n | _ => None end) entries.
Definition filenames (entries : list (string * node)) : list (string * file) :=
  omap (λ e, match e with (n, FileNode f) => Some (n, f) | _ => None end)
       entries.

Fixpoint os_walk (root : list string) (top : node)
    : list (list string * list string * list (string * file)) :=
  match top with
  | FileNode _ => []
  | DirNode entries =>
      (root, dirnames entries, filenames entries)
      :: flat_map (λ e, match e with
                        | (n, sub) => os_walk (root ++ [n]) sub
                        end) entries
  end.

(** [os.path.relpath(os.path.join(root, file_name), folder_path)]:
    the components from the folder down, joined by the separator. *)
Definition relpath (root : list string) (file_name : string) : string :=
  Str.join (root ++ [file_name]).

(** Test mode, lines 238-241. *)
Fixpoint report_files (root : list string)
    (files : list (string * file)) : M unit :=
  match files with
  | [] => ret tt
  | (file_name, _) :: files' =>
      print (WouldUpload (relpath root file_name)) >>
      report_files root files'
  end.

Fixpoint report_walk
    (items : list (list string * list string * list (string * file)))
    : M unit :=
  match items with
  | [] => ret tt
  | (root, _, files) :: items' =>
      report_files root files >> report_walk items'
  end.

(** Permanent mode, lines 245-266.  Both loops give [false] when the
    function returned from inside them. *)
Definition upload_one (identifier : string) (root : list string)
    (file_name : string) (f : file) : M bool :=
  let relative_path := relpath root file_name in
  let upload_url :=
    "https://s3.us.archive.org/" +:+ identifier +:+ "/" +:+ relative_path in
  try_except
    (print (UploadingFile relative_path) >>
     let file_size := Z.of_nat (length (content f)) in
     file_data <- (if readable f then ret (content f) else raise OSError);;
     resp <- requests_request
               (Request PUT upload_url auth_headers (FileStream file_data)
                  None);;
     if negb (status_code resp =? 200) then
       print (InitUploadError relative_path (status_code resp)) >> ret false
     else
       emit (Progress file_size) >>
       print (InitUploaded relative_path) >> ret true)
    (λ e, print (InitException e) >> ret true).

Fixpoint upload_files (identifier : string) (root : list string)
    (files : list (string * file)) : M bool :=
  match files with
  | [] => ret true
  | (file_name, f) :: files' =>
      go_on <- upload_one identifier root file_name f;;
      if go_on then upload_files identifier root files' else ret false
  end.

Fixpoint upload_walk (identifier : string)
    (items : list (list string * list string * list (string * file)))
    : M bool :=
  match items with
  | [] => ret true
  | (root, _, files) :: items' =>
      go_on <- upload_files identifier root files;;
      if go_on then upload_walk identifier items' else ret false
  end.

Inductive mode := Test | Permanent.

Definition post_metadata (identifier : string)
    (metadata : gmap string string) : M unit :=
  let metadata_url :=
    "https://archive.org/metadata/" +:+ identifier +:+ "/metadata" in
  try_except
    (print AddingMetadata >>
     resp <- requests_request
               (Request POST metadata_url ∅ (Form metadata) None);;
     if status_code resp =? 200 then print MetadataAdded
     else print (MetadataError (status_code resp)))
    (λ e, print (MetadataException e)).

Definition initialize_repository (folder_path identifier : string)
    (metadata : gmap string string) (md : mode) : M unit :=
  if keys_missing then print CredentialsMissing
  else
    match md with
    | Test =>
        print TestBanner >>
        print (TestFolder folder_path) >>
        print (TestIdentifier identifier) >>
        print (TestMetadata metadata) >>
        print TestFilesHeader >>
        report_walk (os_walk [] (fs_tree E folder_path)) >>
        print TestComplete
    | Permanent =>
        finished <- upload_walk identifier
                      (os_walk [] (fs_tree E folder_path));;
        if finished then post_metadata identifier metadata else ret tt
    end.

(** *** The multi-file upload of [main], lines 368-379 *)

(** Lines 368-371: [false] when the function returned on a missing
    file. *)
Fixpoint check_files_exist (file_paths : list string) : M bool :=
  match file_paths with
  | [] => ret true
  | file :: rest =>
      match fs_file E file with
      | None => print (FileNotFound file) >> ret false
      | Some _ => check_files_exist rest
      end
  end.

(** Lines 373-375, from the current value of [success]. *)
Fixpoint upload_each (identifier directory : string)
    (file_paths : list string) (success : bool) : M bool :=
  match file_paths with
  | [] => ret success
  | file_path :: rest =>
      ok <- upload_file_with_progress identifier file_path directory;;
      upload_each identifier directory rest (if negb ok then false else success)
  end.

Definition main_upload_files (identifier directory : string)
    (file_paths : list string) : M unit :=
  present <- check_files_exist file_paths;;
  if present then
    success <- upload_each identifier directory file_paths true;;
    if success then print AllUploaded else print SomeFailed
  else ret tt.

End Program.

(** ** Specification vocabulary *)

(** What the call of a plain [requests] function or of [session.put]
    hands back for the last outcome on the wire. *)
Definition outcome_result (o : outcome) : result response :=
  match o with
  | Response s p => Ret (s, p)
  | Broken e => Raise e
  end.

(** The shape of a URL around the marker. *)
Definition slash_free (s : string) : Prop :=
  ∀ a b, s ≠ a +:+ String Str.slash b.

Definition at_boundary (rest : string) : Prop :=
  rest = "" ∨ ∃ t, rest = String Str.slash t.

Definition occurs_in (p s : string) : Prop :=
  ∃ a b, s = a +:+ p +:+ b.

(** The occurrence of the marker after [pre] is the first one in [url]
    that a character other than a slash follows. *)
Definition first_with_segment (pre url : string) : Prop :=
  ∀ pre' c t, url = pre' +:+ marker +:+ String c t → c ≠ Str.slash →
    (String.length pre ≤ String.length pre')%nat.

(** Decision procedures for the two predicates above, for use on
    concrete URLs. *)
Fixpoint contains (p s : string) : bool :=
  match Str.strip_prefix p s with
  | Some _ => true
  | None =>
      match s with
      | EmptyString => false
      | String _ s' => contains p s'
      end
  end.

Fixpoint no_match_before (n : nat) (s : string) : bool :=
  match n with
  | O => true
  | S n' =>
      match match_here s with
      | Some _ => false
      | None =>
          match s with
          | EmptyString => true
          | String _ s' => no_match_before n' s'
          end
      end
  end.

(** What [list_repository_files] prints and keeps. *)
Fixpoint numbered (idx : nat) (names : list string) : list event :=
  match names with
  | [] => []
  | name :: names' => Print (FileLine idx name) :: numbered (S idx) names'
  end.

Definition has_thumbs_component (name : string) : Prop :=
  ∃ part stem, part ∈ Str.split name ∧ part = stem +:+ ".thumbs".

Definition names_of (files : list (gmap string string)) : list string :=
  omap (λ f : gmap string string, f !! "name") files.

(** [m] only appends to the log, and every request it puts on the wire
    satisfies [P]. *)
Definition issues {A} (P : request → Prop) (m : M A) : Prop :=
  ∀ log, ∃ added,
    snd (m log) = log ++ added ∧ Forall (λ x, P x.1) (exchanges added).

(** An outcome that sends [urlopen] through [Retry.increment]. *)
Definition retriable (pol : Retry) (r : request) (o : outcome) : bool :=
  match o with
  | Response s _ => is_retry pol (req_method r) s
  | Broken _ => true
  end.

(** What [urlopen] raises when the outcome [o] exhausts the policy. *)
Definition exhausted_exn (pol : Retry) (o : outcome) : exn :=
  match o with
  | Response _ _ => RetryError
  | Broken e => if read_retries pol then max_retry_error e else e
  end.

(** The pauses taken before the retries [errors + 1], ..., [errors + k]. *)
Fixpoint pause_list (pol : Retry) (errors k : nat) : list Z :=
  match k with
  | O => []
  | S k' =>
      (if get_backoff_time pol (S errors) <=? 0 then []
       else [get_backoff_time pol (S errors)])
      ++ pause_list pol (S errors) k'
  end.

(** The exchanges of one request sent [k] times from exchange [n] on. *)
Definition sent (E : environment) (r : request) (n k : nat)
    : list (request * outcome) :=
  map (λ i, (r, net E (n + i)%nat)) (seq 0 k).

(** The successive chunks of [n] bytes of a file: each is what a read
    of [n] bytes gives where the previous one stopped. *)
Inductive chunked (n : nat) : list Byte.byte → list (list Byte.byte) → Prop :=
| chunked_end : chunked n [] []
| chunked_next (data : list Byte.byte) (cs : list (list Byte.byte)) :
    data ≠ [] → chunked n (drop n data) cs →
    chunked n data (take n data :: cs).

Definition is_200 (res : result response) : Prop := ∃ p, res = Ret (200, p).

(** How the chunk loop goes, given the chunks still to send: the
    results of the calls it makes and what it ends with. *)
Inductive upload_run :
    list (list Byte.byte) → list (result response) → result bool → Prop :=
| run_done : upload_run [] [] (Ret true)
| run_ok c cs p rs b :
    upload_run cs rs b → upload_run (c :: cs) (Ret (200, p) :: rs) b
| run_refused c cs s p :
    s ≠ 200 → upload_run (c :: cs) [Ret (s, p)] (Ret false)
| run_raised c cs e : upload_run (c :: cs) [Raise e] (Raise e).

(** The request that carries one chunk. *)
Definition chunk_put (E : environment)
    (identifier file_path directory : string) (c : list Byte.byte) : request :=
  Request PUT (upload_url_of identifier file_path directory) (auth_headers E)
    (Bytes c) (Some (60, 600)).

(** The statuses of the force list of the session's policy. *)
Definition forced (s : Z) : Prop := s = 500 ∨ s = 502 ∨ s = 503 ∨ s = 504.

(** The relative paths Test mode reports for a tree, in walk order. *)
Definition would_upload (top : node) : list string :=
  flat_map (λ item : list string * list string * list (string * file),
              map (λ nf : string * file, relpath item.1.1 nf.1) item.2)
    (os_walk [] top).

(** [comps] is the path, from the directory [top] down, of a file under
    it. *)
Inductive file_at : list string → node → Prop :=
| file_here name f entries :
    (name, FileNode f) ∈ entries → file_at [name] (DirNode entries)
| file_below name sub comps entries :
    (name, sub) ∈ entries → file_at comps sub →
    file_at (name :: comps) (DirNode entries).

(** Induction on directory trees, with the hypothesis for every entry
    of a directory. *)
Fixpoint node_rect_entries (P : node → Prop)
    (Hfile : ∀ f, P (FileNode f))
    (Hdir : ∀ entries, Forall (λ e : string * node, P e.2) entries →
            P (DirNode entries))
    (top : node) : P top :=
  match top with
  | FileNode f => Hfile f
  | DirNode entries =>
      Hdir entries
        ((fix go (es : list (string * node))
            : Forall (λ e : string * node, P e.2) es :=
            match es return Forall (λ e : string * node, P e.2) es with
            | [] => List.Forall_nil _
            | e :: es' =>
                @List.Forall_cons _ (λ e : string * node, P e.2) e es'
                  (match e return P e.2 with
                   | (_, sub) => node_rect_entries P Hfile Hdir sub
                   end)
                  (go es')
            end) entries)
  end.

(** The two requests of [move_file] and what the script makes of their
    outcomes. *)
Definition object_of (identifier path : string) : string :=
  "/" +:+ identifier +:+ "/" +:+ path.

Definition copy_request (E : environment)
    (identifier file_name source_dir target_dir : string) : request :=
  Request PUT
    ("https://s3.us.archive.org/" +:+ identifier +:+ "/"
       +:+ path_in target_dir file_name)
    (<["x-amz-copy-source" :=
         "/" +:+ identifier +:+ "/" +:+ path_in source_dir file_name]>
       (auth_headers E))
    NoBody None.

Definition delete_request (E : environment) (identifier file_path : string)
    : request :=
  Request DELETE ("https://s3.us.archive.org/" +:+ identifier +:+ "/" +:+ file_path)
    (auth_headers E) NoBody None.

Definition copy_ok (o : outcome) : bool :=
  match o with
  | Response s _ => (s =? 200) || (s =? 201)
  | Broken _ => false
  end.

Definition delete_ok (o : outcome) : bool :=
  match o with
  | Response s _ => (s =? 200) || (s =? 204)
  | Broken _ => false
  end.

Definition copy_report (src dst : string) (o : outcome) : msg :=
  match o with
  | Response s _ => CopyError src dst s
  | Broken e => MoveError e
  end.

Definition delete_report (path : string) (o : outcome) : msg :=
  match o with
  | Response s _ => if delete_ok o then Deleted path else DeleteFailed path s
  | Broken e => DeletionError e
  end.

(** The server did not carry the request out. *)
Definition refused (o : outcome) : Prop :=
  match o with
  | Response s _ => accepted s = false
  | Broken _ => True
  end.

(** What a store holds under a path, when the replay gave a store. *)
Definition held (after : option (gmap string (list Byte.byte)))
    (path : string) : option (option (list Byte.byte)) :=
  match after with
  | Some st => Some (st !! path)
  | None => None
  end.

(** Every file of the list is tried in turn, each on the log the
    previous ones left, whatever they returned. *)
Fixpoint attempt_all (E : environment) (identifier directory : string)
    (file_paths : list string) (log : list event) : list bool * list event :=
  match file_paths with
  | [] => ([], log)
  | file_path :: rest =>
      match upload_file_with_progress E identifier file_path directory log with
      | (Ret b, log') =>
          let '(bs, final) := attempt_all E identifier directory rest log' in
          (b :: bs, final)
      | (Raise _, log') => ([], log')
      end
  end.

(** ** Scenarios used by the examples *)

Definition credentials (name : string) : option string :=
  if String.eqb name "S3_ACCESS_KEY" then Some "AK"
  else if String.eqb name "S3_SECRET_KEY" then Some "SK"
  else None.

Definition no_credentials (name : string) : option string := None.

(** A network that answers the n-th exchange with the n-th outcome of a
    script, and with [fallback] once the script is used up. *)
Definition scripted (script : list outcome) (fallback : outcome) (n : nat)
    : outcome :=
  nth n script fallback.

Definition ok : outcome := Response 200 NoJson.
Definition unavailable : outcome := Response 503 NoJson.

Definition no_files (path : string) : option file := None.
Definition empty_tree (path : string) : node := DirNode [].

Definition named (name : string) : gmap string string := {["name" := name]}.

Definition listing_doc : outcome :=
  Response 200
    (Json (Some [named "a/b.jpg"; named "a/b.thumbs/c.jpg"; named "x.thumbs"])).

Definition one_file (path : string) (f : file) (p : string) : option file :=
  if String.eqb p path then Some f else None.

Definition five_bytes : list Byte.byte :=
  [Byte.x01; Byte.x02; Byte.x03; Byte.x04; Byte.x05].

(** A laptop with the credentials set and one readable file of five
    bytes, facing a network that follows [script]. *)
Definition laptop (script : list outcome) : environment :=
  Environment credentials
    (one_file "/tmp/data.bin" (File true five_bytes))
    empty_tree (scripted script ok).

(** A folder with [a.txt] and [sub/b.txt]. *)
Definition sample_tree : node :=
  DirNode [("a.txt", FileNode (File true [Byte.x61]));
           ("sub", DirNode [("b.txt", FileNode (File true [Byte.x62]))])].

Definition desk (env : string → option string) (script : list outcome)
    : environment :=
  Environment env no_files (λ _, sample_tree) (scripted script ok).

Definition sample_metadata : gmap string string := {["title" := "Sample"]}.

(** An item that holds [docs/a.txt]. *)
Definition sample_store : gmap string (list Byte.byte) :=
  {["/item/docs/a.txt" := [Byte.x61]]}.

(** An item that holds a file whose name has a [#]. *)
Definition fragment_store : gmap string (list Byte.byte) :=
  {["/item/docs/a#b" := [Byte.x61]]}.

Definition two_files (p : string) : option file :=
  if String.eqb p "/tmp/data.bin" then Some (File true five_bytes)
  else if String.eqb p "/tmp/notes.txt" then Some (File true [Byte.x6e])
  else None.

Definition laptop2 (script : list outcome) : environment :=
  Environment credentials two_files empty_tree (scripted script ok).

(** ** Further vocabulary *)

(** The updates of the progress bar in a log, and the sum of a list of
    integers. *)
Definition progress (log : list event) : list Z :=
  omap (λ e, match e with Progress n => Some n | _ => None end) log.

Definition sumZ (zs : list Z) : Z := foldr Z.add 0 zs.

(** The message [upload_file_with_progress] prints for an exception,
    by class. *)
Definition upload_exception_report (e : exn) : msg :=
  match e with
  | SSLError => UploadSSLError
  | ConnectionError | Timeout | RetryError => UploadRequestError e
  | OSError | ValueError => UploadUnexpected e
  end.

(** A URL has some occurrence of the marker that a character other than
    a slash follows. *)
Definition has_segment (url : string) : Prop :=
  ∃ pre c t, url = pre +:+ marker +:+ String c t ∧ c ≠ Str.slash.

(** An outcome after which the session sends the PUT again: a status
    of the force list, or a failure of the transport (an SSL error, a
    connection error or a timeout). *)
Definition transient (o : outcome) : Prop :=
  match o with
  | Response s _ => forced s
  | Broken e => e = SSLError ∨ e = ConnectionError ∨ e = Timeout
  end.

(** The request of [list_repository_files]. *)
Definition listing_request (identifier : string) : request :=
  Request GET ("https://archive.org/metadata/" +:+ identifier) ∅ NoBody None.

(** The names [list_repository_files] keeps of a document. *)
Definition kept_names (doc_files : option (list (gmap string string)))
    : list string :=
  List.filter (λ n, negb (in_thumbs n)) (names_of (default [] doc_files)).

(** What [list_repository_files] prints for the names it keeps. *)
Definition listing_lines (kept : list string) : list event :=
  match kept with
  | [] => [Print NoFilesFound]
  | _ :: _ => Print FilesHeader :: numbered 1 kept
  end.

(** The body of [listing_doc]. *)
Definition listing_payload : payload :=
  Json (Some [named "a/b.jpg"; named "a/b.thumbs/c.jpg"; named "x.thumbs"]).

(** ** The menu branches of [main]

    The branches of [main] print lines of their own and read answers
    from the console.  Their trace is the log of events interleaved
    with those lines; a computation of the script is run on the events
    of the trace and what it adds is appended.  The answers are
    arguments: a text answer as given to the branch after [strip()],
    and the number typed as the result of [int(input().strip())],
    [None] standing for the [ValueError] of a text that is no
    number. *)

Inductive line :=
| Event (e : event)
| Say (text : string).

Definition T (A : Type) : Type := list line → result A * list line.

Definition events_of (tr : list line) : list event :=
  omap (λ l, match l with Event e => Some e | Say _ => None end) tr.

Definition said (tr : list line) : list string :=
  omap (λ l, match l with Say text => Some text | Event _ => None end) tr.

Definition retT {A} (a : A) : T A := λ tr, (Ret a, tr).

Definition bindT {A B} (m : T A) (k : A → T B) : T B :=
  λ tr, match m tr with
        | (Ret a, tr') => k a tr'
        | (Raise e, tr') => (Raise e, tr')
        end.

Definition say (text : string) : T unit := λ tr, (Ret tt, tr ++ [Say text]).

Definition lift {A} (m : M A) : T A :=
  λ tr, let log := events_of tr in
        let '(res, log') := m log in
        (res, tr ++ map Event (drop (length log) log')).

Section Menu.

Context (E : environment).

(** Choice 3, lines 383-394. *)
Definition main_delete (identifier : string) (number : option Z) : T unit :=
  bindT (lift (list_repository_files E identifier)) (λ file_list,
    match file_list with
    | [] => retT tt
    | _ :: _ =>
        bindT (say "Enter the number of the file to delete:") (λ _,
          match number with
          | None => say "Invalid input."
          | Some typed =>
              let index := typed - 1 in
              if (0 <=? index) && (index <? Z.of_nat (length file_list)) then
                match file_list !! Z.to_nat index with
                | Some name =>
                    bindT (lift (delete_file E identifier name))
                      (λ _, retT tt)
                | None => retT tt
                end
              else say "Invalid index."
          end)
    end).

(** Choice 4, lines 396-410. *)
Definition main_move (identifier : string) (number : option Z)
    (source_dir target_dir : string) : T unit :=
  bindT (lift (list_repository_files E identifier)) (λ file_list,
    match file_list with
    | [] => retT tt
    | _ :: _ =>
        bindT (say "Enter the number of the file to move:") (λ _,
          match number with
          | None => say "Invalid input."
          | Some typed =>
              let index := typed - 1 in
              if (0 <=? index) && (index <? Z.of_nat (length file_list)) then
                match file_list !! Z.to_nat index with
                | Some file_to_move =>
                    bindT (lift (move_file E identifier file_to_move
                                   source_dir target_dir))
                      (λ _, retT tt)
                | None => retT tt
                end
              else say "Invalid index."
          end)
    end).

End Menu.

(** The trace of a menu branch once the listing has been received and
    shown, and the question asked. *)
Definition listed_trace (tr : list line) (identifier : string)
    (doc_files : option (list (gmap string string))) (question : string)
    : list line :=
  (tr ++ map Event
           ([Wire (listing_request identifier) (Response 200 (Json doc_files));
             Call (listing_request identifier) (Ret (200, Json doc_files))]
              ++ listing_lines (kept_names doc_files)))
    ++ [Say question].

(** The number typed selects an entry of a list of that length. *)
Definition in_range (typed : Z) (len : nat) : bool :=
  (0 <=? typed - 1) && (typed - 1 <? Z.of_nat len).

(** ** Permanent mode: vocabulary *)

(** The files of a tree in walk order, each with its path relative to
    the top. *)
Definition walked (top : node) : list (string * file) :=
  flat_map (λ item : list string * list string * list (string * file),
              map (λ nf : string * file, (relpath item.1.1 nf.1, nf.2)) item.2)
    (os_walk [] top).

(** The PUT that carries one file of the folder, and the POST of the
    metadata. *)
Definition file_put (E : environment) (identifier relative_path : string)
    (f : file) : request :=
  Request PUT
    ("https://s3.us.archive.org/" +:+ identifier +:+ "/" +:+ relative_path)
    (auth_headers E) (FileStream (content f)) None.

Definition metadata_post (identifier : string) (metadata : gmap string string)
    : request :=
  Request POST ("https://archive.org/metadata/" +:+ identifier +:+ "/metadata")
    ∅ (Form metadata) None.

(** The exchanges of the PUTs of a list of files, the first one being
    exchange [n]. *)
Fixpoint file_puts (E : environment) (identifier : string) (n : nat)
    (files : list (string * file)) : list (request * outcome) :=
  match files with
  | [] => []
  | (rel, f) :: rest =>
      (file_put E identifier rel f, net E n) :: file_puts E identifier (S n) rest
  end.

(** The per-file loop on a list of files given with their relative
    paths. *)
Fixpoint upload_listed (E : environment) (identifier : string)
    (files : list (string * file)) : M bool :=
  match files with
  | [] => ret true
  | (rel, f) :: rest =>
      bind (upload_one E identifier [] rel f)
        (λ go_on, if go_on then upload_listed E identifier rest else ret false)
  end.

(** What Permanent mode prints after the exchange of one file, and
    whether the loop goes on. *)
Definition file_report (relative_path : string) (size : Z) (o : outcome)
    : list event :=
  match o with
  | Response s _ =>
      if s =? 200 then [Progress size; Print (InitUploaded relative_path)]
      else [Print (InitUploadError relative_path s)]
  | Broken e => [Print (InitException e)]
  end.

Definition goes_on (o : outcome) : bool :=
  match o with
  | Response s _ => s =? 200
  | Broken _ => true
  end.

Definition metadata_report (o : outcome) : msg :=
  match o with
  | Response s _ => if s =? 200 then MetadataAdded else MetadataError s
  | Broken e => MetadataException e
  end.

(** An answer with the given status and no document. *)
Definition answered (s : Z) : outcome := Response s NoJson.

(** ** The two services *)

(** A request to the object store: one of the given methods, an
    address under the store, and the [Authorization] header made of
    the two keys. *)
Definition object_request (E : environment) (methods : list method)
    (r : request) : Prop :=
  In (req_method r) methods
  ∧ (∃ key, req_url r = "https://s3.us.archive.org/" +:+ key)
  ∧ req_headers r !! "Authorization"
      = Some ("AWS " +:+ default "" (access_key E) +:+ ":"
                +:+ default "" (secret_key E)).

(** A request to the metadata service: the given method, an address
    under the service, and no header at all. *)
Definition metadata_request (m : method) (r : request) : Prop :=
  req_method r = m
  ∧ (∃ rest, req_url r = "https://archive.org/metadata/" +:+ rest)
  ∧ req_headers r = ∅.

(** ** [prompt_metadata], [create_rules_file] and choice 5 of [main]

    As for the other branches of the menu, the trace holds the lines
    the script prints (the prompts of [input] are not printed lines),
    and the answers are arguments, each as the script uses it: after
    [strip()], and the answer about the test item after [lower()] as
    well. *)

Definition nl : string := String "010"%char EmptyString.

Definition raiseT {A} (e : exn) : T A := λ tr, (Raise e, tr).

Fixpoint say_all (texts : list string) : T unit :=
  match texts with
  | [] => retT tt
  | text :: rest => bindT (say text) (λ _, say_all rest)
  end.

Record answers := Answers {
  title : string;
  description : string;
  creator : string;
  date : string;
  language : string;
  licenseurl : string;
  collection_input : string;
  subject : string;
  test_item : string
}.

Definition collection_options : list string :=
  ["1. community - General-purpose collection for user-contributed materials";
   "2. opensource - Collection for open-source software";
   "3. texts - Books, magazines, and other written documents";
   "4. movies - Videos, movies, and visual media";
   "5. audio - Audio recordings, including music and podcasts";
   "6. image - Images or photography";
   "7. etree - Live music archive for etree community recordings";
   "8. folksoundomy - Independent and user-contributed audio content";
   "9. games - Video games and gaming-related resources";
   "10. software - Software applications and tools"].

(** [prompt_metadata], lines 183-219. *)
Definition prompt_metadata (a : answers) : T (gmap string string) :=
  bindT (say (nl +:+ "Provide the following metadata for the new repository:"))
    (λ _,
  let metadata : gmap string string :=
    <["licenseurl" := licenseurl a]>
      (<["language" := language a]>
         (<["date" := date a]>
            (<["creator" := creator a]>
               (<["description" := description a]>
                  {["title" := title a]})))) in
  bindT (say (nl +:+ "Collection Options (choose one):")) (λ _,
  bindT (say_all collection_options) (λ _,
  let metadata := <["collection" := collection_input a]> metadata in
  let metadata := <["subject" := subject a]> metadata in
  bindT (say (nl +:+ "Note: If you select 'yes' for test item, the repository will be automatically deleted after 30 days."))
    (λ _,
  let metadata := <["test_item" := test_item a]> metadata in
  bindT (if String.eqb (default "" (metadata !! "test_item")) "yes" then
           retT (<["test_item" := "true"]> metadata)
         else if String.eqb (default "" (metadata !! "test_item")) "no" then
           retT (delete "test_item" metadata)
         else
           bindT (say "Invalid input for test item. Assuming 'no'.")
             (λ _, retT (delete "test_item" metadata)))
    (λ metadata,
  retT (filter (λ kv : string * string, kv.2 ≠ "") metadata)))))).

(** [os.path.join(a, b)] of [posixpath]. *)
Definition os_path_join (a b : string) : string :=
  if match b with
     | String c _ => Ascii.eqb c Str.slash
     | EmptyString => false
     end
  then b
  else if String.eqb a "" || Str.endswith a "/" then a +:+ b
  else a +:+ "/" +:+ b.

(** The names a directory lists; a path that is no directory lists
    none. *)
Definition entry_names (top : node) : list string :=
  match top with
  | DirNode entries => map fst entries
  | FileNode _ => []
  end.

(** [os.path.exists(os.path.join(folder_path, name))] for a plain
    [name]: the folder lists the name. *)
Definition lists_entry (name : string) (top : node) : bool :=
  existsb (String.eqb name) (entry_names top).

(** [os.path.isdir(path)]. *)
Definition os_path_isdir (E : environment) (path : string) : bool :=
  match fs_tree E path with
  | DirNode _ => true
  | FileNode _ => false
  end.

(** How the file system answers [open(rules_path, "w")] for a file
    that does not exist yet: whether the file can be created, and the
    place at which the listing of the folder then shows it. *)
Record creation := Creation { permitted : bool; place : nat }.

(** The environment once a file has been written in a folder: the
    path names the file, and the walk of the folder finds the tree
    given.  Paths are told apart as strings. *)
Definition written (E : environment) (folder_path : string) (top : node)
    (path : string) (f : file) : environment :=
  Environment (getenv E)
    (λ p, if String.eqb p path then Some f else fs_file E p)
    (λ p, if String.eqb p folder_path then top else fs_tree E p)
    (net E).

(** The bytes of [CAT.ALL] and a line feed. *)
Definition rules_text : list Byte.byte :=
  [Byte.x43; Byte.x41; Byte.x54; Byte.x2e; Byte.x41; Byte.x4c; Byte.x4c;
   Byte.x0a].

Definition rules_file : file := File true rules_text.

(** The entries of a folder with a new entry at a place of the
    listing. *)
Definition with_entry (at_place : nat) (name : string) (f : file)
    (entries : list (string * node)) : list (string * node) :=
  take at_place entries ++ (name, FileNode f) :: drop at_place entries.

(** [create_rules_file], lines 170-181; the result is the environment
    the function leaves.  [os.path.exists(rules_path)] holds when the
    folder lists the name; [open(rules_path, "w")] raises [OSError]
    when the file cannot be created or the folder is no directory, and
    otherwise the file joins the listing of the folder. *)
Definition create_rules_file (E : environment) (c : creation)
    (folder_path : string) : T environment :=
  let rules_path := os_path_join folder_path "_rules.conf" in
  if negb (lists_entry "_rules.conf" (fs_tree E folder_path)) then
    bindT (say (nl +:+ "The folder does not contain a '_rules.conf' file. Creating one..."))
      (λ _,
    bindT (match fs_tree E folder_path with
           | DirNode entries =>
               if permitted c then
                 retT (written E folder_path
                         (DirNode (with_entry (place c) "_rules.conf"
                                     rules_file entries))
                         rules_path rules_file)
               else raiseT OSError
           | FileNode _ => raiseT OSError
           end) (λ E',
    bindT (say ("Created '_rules.conf' with contents:" +:+ nl +:+ "CAT.ALL"))
      (λ _, retT E')))
  else
    bindT (say (nl +:+ "The '_rules.conf' file already exists. Skipping creation."))
      (λ _, retT E).

(** Choice 5 of [main], lines 325-347; the result is the environment
    the branch leaves. *)
Definition main_create (E : environment) (c : creation)
    (folder_path mode_choice : string) (a : answers) (identifier : string)
    : T environment :=
  if negb (os_path_isdir E folder_path) then
    bindT (say "Invalid folder path. Please check if the directory exists and is accessible.")
      (λ _, retT E)
  else
    bindT (say (nl +:+ "Choose mode:")) (λ _,
    bindT (say "1. Test Mode (simulate actions)") (λ _,
    bindT (say "2. Permanent Mode (execute actions)") (λ _,
    match (if String.eqb mode_choice "1" then Some Test
           else if String.eqb mode_choice "2" then Some Permanent
           else None) with
    | None => bindT (say "Invalid choice. Exiting.") (λ _, retT E)
    | Some md =>
        bindT (prompt_metadata a) (λ metadata,
        bindT (create_rules_file E c folder_path) (λ E',
        match identifier with
        | EmptyString =>
            bindT (say "Repository identifier is required.") (λ _, retT E')
        | String _ _ =>
            bindT (lift (initialize_repository E' folder_path identifier
                           metadata md))
              (λ _, retT E')
        end))
    end))).

(** The text answers of [prompt_metadata] with their keys. *)
Definition text_answers (a : answers) : list (string * string) :=
  [("title", title a); ("description", description a);
   ("creator", creator a); ("date", date a); ("language", language a);
   ("licenseurl", licenseurl a); ("collection", collection_input a);
   ("subject", subject a)].

(** A folder that holds [a.txt], and the answers of a user who leaves
    the optional fields blank. *)
Definition small_folder : node :=
  DirNode [("a.txt", FileNode (File true [Byte.x61]))].

Definition office (script : list outcome) : environment :=
  Environment credentials no_files (λ _, small_folder) (scripted script ok).

Definition brief (flag : string) : answers :=
  Answers "Sample" "A sample" "" "" "" "" "opensource" "" flag.

(** What [prompt_metadata] returns and the lines it prints for given
    answers. *)
Definition metadata_of (a : answers) : gmap string string :=
  match fst (prompt_metadata a []) with
  | Ret metadata => metadata
  | Raise _ => ∅
  end.

Definition prompt_lines (a : answers) : list line := snd (prompt_metadata a []).

(** The folder and the environment once the rules file has been
    created. *)
Definition with_rules (c : creation) (entries : list (string * node)) : node :=
  DirNode (with_entry (place c) "_rules.conf" rules_file entries).

Definition after_creation (E : environment) (c : creation)
    (folder_path : string) (entries : list (string * node)) : environment :=
  written E folder_path (with_rules c entries)
    (os_path_join folder_path "_rules.conf") rules_file.

Definition rules_missing : string :=
  nl +:+ "The folder does not contain a '_rules.conf' file. Creating one...".
Definition rules_created : string :=
  "Created '_rules.conf' with contents:" +:+ nl +:+ "CAT.ALL".
Definition rules_kept : string :=
  nl +:+ "The '_rules.conf' file already exists. Skipping creation.".

(** The lines of choice 5 up to the creation of the rules file. *)
Definition create_lines (a : answers) : list line :=
  [Say (nl +:+ "Choose mode:"); Say "1. Test Mode (simulate actions)";
   Say "2. Permanent Mode (execute actions)"]
    ++ prompt_lines a ++ [Say rules_missing; Say rules_created].

(** The mode a choice stands for. *)
Definition mode_of (mode_choice : string) : option mode :=
  if String.eqb mode_choice "1" then Some Test
  else if String.eqb mode_choice "2" then Some Permanent
  else None.

(** * Properties *)

(** ** Strings *)

Lemma append_cons (c : ascii) (s t : string) :
  String c s +:+ t = String c (s +:+ t).
Proof. reflexivity. Qed.

Lemma append_nil_l (s : string) : "" +:+ s = s.
Proof. reflexivity. Qed.

Lemma append_nil_r (s : string) : s +:+ "" = s.
Proof.
  induction s as [|c s IH]; [done |]. by rewrite append_cons, IH.
Qed.

Lemma append_assoc (a b c : string) : (a +:+ b) +:+ c = a +:+ (b +:+ c).
Proof.
  induction a as [|x a IH]; [done |]. by rewrite !append_cons, IH.
Qed.

Lemma strip_prefix_app (p s : string) : Str.strip_prefix p (p +:+ s) = Some s.
Proof.
  induction p as [|a p IH]; [by destruct s |].
  rewrite append_cons. simpl. by rewrite Ascii.eqb_refl.
Qed.

Lemma strip_prefix_Some (p s r : string) :
  Str.strip_prefix p s = Some r → s = p +:+ r.
Proof.
  revert s; induction p as [|a p IH]; intros s; simpl.
  - destruct s; rewrite append_nil_l; congruence.
  - destruct s as [|b s]; [done |].
    destruct (Ascii.eqb_spec a b) as [->|]; [|done].
    intros H. by rewrite append_cons, (IH _ H).
Qed.

Lemma take_segment_app (seg rest : string) :
  slash_free seg → at_boundary rest → Str.take_segment (seg +:+ rest) = seg.
Proof.
  induction seg as [|c seg IH]; intros Hfree Hb.
  - rewrite append_nil_l.
    by destruct Hb as [->|[t ->]].
  - rewrite append_cons. simpl.
    destruct (Ascii.eqb_spec c Str.slash) as [->|Hc].
    + exfalso. by apply (Hfree "" seg).
    + rewrite IH; [done | | done].
      intros a b ->. by apply (Hfree (String c a) b).
Qed.

Lemma take_segment_nonempty (s : string) :
  Str.take_segment s ≠ "" → ∃ c t, s = String c t ∧ c ≠ Str.slash.
Proof.
  destruct s as [|c t]; simpl; [done |].
  destruct (Ascii.eqb_spec c Str.slash); [done | eauto].
Qed.

Lemma match_here_Some (s g : string) :
  match_here s = Some g → ∃ c t, s = marker +:+ String c t ∧ c ≠ Str.slash.
Proof.
  unfold match_here.
  destruct (Str.strip_prefix marker s) as [rest|] eqn:Hp; [|done].
  apply strip_prefix_Some in Hp as ->.
  destruct (Str.take_segment rest) eqn:Hseg; [done |]. intros _.
  destruct (take_segment_nonempty rest) as (c & t & -> & Hc); [by rewrite Hseg |].
  eauto.
Qed.

Lemma match_here_at (seg rest : string) :
  seg ≠ "" → slash_free seg → at_boundary rest →
  match_here (marker +:+ seg +:+ rest) = Some seg.
Proof.
  intros Hne Hfree Hb. unfold match_here.
  rewrite strip_prefix_app, take_segment_app by done.
  by destruct seg.
Qed.

Lemma re_search_unfold (s : string) :
  re_search s =
    match match_here s with
    | Some g => Some g
    | None => match s with "" => None | String _ s' => re_search s' end
    end.
Proof. by destruct s. Qed.

Lemma re_search_leftmost (pre seg rest : string) :
  seg ≠ "" → slash_free seg → at_boundary rest →
  first_with_segment pre (pre +:+ marker +:+ seg +:+ rest) →
  re_search (pre +:+ marker +:+ seg +:+ rest) = Some seg.
Proof.
  intros Hne Hfree Hb. induction pre as [|a pre IH]; intros Hfirst.
  - rewrite append_nil_l, re_search_unfold.
    by rewrite (match_here_at seg rest Hne Hfree Hb).
  - rewrite append_cons in *. rewrite re_search_unfold.
    destruct (match_here (String a (pre +:+ marker +:+ seg +:+ rest)))
      as [g|] eqn:Hm.
    + apply match_here_Some in Hm as (c & t & Heq & Hc).
      specialize (Hfirst "" c t Heq Hc). simpl in Hfirst. lia.
    + apply IH. intros pre' c t Heq Hc.
      specialize (Hfirst (String a pre') c t).
      rewrite append_cons, Heq in Hfirst.
      specialize (Hfirst eq_refl Hc). simpl in Hfirst. lia.
Qed.

Lemma re_search_None (url : string) :
  ¬ occurs_in marker url → re_search url = None.
Proof.
  induction url as [|a url IH]; intros Hno.
  - reflexivity.
  - rewrite re_search_unfold.
    destruct (match_here (String a url)) as [g|] eqn:Hm.
    + exfalso. apply Hno. apply match_here_Some in Hm as (c & t & Heq & _).
      exists "", (String c t). by rewrite Heq.
    + apply IH. intros (x & y & ->). apply Hno.
      by exists (String a x), y.
Qed.

Lemma take_segment_slash (a b : string) :
  Str.take_segment (a +:+ String Str.slash b) ≠ a +:+ String Str.slash b.
Proof.
  induction a as [|c a IH].
  - rewrite append_nil_l. discriminate.
  - rewrite append_cons. simpl.
    destruct (Ascii.eqb c Str.slash); [discriminate |].
    intros H. injection H as H. by apply IH.
Qed.

Lemma slash_free_take (s : string) : Str.take_segment s = s → slash_free s.
Proof. intros H a b ->. by apply (take_segment_slash a b). Qed.

Lemma contains_unfold (p s : string) :
  contains p s =
    match Str.strip_prefix p s with
    | Some _ => true
    | None => match s with "" => false | String _ s' => contains p s' end
    end.
Proof. by destruct s. Qed.

Lemma occurs_in_contains (p s : string) : occurs_in p s → contains p s = true.
Proof.
  intros (a & b & ->). induction a as [|c a IH].
  - rewrite append_nil_l, contains_unfold. by rewrite strip_prefix_app.
  - rewrite append_cons, contains_unfold.
    by destruct (Str.strip_prefix p (String c (a +:+ p +:+ b))).
Qed.

Lemma match_here_marker (c : ascii) (t : string) :
  c ≠ Str.slash → match_here (marker +:+ String c t) ≠ None.
Proof.
  intros Hc. unfold match_here. rewrite strip_prefix_app. simpl.
  by destruct (Ascii.eqb_spec c Str.slash).
Qed.

Lemma no_match_before_hit (pre rest : string) (n : nat) :
  match_here rest ≠ None → (String.length pre < n)%nat →
  no_match_before n (pre +:+ rest) = false.
Proof.
  intros Hm. revert n. induction pre as [|c pre IH]; intros n Hn.
  - rewrite append_nil_l. destruct n as [|n]; [simpl in Hn; lia |].
    simpl. by destruct (match_here rest).
  - rewrite append_cons. destruct n as [|n]; [simpl in Hn; lia |].
    cbn [no_match_before].
    destruct (match_here (String c (pre +:+ rest))); [done |].
    apply IH. simpl in Hn. lia.
Qed.

Lemma no_match_before_first (pre url : string) :
  no_match_before (String.length pre) url = true → first_with_segment pre url.
Proof.
  intros Hno pre' c t -> Hc.
  destruct (decide (String.length pre ≤ String.length pre')%nat) as [|Hlt];
    [done |].
  rewrite (no_match_before_hit pre' _ (String.length pre)) in Hno;
    [done | by apply match_here_marker | lia].
Qed.

Lemma take_segment_split (s : string) :
  ∃ rest, s = Str.take_segment s +:+ rest ∧ at_boundary rest
          ∧ slash_free (Str.take_segment s).
Proof.
  induction s as [|c s (rest & Hs & Hb & Hfree)].
  - exists "". split; [done |]. split; [by left |]. intros [|? ?] ?; discriminate.
  - simpl. destruct (Ascii.eqb_spec c Str.slash) as [->|Hc].
    + exists (String Str.slash s). split; [done |]. split; [right; eauto |].
      intros [|? ?] ?; discriminate.
    + exists rest. split; [by rewrite append_cons, <- Hs |]. split; [done |].
      intros [|d a] b Heq.
      * rewrite append_nil_l in Heq. congruence.
      * rewrite append_cons in Heq. injection Heq as _ Heq. by apply (Hfree a b).
Qed.

Lemma match_here_split (s g : string) :
  match_here s = Some g →
  ∃ rest, s = marker +:+ g +:+ rest ∧ g ≠ "" ∧ slash_free g ∧ at_boundary rest.
Proof.
  unfold match_here.
  destruct (Str.strip_prefix marker s) as [tail|] eqn:Hp; [|done].
  apply strip_prefix_Some in Hp as ->.
  destruct (take_segment_split tail) as (rest & Htail & Hb & Hfree).
  destruct (Str.take_segment tail) as [|c seg] eqn:Hseg; [done |].
  intros [= <-]. exists rest. by rewrite <- Htail.
Qed.

Lemma re_search_Some (url g : string) :
  re_search url = Some g →
  ∃ pre rest,
    url = pre +:+ marker +:+ g +:+ rest ∧ g ≠ "" ∧ slash_free g
    ∧ at_boundary rest ∧ first_with_segment pre url.
Proof.
  induction url as [|a url IH]; rewrite re_search_unfold.
  - destruct (match_here "") as [h|] eqn:Hm; [|done].
    intros [= ->]. apply match_here_split in Hm as (rest & Heq & ?).
    exists "", rest. rewrite append_nil_l. repeat split; try tauto.
    intros pre' c t _ _. simpl. lia.
  - destruct (match_here (String a url)) as [h|] eqn:Hm.
    + intros [= ->]. apply match_here_split in Hm as (rest & Heq & ?).
      exists "", rest. rewrite append_nil_l. repeat split; try tauto.
      intros pre' c t _ _. simpl. lia.
    + intros Hs. destruct (IH Hs) as (pre & rest & -> & Hne & Hfree & Hb & Hfirst).
      exists (String a pre), rest. rewrite append_cons.
      repeat split; try done.
      intros [|b pre'] c t Heq Hc.
      * rewrite append_nil_l in Heq. rewrite Heq in Hm.
        by apply match_here_marker in Hm.
      * rewrite append_cons in Heq. injection Heq as _ Heq.
        specialize (Hfirst pre' c t Heq Hc). simpl. lia.
Qed.

Lemma re_search_finds (pre : string) (c : ascii) (t : string) :
  c ≠ Str.slash → re_search (pre +:+ marker +:+ String c t) ≠ None.
Proof.
  intros Hc. induction pre as [|a pre IH].
  - rewrite append_nil_l, re_search_unfold.
    pose proof (match_here_marker c t Hc).
    by destruct (match_here (marker +:+ String c t)).
  - rewrite append_cons, re_search_unfold.
    by destruct (match_here (String a (pre +:+ marker +:+ String c t))).
Qed.

(** ** C6: identifier extraction *)

Example get_repo_identifier_plain :
  get_repo_identifier "https://archive.org/details/my-item" [] =
    (Ret (Some "my-item"), []).
Proof. reflexivity. Qed.

Example get_repo_identifier_query :
  get_repo_identifier "http://archive.org/details/a%20b?x=1/y" [] =
    (Ret (Some "a%20b?x=1"), []).
Proof. reflexivity. Qed.

Example get_repo_identifier_empty_segment :
  get_repo_identifier "https://archive.org/details/" [] =
    (Ret None, [Print InvalidURL]).
Proof. reflexivity. Qed.

(** C6. For a URL in which the marker [archive.org/details/] is
    followed by a non-empty segment that ends at the next slash or at
    the end of the string (the first such place in the URL),
    [get_repo_identifier] returns exactly that segment and prints
    nothing; every URL in which the marker is somewhere followed by a
    character other than a slash has such a place, so the function
    returns a segment for it; for a URL in which the marker does not
    occur it prints the invalid-URL message and returns [None]. *)
Theorem get_repo_identifier_spec (log : list event) :
  (∀ pre seg rest : string,
     seg ≠ "" → slash_free seg → at_boundary rest →
     first_with_segment pre (pre +:+ marker +:+ seg +:+ rest) →
     get_repo_identifier (pre +:+ marker +:+ seg +:+ rest) log
       = (Ret (Some seg), log))
  ∧ (∀ url : string,
       (∃ pre c t, url = pre +:+ marker +:+ String c t ∧ c ≠ Str.slash) →
       ∃ pre seg rest,
         url = pre +:+ marker +:+ seg +:+ rest
         ∧ seg ≠ "" ∧ slash_free seg ∧ at_boundary rest
         ∧ first_with_segment pre url
         ∧ get_repo_identifier url log = (Ret (Some seg), log))
  ∧ (∀ url : string,
       ¬ occurs_in marker url →
       get_repo_identifier url log = (Ret None, log ++ [Print InvalidURL])).
Proof.
  split; [|split].
  - intros pre seg rest Hne Hfree Hb Hfirst. unfold get_repo_identifier.
    by rewrite re_search_leftmost.
  - intros url (pre & c & t & -> & Hc). unfold get_repo_identifier.
    pose proof (re_search_finds pre c t Hc) as Hfound.
    destruct (re_search (pre +:+ marker +:+ String c t)) as [g|] eqn:Hs;
      [|done].
    destruct (re_search_Some _ _ Hs) as (pre' & rest & Heq & ? & ? & ? & ?).
    by exists pre', g, rest.
  - intros url Hno. unfold get_repo_identifier.
    by rewrite re_search_None.
Qed.

Lemma get_repo_identifier_spec_witness :
  get_repo_identifier "https://archive.org/details/foo/bar" []
    = (Ret (Some "foo"), [])
  ∧ get_repo_identifier "https://example.org/foo" []
    = (Ret None, [Print InvalidURL]).
Proof.
  destruct (get_repo_identifier_spec []) as (Hsome & _ & Hnone). split.
  - apply (Hsome "https://" "foo" "/bar").
    + discriminate.
    + apply slash_free_take. reflexivity.
    + right. by exists "bar".
    + apply no_match_before_first. vm_compute. reflexivity.
  - apply (Hnone "https://example.org/foo").
    intros H. apply occurs_in_contains in H. vm_compute in H. discriminate.
Defined.

(** ** C7: the listing filter *)

Lemma endswith_iff (s suf : string) :
  Str.endswith s suf = true ↔ ∃ stem, s = stem +:+ suf.
Proof.
  induction s as [|c s IH].
  - cbn [Str.endswith]. destruct (String.eqb_spec "" suf) as [<-|Hne].
    + split; [intros _; exists ""; reflexivity | done].
    + split; [done |]. intros [stem H]. destruct stem as [|d stem].
      * rewrite append_nil_l in H. congruence.
      * by rewrite append_cons in H.
  - cbn [Str.endswith]. destruct (String.eqb_spec (String c s) suf) as [<-|Hne].
    + split; [intros _; exists ""; reflexivity | done].
    + rewrite IH. split.
      * intros [stem ->]. by exists (String c stem).
      * intros [stem H]. destruct stem as [|d stem].
        -- rewrite append_nil_l in H. congruence.
        -- rewrite append_cons in H. injection H as _ ->. by exists stem.
Qed.

Lemma in_thumbs_iff (name : string) :
  in_thumbs name = true ↔ has_thumbs_component name.
Proof.
  unfold in_thumbs, has_thumbs_component. rewrite existsb_exists. split.
  - intros (part & Hin & He). apply endswith_iff in He as [stem ->].
    exists (stem +:+ ".thumbs"), stem. by rewrite list_elem_of_In.
  - intros (part & stem & Hin & ->). exists (stem +:+ ".thumbs").
    rewrite <- list_elem_of_In. split; [done |]. apply endswith_iff. eauto.
Qed.

Lemma foldl_collect_name (files : list (gmap string string)) (acc : list string) :
  foldl collect_name acc files
    = acc ++ List.filter (λ n, negb (in_thumbs n)) (names_of files).
Proof.
  revert acc; induction files as [|f files IH]; intros acc; simpl.
  - by rewrite app_nil_r.
  - rewrite IH. unfold collect_name.
    destruct (f !! "name") as [name|]; simpl; [|done].
    destruct (in_thumbs name); simpl; [done |].
    by rewrite <- app_assoc.
Qed.

(** ** Plain [requests] calls *)

Lemma is_retry_default (m : method) (s : Z) : is_retry DEFAULT_RETRIES m s = false.
Proof. unfold is_retry. apply andb_false_r. Qed.

(** A call through the default adapter is one exchange, whatever it
    gives, and hands its outcome back. *)
Lemma requests_request_spec (E : environment) (r : request) (log : list event) :
  let o := net E (length (exchanges log)) in
  requests_request E r log
    = (outcome_result o, log ++ [Wire r o; Call r (outcome_result o)]).
Proof.
  intros o. unfold requests_request, api_call.
  change (total DEFAULT_RETRIES) with 0%nat. cbn [urlopen].
  unfold bind, exchange. fold o.
  destruct o as [s p|e]; cbn [outcome_result].
  - rewrite is_retry_default. unfold ret. by rewrite <- app_assoc.
  - unfold raise. by rewrite <- app_assoc.
Qed.

Lemma print_file_lines_run (names : list string) (idx : nat) (log : list event) :
  print_file_lines idx names log = (Ret tt, log ++ numbered idx names).
Proof.
  revert idx log; induction names as [|n names IH]; intros idx log; simpl.
  - unfold ret. by rewrite app_nil_r.
  - unfold bind, print, emit. rewrite IH. by rewrite <- app_assoc.
Qed.

Example list_repository_files_example :
  fst (list_repository_files
         (Environment credentials no_files empty_tree (scripted [listing_doc] ok))
         "item" [])
    = Ret ["a/b.jpg"].
Proof. vm_compute. reflexivity. Qed.

(** C7. When the metadata request is answered 200 with a JSON
    document, [list_repository_files] returns the names of the records
    of its [files] array, in the order received, without exactly those
    that have a slash-separated component ending in [.thumbs]; of the
    names [a/b.jpg], [a/b.thumbs/c.jpg], [x.thumbs] it keeps only the
    first. *)
Theorem list_repository_files_filter (E : environment) (identifier : string)
    (log : list event) (doc_files : option (list (gmap string string))) :
  net E (length (exchanges log)) = Response 200 (Json doc_files) →
  let files := default [] doc_files in
  ∃ kept,
    fst (list_repository_files E identifier log) = Ret kept
    ∧ kept = List.filter (λ n, negb (in_thumbs n)) (names_of files)
    ∧ (∀ name, In name kept
               ↔ In name (names_of files) ∧ ¬ has_thumbs_component name)
    ∧ (names_of files = ["a/b.jpg"; "a/b.thumbs/c.jpg"; "x.thumbs"] →
       kept = ["a/b.jpg"]).
Proof.
  intros Hnet files.
  exists (List.filter (λ n, negb (in_thumbs n)) (names_of files)).
  split; [|split; [done |split]].
  - unfold list_repository_files, try_except, bind.
    rewrite requests_request_spec, Hnet. simpl. fold files.
    rewrite foldl_collect_name. simpl.
    destruct (List.filter _ (names_of files)) as [|n ns] eqn:Hf; [done |].
    unfold bind, print, emit. by rewrite print_file_lines_run.
  - intros name. rewrite filter_In, negb_true_iff, <- in_thumbs_iff.
    destruct (in_thumbs name); intuition congruence.
  - intros ->. reflexivity.
Qed.

Lemma list_repository_files_filter_witness :
  fst (list_repository_files
         (Environment credentials no_files empty_tree (scripted [listing_doc] ok))
         "item" [])
    = Ret ["a/b.jpg"].
Proof.
  destruct (list_repository_files_filter
              (Environment credentials no_files empty_tree
                 (scripted [listing_doc] ok))
              "item" []
              (Some [named "a/b.jpg"; named "a/b.thumbs/c.jpg";
                     named "x.thumbs"])
              eq_refl) as (kept & Hrun & _ & _ & Hkept).
  rewrite Hrun. f_equal. apply Hkept. reflexivity.
Defined.

(** ** Logs *)

Lemma exchanges_app (a b : list event) :
  exchanges (a ++ b) = exchanges a ++ exchanges b.
Proof. apply omap_app. Qed.

Lemma calls_app (a b : list event) : calls (a ++ b) = calls a ++ calls b.
Proof. apply omap_app. Qed.

Lemma printed_app (a b : list event) :
  printed (a ++ b) = printed a ++ printed b.
Proof. apply omap_app. Qed.

Lemma pauses_app (a b : list event) : pauses (a ++ b) = pauses a ++ pauses b.
Proof. apply omap_app. Qed.

Lemma sent_S (E : environment) (r : request) (n k : nat) :
  sent E r n (S k) = (r, net E n) :: sent E r (S n) k.
Proof.
  unfold sent. simpl. rewrite Nat.add_0_r. f_equal.
  rewrite <- seq_shift, map_map. apply map_ext. intros i.
  by rewrite Nat.add_succ_r.
Qed.

Lemma sleep_backoff_run (pol : Retry) (errors : nat) (log : list event) :
  ∃ added,
    sleep_backoff pol errors log = (Ret tt, log ++ added)
    ∧ exchanges added = [] ∧ calls added = [] ∧ printed added = []
    ∧ pauses added =
        (if get_backoff_time pol errors <=? 0 then []
         else [get_backoff_time pol errors]).
Proof.
  unfold sleep_backoff. destruct (get_backoff_time pol errors <=? 0).
  - exists []. unfold ret. by rewrite app_nil_r.
  - by exists [Sleep (get_backoff_time pol errors)].
Qed.

(** ** The retry loop *)

Lemma urlopen_unfold (E : environment) (pol : Retry) (left errors : nat)
    (r : request) (log : list event) :
  urlopen E pol left errors r log =
    let o := net E (length (exchanges log)) in
    let log1 := log ++ [Wire r o] in
    if retriable pol r o then
      match left with
      | O => (Raise (exhausted_exn pol o), log1)
      | S left' =>
          urlopen E pol left' (S errors) r
            (snd (sleep_backoff pol (S errors) log1))
      end
    else (outcome_result o, log1).
Proof.
  destruct left; simpl; unfold bind, exchange;
    destruct (net E (length (exchanges log))) as [s p|e]; simpl;
    try destruct (is_retry pol (req_method r) s); try done;
    destruct (sleep_backoff_run pol (S errors) (log ++ [Wire r (Response s p)]))
      as (a1 & -> & _) ||
    destruct (sleep_backoff_run pol (S errors) (log ++ [Wire r (Broken e)]))
      as (a1 & -> & _); done.
Qed.

(** [k] retriable outcomes followed by one that is not, with at least
    [k] retries left: the request is sent [k + 1] times and the last
    outcome is handed back. *)
Lemma urlopen_retries (E : environment) (pol : Retry) (r : request) (k : nat) :
  ∀ (left errors : nat) (log : list event),
    (k ≤ left)%nat →
    (∀ i, (i < k)%nat →
       retriable pol r (net E (length (exchanges log) + i)%nat) = true) →
    retriable pol r (net E (length (exchanges log) + k)%nat) = false →
    ∃ added,
      urlopen E pol left errors r log
        = (outcome_result (net E (length (exchanges log) + k)%nat),
           log ++ added)
      ∧ exchanges added = sent E r (length (exchanges log)) (S k)
      ∧ pauses added = pause_list pol errors k
      ∧ calls added = [] ∧ printed added = [].
Proof.
  induction k as [|k IH]; intros left errors log Hle Hretry Hlast.
  - rewrite Nat.add_0_r in Hlast |- *. rewrite urlopen_unfold. cbv zeta.
    rewrite Hlast. eexists. split; [done |].
    rewrite sent_S. by unfold sent.
  - destruct left as [|left]; [lia |].
    rewrite urlopen_unfold. cbv zeta.
    pose proof (Hretry O ltac:(lia)) as H0. rewrite Nat.add_0_r in H0.
    rewrite H0.
    destruct (sleep_backoff_run pol (S errors)
                (log ++ [Wire r (net E (length (exchanges log)))]))
      as (a1 & Hs & Hx & Hc & Hp & Hz).
    rewrite Hs. cbn [snd].
    assert (Hlen : length (exchanges ((log ++ [Wire r (net E (length (exchanges log)))]) ++ a1))
                   = S (length (exchanges log))).
    { rewrite !exchanges_app, Hx, app_nil_r, length_app. simpl. lia. }
    destruct (IH left (S errors)
                ((log ++ [Wire r (net E (length (exchanges log)))]) ++ a1))
      as (a2 & Hrun & Hx2 & Hz2 & Hc2 & Hp2).
    + lia.
    + intros i Hi. rewrite Hlen.
      replace (S (length (exchanges log)) + i)%nat
        with (length (exchanges log) + S i)%nat by lia.
      apply Hretry. lia.
    + rewrite Hlen.
      by replace (S (length (exchanges log)) + k)%nat
        with (length (exchanges log) + S k)%nat by lia.
    + rewrite Hlen in Hrun, Hx2.
      replace (S (length (exchanges log)) + k)%nat
        with (length (exchanges log) + S k)%nat in Hrun by lia.
      exists ([Wire r (net E (length (exchanges log)))] ++ a1 ++ a2).
      rewrite Hrun. split; [by rewrite <- !app_assoc |].
      rewrite !exchanges_app, !pauses_app, !calls_app, !printed_app.
      rewrite Hx, Hx2, Hz, Hz2, Hc, Hc2, Hp, Hp2.
      split; [by rewrite (sent_S E r (length (exchanges log)) (S k)) |].
      done.
Qed.

(** Retriable outcomes throughout: after [left + 1] exchanges the
    policy is exhausted and the call raises. *)
Lemma urlopen_exhausted (E : environment) (pol : Retry) (r : request) :
  ∀ (left errors : nat) (log : list event),
    (∀ i, (i ≤ left)%nat →
       retriable pol r (net E (length (exchanges log) + i)%nat) = true) →
    ∃ added,
      urlopen E pol left errors r log
        = (Raise (exhausted_exn pol (net E (length (exchanges log) + left)%nat)),
           log ++ added)
      ∧ exchanges added = sent E r (length (exchanges log)) (S left)
      ∧ pauses added = pause_list pol errors left
      ∧ calls added = [] ∧ printed added = [].
Proof.
  induction left as [|left IH]; intros errors log Hretry.
  - rewrite urlopen_unfold. cbv zeta.
    pose proof (Hretry O ltac:(lia)) as H0. rewrite Nat.add_0_r in H0 |- *.
    rewrite H0. eexists. split; [done |].
    rewrite sent_S. by unfold sent.
  - rewrite urlopen_unfold. cbv zeta.
    pose proof (Hretry O ltac:(lia)) as H0. rewrite Nat.add_0_r in H0.
    rewrite H0.
    destruct (sleep_backoff_run pol (S errors)
                (log ++ [Wire r (net E (length (exchanges log)))]))
      as (a1 & Hs & Hx & Hc & Hp & Hz).
    rewrite Hs. cbn [snd].
    assert (Hlen : length (exchanges ((log ++ [Wire r (net E (length (exchanges log)))]) ++ a1))
                   = S (length (exchanges log))).
    { rewrite !exchanges_app, Hx, app_nil_r, length_app. simpl. lia. }
    destruct (IH (S errors)
                ((log ++ [Wire r (net E (length (exchanges log)))]) ++ a1))
      as (a2 & Hrun & Hx2 & Hz2 & Hc2 & Hp2).
    + intros i Hi. rewrite Hlen.
      replace (S (length (exchanges log)) + i)%nat
        with (length (exchanges log) + S i)%nat by lia.
      apply Hretry. lia.
    + rewrite Hlen in Hrun, Hx2.
      replace (S (length (exchanges log)) + left)%nat
        with (length (exchanges log) + S left)%nat in Hrun by lia.
      exists ([Wire r (net E (length (exchanges log)))] ++ a1 ++ a2).
      rewrite Hrun. split; [by rewrite <- !app_assoc |].
      rewrite !exchanges_app, !pauses_app, !calls_app, !printed_app.
      rewrite Hx, Hx2, Hz, Hz2, Hc, Hc2, Hp, Hp2.
      split; [by rewrite (sent_S E r (length (exchanges log)) (S left)) |].
      done.
Qed.

(** Whatever the network does, [urlopen] sends the request at least
    once and at most once more than it has retries. *)
Lemma urlopen_shape (E : environment) (pol : Retry) (r : request) :
  ∀ (left errors : nat) (log : list event),
    ∃ k added,
      (k ≤ left)%nat
      ∧ snd (urlopen E pol left errors r log) = log ++ added
      ∧ exchanges added = sent E r (length (exchanges log)) (S k)
      ∧ pauses added = pause_list pol errors k
      ∧ calls added = [] ∧ printed added = [].
Proof.
  induction left as [|left IH]; intros errors log.
  - exists O. rewrite urlopen_unfold. cbv zeta.
    destruct (retriable pol r (net E (length (exchanges log))));
      (eexists; split; [lia |]; split; [done |]);
      rewrite sent_S; by unfold sent.
  - rewrite urlopen_unfold. cbv zeta.
    destruct (retriable pol r (net E (length (exchanges log)))).
    + destruct (sleep_backoff_run pol (S errors)
                  (log ++ [Wire r (net E (length (exchanges log)))]))
        as (a1 & Hs & Hx & Hc & Hp & Hz).
      rewrite Hs. cbn [snd].
      destruct (IH (S errors)
                  ((log ++ [Wire r (net E (length (exchanges log)))]) ++ a1))
        as (k & a2 & Hk & Hrun & Hx2 & Hz2 & Hc2 & Hp2).
      assert (Hlen : length (exchanges ((log ++ [Wire r (net E (length (exchanges log)))]) ++ a1))
                     = S (length (exchanges log))).
      { rewrite !exchanges_app, Hx, app_nil_r, length_app. simpl. lia. }
      rewrite Hlen in Hx2.
      exists (S k), ([Wire r (net E (length (exchanges log)))] ++ a1 ++ a2).
      split; [lia |]. rewrite Hrun. split; [by rewrite <- !app_assoc |].
      rewrite !exchanges_app, !pauses_app, !calls_app, !printed_app.
      rewrite Hx, Hx2, Hz, Hz2, Hc, Hc2, Hp, Hp2.
      split; [by rewrite (sent_S E r (length (exchanges log)) (S k)) |].
      done.
    + exists O. eexists. split; [lia |]. split; [done |].
      rewrite sent_S. by unfold sent.
Qed.

Lemma sent_requests (E : environment) (r : request) (n k : nat) :
  Forall (λ x, x.1 = r) (sent E r n k).
Proof. unfold sent. apply Forall_map. by apply Forall_true. Qed.

(** One call of [session.put]: between one and six exchanges of the
    same request, then the return of the call. *)
Lemma session_put_shape (E : environment) (url : string)
    (headers : gmap string string) (data : body) (timeout : option (Z * Z))
    (log : list event) :
  let r := Request PUT url headers data timeout in
  ∃ k res added,
    (k ≤ 5)%nat
    ∧ session_put E url headers data timeout log = (res, log ++ added)
    ∧ exchanges added = sent E r (length (exchanges log)) (S k)
    ∧ pauses added = pause_list retry_strategy 0 k
    ∧ calls added = [(r, res)] ∧ printed added = [].
Proof.
  intros r. unfold session_put, api_call. fold r.
  destruct (urlopen_shape E retry_strategy r (total retry_strategy) 0 log)
    as (k & a & Hk & Hrun & Hx & Hz & Hc & Hp).
  destruct (urlopen E retry_strategy (total retry_strategy) 0 r log)
    as [res log'] eqn:Hu.
  cbn [snd] in Hrun. subst log'.
  exists k, res, (a ++ [Call r res]). split; [done |].
  split; [by rewrite <- app_assoc |].
  rewrite exchanges_app, pauses_app, calls_app, printed_app.
  rewrite Hx, Hz, Hc, Hp. by rewrite !app_nil_r.
Qed.

(** ** Reading the file in chunks *)

Lemma read_take_drop (size : Z) (f : list Byte.byte) :
  0 ≤ size → read size f = (take (Z.to_nat size) f, drop (Z.to_nat size) f).
Proof.
  revert size; induction f as [|b f IH]; intros size Hsize.
  - simpl. by rewrite take_nil, drop_nil.
  - cbn [read]. destruct (Z.leb_spec size 0).
    + by replace size with 0 by lia.
    + rewrite IH by lia.
      by replace (Z.to_nat size) with (S (Z.to_nat (size - 1))) by lia.
Qed.

Lemma chunked_exists (n : nat) (data : list Byte.byte) :
  (0 < n)%nat → ∃ cs, chunked n data cs.
Proof.
  intros Hn. remember (length data) as m eqn:Hm. revert data Hm.
  induction m as [m IH] using lt_wf_ind. intros data ->.
  destruct data as [|b data]; [exists []; constructor |].
  destruct (IH (length (drop n (b :: data)))) with (data := drop n (b :: data))
    as [cs Hcs]; [rewrite length_drop; simpl; lia | done |].
  exists (take n (b :: data) :: cs). by constructor.
Qed.

Lemma chunked_concat (n : nat) (data : list Byte.byte)
    (cs : list (list Byte.byte)) :
  chunked n data cs → concat cs = data.
Proof.
  induction 1 as [|data cs Hne Hcs IH]; [done |].
  simpl. rewrite IH. apply take_drop.
Qed.

Lemma chunked_sizes (n : nat) (data : list Byte.byte)
    (cs : list (list Byte.byte)) :
  (0 < n)%nat → chunked n data cs →
  ∀ i c, cs !! i = Some c →
    c ≠ [] ∧ (length c ≤ n)%nat ∧ ((S i < length cs)%nat → length c = n).
Proof.
  intros Hn. induction 1 as [|data cs Hne Hcs IH]; intros i c Hi; [done |].
  destruct i as [|i]; simpl in Hi.
  - injection Hi as <-. split; [|split].
    + destruct data; [done |]. by destruct n; [lia |].
    + rewrite length_take. lia.
    + simpl. intros Hlen. rewrite length_take.
      destruct cs as [|c' cs']; [simpl in Hlen; lia |].
      inversion Hcs as [|? ? Hne' _ Heq]; subst.
      assert (n < length data)%nat; [|lia].
      destruct (decide (n < length data)%nat) as [|Hge]; [done |].
      rewrite drop_ge in Hne' by lia. done.
  - destruct (IH i c Hi) as (? & ? & Hfull). split; [done |]. split; [done |].
    simpl. intros Hlen. apply Hfull. lia.
Qed.

(** ** The chunk loop *)

Lemma upload_run_length cs rs res :
  upload_run cs rs res → (length rs ≤ length cs)%nat.
Proof. induction 1; simpl; lia. Qed.

Lemma upload_run_prefix cs rs res :
  upload_run cs rs res →
  ∀ i r, rs !! i = Some r → (S i < length rs)%nat → is_200 r.
Proof.
  induction 1 as [|c cs p rs b Hrun IH|c cs s p Hs|c cs e];
    intros i r Hi Hlen.
  - done.
  - destruct i as [|i]; simpl in *.
    + injection Hi as <-. by exists p.
    + apply (IH i r Hi). lia.
  - simpl in Hlen. lia.
  - simpl in Hlen. lia.
Qed.

Lemma upload_run_short cs rs res :
  upload_run cs rs res → (length rs < length cs)%nat →
  ∃ r, last rs = Some r ∧ ¬ is_200 r.
Proof.
  induction 1 as [|c cs p rs b Hrun IH|c cs s p Hs|c cs e]; simpl; intros Hlen.
  - lia.
  - destruct IH as (r & Hlast & Hr); [lia |]. exists r. split; [|done].
    destruct rs; [done |]. done.
  - exists (Ret (s, p)). split; [done |]. intros [q Hq]. congruence.
  - exists (Raise e). split; [done |]. intros [q Hq]. congruence.
Qed.

Lemma upload_run_true cs rs res :
  upload_run cs rs res →
  res = Ret true ↔ (length rs = length cs ∧ Forall is_200 rs).
Proof.
  induction 1 as [|c cs p rs b Hrun IH|c cs s p Hs|c cs e].
  - split; [done |]. done.
  - rewrite IH. simpl. split.
    + intros [Hl Hf]. split; [lia |]. constructor; [by exists p | done].
    + intros [Hl Hf]. split; [lia |]. by inversion Hf.
  - split; [done |]. intros [_ Hf]. inversion Hf as [|? ? [q Hq] _]. congruence.
  - split; [done |]. intros [_ Hf]. inversion Hf as [|? ? [q Hq] _]. congruence.
Qed.

Lemma upload_run_result cs rs res :
  upload_run cs rs res →
  match res with
  | Ret true => True
  | Ret false => ∃ s p, last rs = Some (Ret (s, p)) ∧ s ≠ 200
  | Raise e => last rs = Some (Raise e)
  end.
Proof.
  induction 1 as [|c cs p rs b Hrun IH|c cs s p Hs|c cs e]; simpl; eauto.
  destruct b as [[|]|e]; [done | |].
  - destruct IH as (s & q & Hl & Hs). exists s, q. split; [|done].
    destruct rs; [done |]. done.
  - destruct rs; [done |]. done.
Qed.

Lemma upload_loop_run (E : environment) (chunk_size : Z)
    (file_path upload_url : string) (headers : gmap string string) :
  0 < chunk_size →
  ∀ (fuel : nat) (f : list Byte.byte) (log : list event),
    (length f < fuel)%nat →
    ∃ cs rs res added,
      chunked (Z.to_nat chunk_size) f cs
      ∧ upload_run cs rs res
      ∧ upload_loop E chunk_size fuel file_path upload_url headers f log
          = (res, log ++ added)
      ∧ calls added
          = zip (map (λ c, Request PUT upload_url headers (Bytes c)
                             (Some (60, 600))) cs) rs
      ∧ Forall (λ x, ∃ c, c ∈ cs
                     ∧ x.1 = Request PUT upload_url headers (Bytes c)
                               (Some (60, 600)))
          (exchanges added).
Proof.
  intros Hsize. induction fuel as [|fuel IH]; intros f log Hfuel; [lia |].
  cbn [upload_loop]. rewrite read_take_drop by lia.
  destruct f as [|b f].
  { rewrite take_nil. exists [], [], (Ret true), [].
    split; [constructor |]. split; [constructor |].
    unfold ret. by rewrite app_nil_r. }
  set (n := Z.to_nat chunk_size) in *.
  assert (Hn : (0 < n)%nat) by (subst n; lia).
  destruct (take n (b :: f)) as [|b0 chunk0] eqn:Htake.
  { apply (f_equal length) in Htake. rewrite length_take in Htake.
    simpl in Htake. lia. }
  rewrite <- Htake.
  set (chunk := take n (b :: f)) in *.
  set (r := Request PUT upload_url headers (Bytes chunk) (Some (60, 600))).
  destruct (session_put_shape E upload_url headers (Bytes chunk)
              (Some (60, 600)) log)
    as (k & res1 & a1 & Hk & Hput & Hx1 & _ & Hc1 & _).
  fold r in Hx1, Hc1.
  assert (Hwire : Forall (λ x, ∃ c, c ∈ chunk :: drop n (b :: f) :: []
                               ∧ x.1 = Request PUT upload_url headers (Bytes c)
                                         (Some (60, 600)))
                    (exchanges a1)).
  { rewrite Hx1. eapply Forall_impl; [apply sent_requests |].
    intros x ->. exists chunk. split; [left | done]. }
  assert (Hwire' : ∀ cs', Forall (λ x, ∃ c, c ∈ chunk :: cs'
                               ∧ x.1 = Request PUT upload_url headers (Bytes c)
                                         (Some (60, 600)))
                    (exchanges a1)).
  { intros cs'. rewrite Hx1. eapply Forall_impl; [apply sent_requests |].
    intros x ->. exists chunk. split; [left | done]. }
  clear Hwire.
  unfold bind at 1. rewrite Hput.
  destruct res1 as [[s p]|e].
  - cbn [status_code fst]. destruct (Z.eqb_spec s 200) as [->|Hs]; cbn [negb].
    + unfold bind at 1, emit.
      destruct (IH (drop n (b :: f))
                  ((log ++ a1) ++ [Progress (Z.of_nat (length chunk))]))
        as (cs & rs & res & a2 & Hcs & Hrun & Hloop & Hc2 & Hx2).
      { rewrite length_drop. simpl in *. lia. }
      exists (chunk :: cs), (Ret (200, p) :: rs), res,
        (a1 ++ [Progress (Z.of_nat (length chunk))] ++ a2).
      split; [by constructor |]. split; [by constructor |].
      rewrite Hloop. split; [by rewrite <- !app_assoc |].
      rewrite !calls_app, !exchanges_app, Hc1, Hc2. split; [done |].
      simpl. apply Forall_app. split; [apply Hwire' |].
      eapply Forall_impl; [apply Hx2 |].
      intros x (c & Hc & Hxc). exists c. split; [by right | done].
    + destruct (chunked_exists n (drop n (b :: f)) Hn) as [cs Hcs].
      unfold bind, print, emit, ret.
      exists (chunk :: cs), [Ret (s, p)], (Ret false),
        (a1 ++ [Print (UploadError file_path s)]).
      split; [by constructor |]. split; [by constructor |].
      split; [by rewrite <- !app_assoc |].
      rewrite !calls_app, !exchanges_app, Hc1. simpl.
      split; [by destruct (map _ cs) |]. rewrite app_nil_r. apply Hwire'.
  - destruct (chunked_exists n (drop n (b :: f)) Hn) as [cs Hcs].
    exists (chunk :: cs), [Raise e], (Raise e), a1.
    split; [by constructor |]. split; [by constructor |].
    split; [done |]. rewrite Hc1. simpl.
    split; [by destruct (map _ cs) |]. apply Hwire'.
Qed.

Example upload_loop_three_chunks :
  calls (snd (upload_loop (laptop []) 2 6 "/tmp/data.bin" "u" ∅ five_bytes []))
    = [(Request PUT "u" ∅ (Bytes [Byte.x01; Byte.x02]) (Some (60, 600)),
        Ret (200, NoJson));
       (Request PUT "u" ∅ (Bytes [Byte.x03; Byte.x04]) (Some (60, 600)),
        Ret (200, NoJson));
       (Request PUT "u" ∅ (Bytes [Byte.x05]) (Some (60, 600)),
        Ret (200, NoJson))].
Proof. vm_compute. reflexivity. Qed.

Example upload_loop_stops_at_refusal :
  let run := upload_loop (laptop [ok; Response 403 NoJson]) 2 6
               "/tmp/data.bin" "u" ∅ five_bytes [] in
  fst run = Ret false
  ∧ map (λ x, req_body x.1) (calls (snd run))
      = [Bytes [Byte.x01; Byte.x02]; Bytes [Byte.x03; Byte.x04]].
Proof. vm_compute. done. Qed.

Example upload_small_file :
  let run := upload_file_with_progress (laptop []) "item" "/tmp/data.bin"
               "docs" [] in
  fst run = Ret true
  ∧ exchanges (snd run)
      = [(chunk_put (laptop []) "item" "/tmp/data.bin" "docs" five_bytes, ok)]
  ∧ req_url (chunk_put (laptop []) "item" "/tmp/data.bin" "docs" five_bytes)
      = "https://s3.us.archive.org/item/docs/data.bin".
Proof. vm_compute. done. Qed.

(** ** C1: the chunked upload *)

Lemma keys_present (E : environment) (ak sk : string) :
  getenv E "S3_ACCESS_KEY" = Some ak → ak ≠ "" →
  getenv E "S3_SECRET_KEY" = Some sk → sk ≠ "" →
  keys_missing E = false
  ∧ auth_headers E !! "x-amz-auto-make-bucket" = Some "1"
  ∧ auth_headers E !! "Authorization" = Some ("AWS " +:+ ak +:+ ":" +:+ sk).
Proof.
  intros Ha Hane Hs Hsne. unfold keys_missing, auth_headers, access_key, secret_key.
  rewrite Ha, Hs. split; [by destruct ak, sk |].
  split; [by rewrite lookup_insert_ne, lookup_singleton_eq |].
  by rewrite lookup_insert_eq.
Qed.

(** C1. With both credentials set and a readable file,
    [upload_file_with_progress] cuts the file into successive chunks of
    2 * 1024 * 1024 bytes (the last one shorter when the size is not a
    multiple) and calls [session.put] once per chunk, in order, on the
    one URL [https://s3.us.archive.org/{identifier}/{directory}/{basename}]
    with the chunk as body and the [x-amz-auto-make-bucket] and
    [Authorization] headers; nothing else goes on the wire.  Every call
    before the last one made returned 200, chunks are left unsent only
    when the last call made did not return 200, and the function
    returns [True] exactly when every chunk was sent and returned
    200. *)
Theorem upload_file_with_progress_chunks (E : environment)
    (identifier file_path directory ak sk : string) (f : file)
    (log : list event) :
  getenv E "S3_ACCESS_KEY" = Some ak → ak ≠ "" →
  getenv E "S3_SECRET_KEY" = Some sk → sk ≠ "" →
  fs_file E file_path = Some f → readable f = true →
  ∃ (cs : list (list Byte.byte)) (rs : list (result response)) (b : bool)
    (added : list event),
    concat cs = content f
    ∧ (∀ i c, cs !! i = Some c →
         c ≠ [] ∧ Z.of_nat (length c) ≤ 2 * 1024 * 1024
         ∧ ((S i < length cs)%nat → Z.of_nat (length c) = 2 * 1024 * 1024))
    ∧ upload_file_with_progress E identifier file_path directory log
        = (Ret b, log ++ added)
    ∧ calls added
        = zip (map (chunk_put E identifier file_path directory) cs) rs
    ∧ Forall (λ x, ∃ c, c ∈ cs
                   ∧ x.1 = chunk_put E identifier file_path directory c)
        (exchanges added)
    ∧ (length rs ≤ length cs)%nat
    ∧ (∀ i r, rs !! i = Some r → (S i < length rs)%nat → is_200 r)
    ∧ ((length rs < length cs)%nat → ∃ r, last rs = Some r ∧ ¬ is_200 r)
    ∧ (b = true ↔ length rs = length cs ∧ Forall is_200 rs)
    ∧ (∀ c, req_url (chunk_put E identifier file_path directory c)
            = "https://s3.us.archive.org/" +:+ identifier +:+ "/"
                +:+ directory +:+ "/" +:+ Str.basename file_path
          ∧ req_method (chunk_put E identifier file_path directory c) = PUT
          ∧ req_body (chunk_put E identifier file_path directory c) = Bytes c
          ∧ req_headers (chunk_put E identifier file_path directory c)
              !! "x-amz-auto-make-bucket" = Some "1"
          ∧ req_headers (chunk_put E identifier file_path directory c)
              !! "Authorization" = Some ("AWS " +:+ ak +:+ ":" +:+ sk)).
Proof.
  intros Ha Hane Hs Hsne Hfile Hread.
  destruct (keys_present E ak sk Ha Hane Hs Hsne) as (Hkeys & Hh1 & Hh2).
  assert (Hsize : 0 < CHUNK_SIZE) by reflexivity.
  destruct (upload_loop_run E CHUNK_SIZE file_path
              (upload_url_of identifier file_path directory) (auth_headers E)
              Hsize (S (length (content f))) (content f) log ltac:(lia))
    as (cs & rs & res & added & Hcs & Hrun & Hloop & Hcalls & Hwire).
  assert (Hn : (0 < Z.to_nat CHUNK_SIZE)%nat) by lia.
  pose proof (upload_run_result cs rs res Hrun) as Hres.
  pose proof (upload_run_true cs rs res Hrun) as Htrue.
  assert (Hcommon :
    concat cs = content f
    ∧ (∀ i c, cs !! i = Some c →
         c ≠ [] ∧ Z.of_nat (length c) ≤ 2 * 1024 * 1024
         ∧ ((S i < length cs)%nat → Z.of_nat (length c) = 2 * 1024 * 1024))).
  { split; [by eapply chunked_concat |]. intros i c Hi.
    destruct (chunked_sizes _ _ _ Hn Hcs i c Hi) as (Hne & Hle & Hfull).
    change (2 * 1024 * 1024) with CHUNK_SIZE.
    split; [done |]. split; [lia |]. intros Hlt. specialize (Hfull Hlt). lia. }
  destruct Hcommon as [Hconcat Hsizes].
  assert (Hrun_eq :
    ∃ b tail, upload_file_with_progress E identifier file_path directory log
                = (Ret b, log ++ added ++ tail)
              ∧ exchanges tail = [] ∧ calls tail = []
              ∧ (b = true ↔ res = Ret true)).
  { unfold upload_file_with_progress. rewrite Hkeys.
    unfold bind at 1, os_path_getsize. rewrite Hfile. unfold ret at 1.
    unfold try_except, bind at 1, open_rb. rewrite Hfile, Hread.
    unfold ret at 1. unfold bind at 1. rewrite Hloop.
    destruct res as [[|]|e].
    - exists true, [Print (UploadOK file_path)].
      unfold bind, print, emit, ret. by rewrite <- app_assoc.
    - exists false, []. unfold ret. by rewrite app_nil_r.
    - destruct e; simpl; unfold bind, print, emit, ret;
        eexists false, [_]; by rewrite <- app_assoc. }
  destruct Hrun_eq as (b & tail & Heq & Hxt & Hct & Hb).
  exists cs, rs, b, (added ++ tail).
  split; [done |]. split; [done |]. split; [done |].
  rewrite calls_app, exchanges_app, Hxt, Hct, !app_nil_r.
  split; [done |]. split; [done |].
  split; [by eapply upload_run_length |].
  split; [by eapply upload_run_prefix |].
  split; [by eapply upload_run_short |].
  split; [by rewrite Hb |].
  intros c. by repeat split.
Qed.

Lemma upload_file_with_progress_chunks_witness :
  ∃ (cs : list (list Byte.byte)) (rs : list (result response)) (b : bool),
    concat cs = five_bytes ∧ (b = true ↔ length rs = length cs ∧ Forall is_200 rs).
Proof.
  destruct (upload_file_with_progress_chunks (laptop []) "item"
              "/tmp/data.bin" "docs" "AK" "SK" (File true five_bytes) []
              eq_refl ltac:(discriminate) eq_refl ltac:(discriminate)
              eq_refl eq_refl)
    as (cs & rs & b & added & Hconcat & _ & _ & _ & _ & _ & _ & _ & Hb & _).
  exists cs, rs, b. split; [exact Hconcat | exact Hb].
Defined.

(** ** C2: the retry policy of the session *)

Lemma is_retry_session (m : method) (s : Z) :
  is_retry retry_strategy m s = true ↔ m = PUT ∧ forced s.
Proof.
  unfold is_retry, is_method_retryable, retry_strategy, forced.
  cbn [allowed_methods status_forcelist existsb].
  rewrite andb_true_iff, !orb_true_iff, !Z.eqb_eq.
  unfold method_eqb. rewrite bool_decide_eq_true. intuition discriminate.
Qed.

Lemma pause_list_session (k : nat) :
  (k ≤ 5)%nat → pause_list retry_strategy 0 k = take (k - 1) [4; 8; 16; 32].
Proof.
  intros Hk. do 6 (destruct k as [|k]; [vm_compute; reflexivity |]). lia.
Qed.

Example session_put_fifth_attempt :
  let run := session_put
               (laptop [unavailable; unavailable; unavailable; unavailable])
               "u" ∅ NoBody None [] in
  fst run = Ret (200, NoJson)
  ∧ length (exchanges (snd run)) = 5%nat
  ∧ pauses (snd run) = [4; 8; 16].
Proof. vm_compute. done. Qed.

Example session_put_exhausted :
  let run := session_put
               (Environment credentials no_files empty_tree
                  (scripted [] unavailable))
               "u" ∅ NoBody None [] in
  fst run = Raise RetryError
  ∧ length (exchanges (snd run)) = 6%nat
  ∧ pauses (snd run) = [4; 8; 16; 32].
Proof. vm_compute. done. Qed.

(** The claim of five attempts in all fails: after five answers 503 the
    request is sent a sixth time, and a 200 then makes the upload a
    success. *)
Lemma sixth_attempt_succeeds :
  let E := laptop [unavailable; unavailable; unavailable; unavailable;
                   unavailable] in
  let run := upload_file_with_progress E "item" "/tmp/data.bin" "docs" [] in
  (∀ n, (n < 5)%nat → net E n = Response 503 NoJson)
  ∧ fst run = Ret true
  ∧ length (exchanges (snd run)) = 6%nat
  ∧ length (calls (snd run)) = 1%nat.
Proof.
  split.
  - intros n Hn. do 5 (destruct n as [|n]; [reflexivity |]). lia.
  - vm_compute. done.
Qed.

(** C2, amended. A call of [session.put] sends its request at least
    once and at most six times: the first attempt and up to five
    retries, one after each answer 500, 502, 503 or 504 (or broken
    exchange), with no pause before the first retry and 4, 8, 16 and 32
    seconds before the following ones.  When the first [k ≤ 5] answers
    are of that list and the next is 200 the call returns that
    response after [k + 1] exchanges; when six answers in a row are of
    that list the call raises.  The policy retries no method but PUT,
    and a request made through a plain [requests] function is sent
    exactly once. *)
Theorem session_retry_policy (E : environment) (url : string)
    (headers : gmap string string) (data : body) (timeout : option (Z * Z))
    (log : list event) :
  let n := length (exchanges log) in
  let r := Request PUT url headers data timeout in
  let run := session_put E url headers data timeout log in
  (∃ k added,
     (k ≤ 5)%nat ∧ snd run = log ++ added
     ∧ exchanges added = sent E r n (S k)
     ∧ pauses added = take (k - 1) [4; 8; 16; 32]
     ∧ calls added = [(r, fst run)])
  ∧ (∀ k p,
       (k ≤ 5)%nat →
       (∀ i, (i < k)%nat → ∃ s q, net E (n + i)%nat = Response s q ∧ forced s) →
       net E (n + k)%nat = Response 200 p →
       fst run = Ret (200, p)
       ∧ exchanges (snd run) = exchanges log ++ sent E r n (S k))
  ∧ ((∀ i, (i ≤ 5)%nat → ∃ s q, net E (n + i)%nat = Response s q ∧ forced s) →
     fst run = Raise RetryError
     ∧ exchanges (snd run) = exchanges log ++ sent E r n 6)
  ∧ (∀ m s, is_retry retry_strategy m s = true ↔ m = PUT ∧ forced s)
  ∧ (∀ r', exchanges (snd (requests_request E r' log))
           = exchanges log ++ [(r', net E n)]).
Proof.
  intros n r run. subst n. split; [|split; [|split; [|split]]].
  - destruct (session_put_shape E url headers data timeout log)
      as (k & res & added & Hk & Hrun & Hx & Hz & Hc & _).
    exists k, added. subst run. rewrite Hrun. simpl.
    rewrite <- pause_list_session by done. done.
  - intros k p Hk Hfail Hok. subst run. unfold session_put, api_call.
    destruct (urlopen_retries E retry_strategy r k (total retry_strategy) 0 log)
      as (added & Hrun & Hx & _).
    + simpl. lia.
    + intros i Hi. destruct (Hfail i Hi) as (s & q & Hnet & Hs).
      rewrite Hnet. simpl. by apply is_retry_session.
    + rewrite Hok. reflexivity.
    + fold r. rewrite Hrun, Hok. simpl. split; [done |].
      by rewrite !exchanges_app, Hx, app_nil_r.
  - intros Hfail. subst run. unfold session_put, api_call.
    destruct (urlopen_exhausted E retry_strategy r (total retry_strategy) 0 log)
      as (added & Hrun & Hx & _).
    + intros i Hi. destruct (Hfail i Hi) as (s & q & Hnet & Hs).
      rewrite Hnet. simpl. by apply is_retry_session.
    + fold r. rewrite Hrun.
      destruct (Hfail 5%nat ltac:(lia)) as (s & q & Hlast & _).
      change (total retry_strategy) with 5%nat. rewrite Hlast. simpl.
      split; [done |]. by rewrite !exchanges_app, Hx, app_nil_r.
  - apply is_retry_session.
  - intros r'. rewrite requests_request_spec. simpl.
    by rewrite exchanges_app.
Qed.

Lemma session_retry_policy_witness :
  let E := laptop [unavailable; unavailable; unavailable; unavailable] in
  fst (session_put E "u" ∅ NoBody None []) = Ret (200, NoJson)
  ∧ length (exchanges (snd (session_put E "u" ∅ NoBody None []))) = 5%nat.
Proof.
  intros E.
  destruct (session_retry_policy E "u" ∅ NoBody None []) as (_ & Hok & _).
  destruct (Hok 4%nat NoJson) as [Hres Hx].
  - lia.
  - intros i Hi. exists 503, NoJson. split; [|unfold forced; auto].
    do 4 (destruct i as [|i]; [reflexivity |]). lia.
  - reflexivity.
  - split; [exact Hres |]. rewrite Hx. reflexivity.
Defined.

(** ** What a computation puts on the wire *)

Lemma issues_ret {A} (P : request → Prop) (a : A) : issues P (ret a).
Proof. intros log. exists []. by rewrite app_nil_r. Qed.

Lemma issues_raise {A} (P : request → Prop) (e : exn) : issues P (@raise A e).
Proof. intros log. exists []. by rewrite app_nil_r. Qed.

Lemma issues_print (P : request → Prop) (m : msg) : issues P (print m).
Proof. intros log. by exists [Print m]. Qed.

Lemma issues_progress (P : request → Prop) (n : Z) : issues P (emit (Progress n)).
Proof. intros log. by exists [Progress n]. Qed.

Lemma issues_bind {A B} (P : request → Prop) (m : M A) (k : A → M B) :
  issues P m → (∀ a, issues P (k a)) → issues P (bind m k).
Proof.
  intros Hm Hk log. unfold bind.
  destruct (Hm log) as (a1 & H1 & Hx1).
  destruct (m log) as [[a|e] log1]; simpl in H1; subst log1.
  - destruct (Hk a (log ++ a1)) as (a2 & H2 & Hx2).
    exists (a1 ++ a2). rewrite H2, app_assoc. split; [done |].
    rewrite exchanges_app. by apply Forall_app.
  - by exists a1.
Qed.

Lemma issues_try {A} (P : request → Prop) (m : M A) (h : exn → M A) :
  issues P m → (∀ e, issues P (h e)) → issues P (try_except m h).
Proof.
  intros Hm Hh log. unfold try_except.
  destruct (Hm log) as (a1 & H1 & Hx1).
  destruct (m log) as [[a|e] log1]; simpl in H1; subst log1.
  - by exists a1.
  - destruct (Hh e (log ++ a1)) as (a2 & H2 & Hx2).
    exists (a1 ++ a2). rewrite H2, app_assoc. split; [done |].
    rewrite exchanges_app. by apply Forall_app.
Qed.

Lemma issues_requests (E : environment) (P : request → Prop) (r : request) :
  P r → issues P (requests_request E r).
Proof.
  intros Hr log. rewrite requests_request_spec. simpl.
  eexists. split; [done |]. simpl. by constructor.
Qed.

Lemma issues_session_put (E : environment) (P : request → Prop) (url : string)
    (headers : gmap string string) (data : body) (timeout : option (Z * Z)) :
  P (Request PUT url headers data timeout) →
  issues P (session_put E url headers data timeout).
Proof.
  intros Hr log.
  destruct (session_put_shape E url headers data timeout log)
    as (k & res & added & _ & Hrun & Hx & _).
  exists added. rewrite Hrun. split; [done |]. rewrite Hx.
  eapply Forall_impl; [apply sent_requests |]. by intros x ->.
Qed.

Ltac issues_step :=
  first
    [ apply issues_ret | apply issues_raise | apply issues_print
    | apply issues_progress
    | apply issues_requests; simpl; done
    | apply issues_session_put; simpl; done
    | apply issues_bind; [| intros ?]
    | apply issues_try; [| intros ?]
    | match goal with
      | |- issues _ (if ?b then _ else _) => destruct b
      | |- issues _ (match ?x with _ => _ end) => destruct x
      end ].

Lemma upload_loop_issues (E : environment) (chunk_size : Z)
    (file_path upload_url : string) (headers : gmap string string)
    (fuel : nat) (f : list Byte.byte) :
  issues (λ r, req_timeout r = Some (60, 600))
    (upload_loop E chunk_size fuel file_path upload_url headers f).
Proof.
  revert f; induction fuel as [|fuel IH]; intros f; cbn [upload_loop].
  - apply issues_ret.
  - destruct (read chunk_size f) as [[|b chunk] f']; repeat issues_step.
    apply IH.
Qed.

Lemma upload_file_with_progress_issues (E : environment)
    (identifier file_path directory : string) :
  issues (λ r, req_timeout r = Some (60, 600))
    (upload_file_with_progress E identifier file_path directory).
Proof.
  unfold upload_file_with_progress, os_path_getsize, open_rb, upload_handlers.
  repeat issues_step. apply upload_loop_issues.
Qed.

Lemma delete_file_issues (E : environment) (identifier file_path : string) :
  issues (λ r, req_timeout r = None) (delete_file E identifier file_path).
Proof. unfold delete_file. repeat issues_step. Qed.

Lemma move_file_issues (E : environment)
    (identifier file_name source_dir target_dir : string) :
  issues (λ r, req_timeout r = None)
    (move_file E identifier file_name source_dir target_dir).
Proof.
  unfold move_file. repeat issues_step. apply delete_file_issues.
Qed.

Lemma list_repository_files_issues (E : environment) (identifier : string) :
  issues (λ r, req_timeout r = None) (list_repository_files E identifier).
Proof.
  unfold list_repository_files, response_json. repeat issues_step.
  all: intros log; rewrite print_file_lines_run; eexists; split; [done |].
  all: match goal with |- Forall _ (exchanges (numbered ?i ?l)) =>
         generalize i; induction l; intros; simpl; auto end.
Qed.

(** ** The folder walk *)

Lemma report_files_run (root : list string) (files : list (string * file))
    (log : list event) :
  report_files root files log
    = (Ret tt,
       log ++ map (λ nf : string * file,
                     Print (WouldUpload (relpath root nf.1))) files).
Proof.
  revert log; induction files as [|[name f] files IH]; intros log; simpl.
  - unfold ret. by rewrite app_nil_r.
  - unfold bind, print, emit. rewrite IH. by rewrite <- app_assoc.
Qed.

Lemma report_walk_run
    (items : list (list string * list string * list (string * file)))
    (log : list event) :
  report_walk items log
    = (Ret tt,
       log ++ map (λ p, Print (WouldUpload p))
                (flat_map (λ item : list string * list string
                                     * list (string * file),
                             map (λ nf : string * file,
                                    relpath item.1.1 nf.1) item.2) items)).
Proof.
  revert log; induction items as [|[[root dirs] files] items IH];
    intros log; simpl.
  - unfold ret. by rewrite app_nil_r.
  - unfold bind. rewrite report_files_run, IH.
    by rewrite map_app, map_map, <- app_assoc.
Qed.

Example would_upload_sample : would_upload sample_tree = ["a.txt"; "sub/b.txt"].
Proof. reflexivity. Qed.

Lemma elem_of_filenames (name : string) (f : file)
    (entries : list (string * node)) :
  (name, f) ∈ filenames entries ↔ (name, FileNode f) ∈ entries.
Proof.
  unfold filenames. rewrite list_elem_of_omap. split.
  - intros ([n [g|es]] & Hin & Heq); [|done]. by injection Heq as -> ->.
  - intros Hin. by exists (name, FileNode f).
Qed.

(** The walk reaches exactly the files under the top directory. *)
Lemma walk_files (top : node) :
  ∀ (root : list string) (p : string),
    In p (flat_map (λ item : list string * list string * list (string * file),
                      map (λ nf : string * file, relpath item.1.1 nf.1) item.2)
            (os_walk root top))
    ↔ ∃ comps, file_at comps top ∧ p = Str.join (root ++ comps).
Proof.
  induction top as [f|entries IH] using node_rect_entries; intros root p.
  - simpl. split; [done |].
    intros (comps & Hat & _). inversion Hat.
  - cbn [os_walk flat_map]. rewrite in_app_iff. cbn [fst snd].
    rewrite in_map_iff.
    assert (Hsub :
              In p (flat_map (λ item : list string * list string
                                        * list (string * file),
                                map (λ nf : string * file,
                                       relpath item.1.1 nf.1) item.2)
                      (flat_map (λ e : string * node,
                                   let (n, sub) := e in
                                   os_walk (root ++ [n]) sub)
                         entries))
              ↔ ∃ name sub comps, (name, sub) ∈ entries ∧ file_at comps sub
                    ∧ p = Str.join (root ++ name :: comps)).
    { induction IH as [|[name sub] es Hsubtree _ IHes].
      - simpl. split; [done |].
        by intros (? & ? & ? & ?%elem_of_nil & _).
      - cbn [flat_map]. rewrite flat_map_app, in_app_iff, IHes.
        cbn [snd] in Hsubtree. rewrite Hsubtree.
        split.
        + intros [(comps & Hat & ->)|(n & sb & comps & Hin & Hat & ->)].
          * exists name, sub, comps. split; [left |]. split; [done |].
            by rewrite <- app_assoc.
          * exists n, sb, comps. split; [by right | done].
        + intros (n & sb & comps & Hin & Hat & ->).
          apply elem_of_cons in Hin as [Heq|Hin].
          * injection Heq as -> ->. left. exists comps.
            split; [done |]. by rewrite <- app_assoc.
          * right. by exists n, sb, comps. }
    rewrite Hsub. split.
    + intros [([name f] & <- & Hin)|(name & sub & comps & Hin & Hat & ->)].
      * exists [name]. split; [|done].
        apply list_elem_of_In, elem_of_filenames in Hin. by econstructor.
      * exists (name :: comps). split; [|done]. by econstructor.
    + intros (comps & Hat & ->).
      inversion Hat as [name f es Hin|name sub cs es Hin Hsubat]; subst.
      * left. exists (name, f). split; [done |].
        by apply list_elem_of_In, elem_of_filenames.
      * right. by exists name, sub, cs.
Qed.

(** ** C8: Test mode *)

Example test_mode_sample :
  initialize_repository (desk credentials []) "folder" "item" sample_metadata
    Test []
    = (Ret tt,
       [Print TestBanner; Print (TestFolder "folder");
        Print (TestIdentifier "item"); Print (TestMetadata sample_metadata);
        Print TestFilesHeader; Print (WouldUpload "a.txt");
        Print (WouldUpload "sub/b.txt"); Print TestComplete]).
Proof. vm_compute. reflexivity. Qed.

(** Without credentials Test mode stops at the guard of lines 226-230:
    the files of the folder are not reported. *)
Lemma test_mode_without_credentials :
  let E := desk no_credentials [] in
  file_at ["a.txt"] (fs_tree E "folder")
  ∧ initialize_repository E "folder" "item" sample_metadata Test []
      = (Ret tt, [Print CredentialsMissing])
  ∧ ¬ In (WouldUpload "a.txt")
        (printed (snd (initialize_repository E "folder" "item"
                         sample_metadata Test []))).
Proof.
  split; [|split].
  - econstructor. left.
  - reflexivity.
  - vm_compute. intros [H|[]]. discriminate.
Qed.

(** C8, amended. In Test mode [initialize_repository] puts nothing on
    the wire and makes no call of [requests].  When both credentials
    are set it prints the banner lines, then one line per file under
    the folder (the files of each directory of the recursive walk, in
    walk order, each as its path relative to the folder), then the
    closing line, and returns; when a credential is missing it prints
    only the missing-credentials message.  For a folder holding [a.txt]
    and [sub/b.txt] the reported paths are [a.txt] and [sub/b.txt]. *)
Theorem test_mode_reports (E : environment) (folder_path identifier : string)
    (metadata : gmap string string) (log : list event) :
  let run := initialize_repository E folder_path identifier metadata Test log in
  let top := fs_tree E folder_path in
  (keys_missing E = false →
   run = (Ret tt,
          log ++ [Print TestBanner; Print (TestFolder folder_path);
                  Print (TestIdentifier identifier);
                  Print (TestMetadata metadata); Print TestFilesHeader]
              ++ map (λ p, Print (WouldUpload p)) (would_upload top)
              ++ [Print TestComplete]))
  ∧ (keys_missing E = true → run = (Ret tt, log ++ [Print CredentialsMissing]))
  ∧ exchanges (snd run) = exchanges log
  ∧ calls (snd run) = calls log
  ∧ (∀ p, In p (would_upload top)
          ↔ ∃ comps, file_at comps top ∧ p = Str.join comps)
  ∧ (∀ fa fb,
       top = DirNode [("a.txt", FileNode fa);
                      ("sub", DirNode [("b.txt", FileNode fb)])] →
       would_upload top = ["a.txt"; "sub/b.txt"]).
Proof.
  intros run top.
  assert (Hrun : run = if keys_missing E
                       then (Ret tt, log ++ [Print CredentialsMissing])
                       else (Ret tt,
          log ++ [Print TestBanner; Print (TestFolder folder_path);
                  Print (TestIdentifier identifier);
                  Print (TestMetadata metadata); Print TestFilesHeader]
              ++ map (λ p, Print (WouldUpload p)) (would_upload top)
              ++ [Print TestComplete])).
  { subst run. unfold initialize_repository.
    destruct (keys_missing E); [done |].
    unfold bind, print, emit. rewrite report_walk_run.
    by rewrite <- !app_assoc. }
  assert (Hquiet : ∀ l : list string,
            exchanges (map (λ p, Print (WouldUpload p)) l) = []
            ∧ calls (map (λ p, Print (WouldUpload p)) l) = []).
  { induction l as [|p l [IH1 IH2]]; [done |]. by simpl. }
  split; [|split; [|split; [|split; [|split]]]].
  - intros Hk. by rewrite Hrun, Hk.
  - intros Hk. by rewrite Hrun, Hk.
  - rewrite Hrun. destruct (keys_missing E); cbn [snd].
    + by rewrite exchanges_app, app_nil_r.
    + rewrite !exchanges_app. destruct (Hquiet (would_upload top)) as [-> _].
      by rewrite !app_nil_r.
  - rewrite Hrun. destruct (keys_missing E); cbn [snd].
    + by rewrite calls_app, app_nil_r.
    + rewrite !calls_app. destruct (Hquiet (would_upload top)) as [_ ->].
      by rewrite !app_nil_r.
  - intros p. unfold would_upload. by rewrite walk_files.
  - intros fa fb ->. reflexivity.
Qed.

Lemma test_mode_reports_witness :
  initialize_repository (desk credentials []) "folder" "item" sample_metadata
    Test []
    = (Ret tt,
       [Print TestBanner; Print (TestFolder "folder");
        Print (TestIdentifier "item"); Print (TestMetadata sample_metadata);
        Print TestFilesHeader]
         ++ map (λ p, Print (WouldUpload p)) ["a.txt"; "sub/b.txt"]
         ++ [Print TestComplete]).
Proof.
  destruct (test_mode_reports (desk credentials []) "folder" "item"
              sample_metadata []) as (Hrun & _ & _ & _ & _ & Hsample).
  rewrite (Hrun eq_refl).
  rewrite (Hsample (File true [Byte.x61]) (File true [Byte.x62]) eq_refl).
  reflexivity.
Defined.

(** ** Permanent mode *)

Lemma upload_one_issues (E : environment) (identifier : string)
    (root : list string) (file_name : string) (f : file) :
  issues (λ r, req_timeout r = None) (upload_one E identifier root file_name f).
Proof. unfold upload_one. repeat issues_step. Qed.

Lemma upload_files_issues (E : environment) (identifier : string)
    (root : list string) (files : list (string * file)) :
  issues (λ r, req_timeout r = None) (upload_files E identifier root files).
Proof.
  induction files as [|[name f] files IH]; simpl.
  - apply issues_ret.
  - apply issues_bind; [apply upload_one_issues |].
    intros [|]; [apply IH | apply issues_ret].
Qed.

Lemma upload_walk_issues (E : environment) (identifier : string)
    (items : list (list string * list string * list (string * file))) :
  issues (λ r, req_timeout r = None) (upload_walk E identifier items).
Proof.
  induction items as [|[[root dirs] files] items IH]; simpl.
  - apply issues_ret.
  - apply issues_bind; [apply upload_files_issues |].
    intros [|]; [apply IH | apply issues_ret].
Qed.

Lemma initialize_repository_issues (E : environment)
    (folder_path identifier : string) (metadata : gmap string string)
    (md : mode) :
  issues (λ r, req_timeout r = None)
    (initialize_repository E folder_path identifier metadata md).
Proof.
  unfold initialize_repository, post_metadata.
  destruct (keys_missing E); [apply issues_print |].
  destruct md.
  - repeat issues_step. intros log. rewrite report_walk_run.
    eexists. split; [done |].
    match goal with |- Forall _ (exchanges (map _ ?l)) =>
      induction l; simpl; auto end.
  - apply issues_bind; [apply upload_walk_issues |].
    intros [|]; repeat issues_step.
Qed.

Example permanent_mode_all_accepted :
  map (λ x, (req_method x.1, req_url x.1))
    (exchanges (snd (initialize_repository (desk credentials []) "folder"
                       "item" sample_metadata Permanent [])))
    = [(PUT, "https://s3.us.archive.org/item/a.txt");
       (PUT, "https://s3.us.archive.org/item/sub/b.txt");
       (POST, "https://archive.org/metadata/item/metadata")].
Proof. vm_compute. reflexivity. Qed.

Example permanent_mode_refused_upload :
  map (λ x, (req_method x.1, req_url x.1))
    (exchanges (snd (initialize_repository
                       (desk credentials [Response 500 NoJson]) "folder"
                       "item" sample_metadata Permanent [])))
    = [(PUT, "https://s3.us.archive.org/item/a.txt")].
Proof. vm_compute. reflexivity. Qed.

(** C3. An upload that fails by an exception does not abort the
    initialization: with the first PUT broken by a connection error the
    error is printed, the second file is uploaded all the same and the
    metadata is posted. *)
Theorem permanent_mode_continues_after_exception :
  let E := desk credentials [Broken ConnectionError] in
  let run := initialize_repository E "folder" "item" sample_metadata
               Permanent [] in
  map (λ x, (req_method x.1, req_url x.1, x.2)) (exchanges (snd run))
    = [(PUT, "https://s3.us.archive.org/item/a.txt", Broken ConnectionError);
       (PUT, "https://s3.us.archive.org/item/sub/b.txt", ok);
       (POST, "https://archive.org/metadata/item/metadata", ok)]
  ∧ printed (snd run)
    = [UploadingFile "a.txt"; InitException ConnectionError;
       UploadingFile "sub/b.txt"; InitUploaded "sub/b.txt";
       AddingMetadata; MetadataAdded].
Proof. vm_compute. done. Qed.

(** ** C5: timeouts *)

(** The DELETE of [delete_file] carries no timeout. *)
Lemma delete_request_without_timeout :
  ∃ x, In x (exchanges (snd (delete_file (laptop []) "item" "docs/a.txt" [])))
       ∧ req_method x.1 = DELETE
       ∧ req_timeout x.1 ≠ Some (60, 600).
Proof.
  eexists. split; [left; reflexivity |]. split; [reflexivity | discriminate].
Qed.

Lemma upload_each_issues (E : environment) (identifier directory : string)
    (file_paths : list string) (success : bool) :
  issues (λ r, req_timeout r = Some (60, 600))
    (upload_each E identifier directory file_paths success).
Proof.
  revert success; induction file_paths as [|p ps IH]; intros success; simpl.
  - apply issues_ret.
  - apply issues_bind; [apply upload_file_with_progress_issues |].
    intros ok. apply IH.
Qed.

Lemma main_upload_files_issues (E : environment) (identifier directory : string)
    (file_paths : list string) :
  issues (λ r, req_timeout r = Some (60, 600))
    (main_upload_files E identifier directory file_paths).
Proof.
  unfold main_upload_files. apply issues_bind.
  - induction file_paths as [|p ps IH]; simpl; repeat issues_step. apply IH.
  - intros [|]; [|apply issues_ret].
    apply issues_bind; [apply upload_each_issues |].
    intros [|]; apply issues_print.
Qed.

(** C5, amended. Only the chunk PUTs of [upload_file_with_progress]
    (and so of the multi-file upload of the menu) carry the timeout
    pair of 60 seconds to connect and 600 seconds to read; the requests
    of [list_repository_files], [delete_file], [move_file] and
    [initialize_repository] are made without a timeout. *)
Theorem timeouts_by_function (E : environment) :
  (∀ identifier file_path directory,
     issues (λ r, req_timeout r = Some (60, 600))
       (upload_file_with_progress E identifier file_path directory))
  ∧ (∀ identifier directory file_paths,
       issues (λ r, req_timeout r = Some (60, 600))
         (main_upload_files E identifier directory file_paths))
  ∧ (∀ identifier,
       issues (λ r, req_timeout r = None) (list_repository_files E identifier))
  ∧ (∀ identifier file_path,
       issues (λ r, req_timeout r = None) (delete_file E identifier file_path))
  ∧ (∀ identifier file_name source_dir target_dir,
       issues (λ r, req_timeout r = None)
         (move_file E identifier file_name source_dir target_dir))
  ∧ (∀ folder_path identifier metadata md,
       issues (λ r, req_timeout r = None)
         (initialize_repository E folder_path identifier metadata md)).
Proof.
  repeat split; intros.
  - apply upload_file_with_progress_issues.
  - apply main_upload_files_issues.
  - apply list_repository_files_issues.
  - apply delete_file_issues.
  - apply move_file_issues.
  - apply initialize_repository_issues.
Qed.

(** ** [delete_file] and [move_file], step by step *)

Lemma delete_file_run (E : environment) (identifier file_path : string)
    (log : list event) :
  keys_missing E = false →
  let o := net E (length (exchanges log)) in
  let r := delete_request E identifier file_path in
  delete_file E identifier file_path log
    = (Ret (delete_ok o),
       log ++ [Wire r o; Call r (outcome_result o);
               Print (delete_report file_path o)]).
Proof.
  intros Hk o r. unfold delete_file. rewrite Hk.
  unfold try_except, bind. rewrite requests_request_spec. fold o. fold r.
  unfold delete_report.
  destruct o as [s p|e]; simpl.
  - destruct ((s =? 200) || (s =? 204)); unfold bind, print, emit, ret;
      by rewrite <- app_assoc.
  - unfold bind, print, emit, ret. by rewrite <- app_assoc.
Qed.

Lemma exchanges_after_call (log : list event) (r : request) (o : outcome)
    (res : result response) (m : msg) :
  length (exchanges ((log ++ [Wire r o; Call r res]) ++ [Print m]))
    = S (length (exchanges log)).
Proof. rewrite !exchanges_app, !length_app. simpl. lia. Qed.

Lemma move_file_run (E : environment)
    (identifier file_name source_dir target_dir : string) (log : list event) :
  keys_missing E = false →
  let n := length (exchanges log) in
  let src := path_in source_dir file_name in
  let dst := path_in target_dir file_name in
  let copy := copy_request E identifier file_name source_dir target_dir in
  let del := delete_request E identifier src in
  move_file E identifier file_name source_dir target_dir log
    = if copy_ok (net E n) then
        (Ret (delete_ok (net E (S n))),
         log ++ [Wire copy (net E n); Call copy (outcome_result (net E n));
                 Print (Copied src dst);
                 Wire del (net E (S n));
                 Call del (outcome_result (net E (S n)));
                 Print (delete_report src (net E (S n)));
                 Print (if delete_ok (net E (S n)) then Moved src dst
                        else CopiedNotDeleted src)])
      else
        (Ret false,
         log ++ [Wire copy (net E n); Call copy (outcome_result (net E n));
                 Print (copy_report src dst (net E n))]).
Proof.
  intros Hk. cbv zeta. unfold move_file, copy_request. rewrite Hk.
  unfold try_except. unfold bind at 1. rewrite requests_request_spec.
  destruct (net E (length (exchanges log))) as [s p|e] eqn:Ho;
    cbn [outcome_result copy_ok copy_report status_code fst].
  - destruct ((s =? 200) || (s =? 201)); cbn [negb].
    + unfold bind at 1, print at 1, emit at 1. unfold bind at 1.
      rewrite delete_file_run by done. cbv zeta.
      rewrite exchanges_after_call.
      destruct (delete_ok (net E (S (length (exchanges log)))));
        unfold bind, print, emit, ret; by rewrite <- !app_assoc.
    + unfold bind, print, emit, ret. by rewrite <- !app_assoc.
  - unfold bind, print, emit, ret. by rewrite <- !app_assoc.
Qed.

Lemma store_after_app (st : gmap string (list Byte.byte)) (a b : list event) :
  store_after st (a ++ b) = store_replay (store_after st a) (exchanges b).
Proof.
  unfold store_after, store_replay. by rewrite exchanges_app, foldl_app.
Qed.

Lemma object_key_s3 (identifier path : string) :
  object_key ("https://s3.us.archive.org/" +:+ identifier +:+ "/" +:+ path)
    = Some (object_of identifier path).
Proof.
  unfold object_key, object_of.
  change ("https://s3.us.archive.org/" +:+ identifier +:+ "/" +:+ path)
    with (s3_base +:+ "/" +:+ identifier +:+ "/" +:+ path).
  apply strip_prefix_app.
Qed.

Lemma copy_ok_accepted (o : outcome) :
  copy_ok o = true → ∃ s p, o = Response s p ∧ accepted s = true.
Proof.
  destruct o as [s p|e]; simpl; [|done].
  rewrite orb_true_iff, !Z.eqb_eq.
  intros [->| ->]; eexists _, _; split; reflexivity.
Qed.

Lemma delete_ok_accepted (o : outcome) :
  delete_ok o = true → ∃ s p, o = Response s p ∧ accepted s = true.
Proof.
  destruct o as [s p|e]; simpl; [|done].
  rewrite orb_true_iff, !Z.eqb_eq.
  intros [->| ->]; eexists _, _; split; reflexivity.
Qed.

(** A plain path has no character that the wire or the server treats
    in a way of its own. *)
Lemma plain_chars (path : string) :
  plain path = true →
  forallb (λ c, unreserved c || Ascii.eqb c Str.slash)
    (String.list_ascii_of_string path) = true.
Proof. unfold plain. by intros [H _]%andb_true_iff. Qed.

Lemma before_fragment_chars (path : string) :
  forallb (λ c, unreserved c || Ascii.eqb c Str.slash)
    (String.list_ascii_of_string path) = true →
  before_fragment path = path.
Proof.
  induction path as [|c path IH]; [done |].
  cbn [String.list_ascii_of_string forallb before_fragment].
  intros [Hc Hrest]%andb_true_iff.
  destruct (Ascii.eqb_spec c "#") as [->|_]; [by vm_compute in Hc |].
  by rewrite IH.
Qed.

Lemma served_plain (path : string) : plain path = true → served path = Some path.
Proof.
  intros Hp. unfold served.
  rewrite (before_fragment_chars path (plain_chars path Hp)). by rewrite Hp.
Qed.

Lemma copy_source_plain (value : string) :
  plain value = true → copy_source value = Some value.
Proof.
  intros Hp%plain_chars. unfold copy_source.
  assert (H : forallb (λ c, negb (existsb (Ascii.eqb c) ["%"; "+"; "?"]%char))
                (String.list_ascii_of_string value) = true); [| by rewrite H].
  induction value as [|c value IH]; [done |].
  cbn [String.list_ascii_of_string forallb] in Hp |- *.
  apply andb_true_iff in Hp as [Hc Hrest]. rewrite (IH Hrest), andb_true_r.
  cbn [existsb].
  destruct (Ascii.eqb_spec c "%") as [->|_]; [by vm_compute in Hc |].
  destruct (Ascii.eqb_spec c "+") as [->|_]; [by vm_compute in Hc |].
  destruct (Ascii.eqb_spec c "?") as [->|_]; [by vm_compute in Hc |].
  done.
Qed.

Lemma store_step_refused (r : request) (o : outcome)
    (st : gmap string (list Byte.byte)) :
  refused o → store_step st (r, o) = Some st.
Proof.
  destruct o as [s p|e]; [| done]. simpl. intros Href.
  unfold store_step. by rewrite Href.
Qed.

Lemma store_step_copy (E : environment)
    (identifier file_name source_dir target_dir : string) (o : outcome)
    (st : gmap string (list Byte.byte)) :
  copy_ok o = true →
  plain (object_of identifier (path_in source_dir file_name)) = true →
  plain (object_of identifier (path_in target_dir file_name)) = true →
  store_step st
    (copy_request E identifier file_name source_dir target_dir, o)
    = Some match st !! object_of identifier (path_in source_dir file_name) with
           | Some c =>
               <[object_of identifier (path_in target_dir file_name) := c]> st
           | None => st
           end.
Proof.
  intros (s & p & -> & Hacc)%copy_ok_accepted Hsrc Hdst. unfold store_step.
  rewrite Hacc. unfold copy_request. cbn [req_url req_method req_headers].
  rewrite object_key_s3, (served_plain _ Hdst), lookup_insert_eq.
  change ("/" +:+ identifier +:+ "/" +:+ path_in source_dir file_name)
    with (object_of identifier (path_in source_dir file_name)).
  rewrite (copy_source_plain _ Hsrc).
  by destruct (st !! object_of identifier (path_in source_dir file_name)).
Qed.

Lemma store_step_delete (E : environment) (identifier file_path : string)
    (o : outcome) (st : gmap string (list Byte.byte)) :
  plain (object_of identifier file_path) = true →
  store_step st (delete_request E identifier file_path, o)
    = Some match o with
           | Response s _ =>
               if accepted s then delete (object_of identifier file_path) st
               else st
           | Broken _ => st
           end.
Proof.
  intros Hp. unfold store_step. destruct o as [s p|e]; [|done].
  destruct (accepted s); [|done].
  unfold delete_request. cbn [req_url req_method].
  by rewrite object_key_s3, (served_plain _ Hp).
Qed.

(** ** C4: a move that fails *)

Example move_copy_refused :
  let E := laptop [Response 404 NoJson] in
  let run := move_file E "item" "a.txt" "docs" "archive" [] in
  fst run = Ret false
  ∧ map (λ x, (req_method x.1, req_url x.1)) (exchanges (snd run))
      = [(PUT, "https://s3.us.archive.org/item/archive/a.txt")]
  ∧ printed (snd run) = [CopyError "docs/a.txt" "archive/a.txt" 404].
Proof. vm_compute. done. Qed.

Example move_delete_refused :
  let E := laptop [ok; Response 503 NoJson] in
  let run := move_file E "item" "a.txt" "docs" "archive" [] in
  fst run = Ret false
  ∧ map (λ x, (req_method x.1, req_url x.1)) (exchanges (snd run))
      = [(PUT, "https://s3.us.archive.org/item/archive/a.txt");
         (DELETE, "https://s3.us.archive.org/item/docs/a.txt")]
  ∧ held (store_after sample_store (snd run)) "/item/docs/a.txt"
      = Some (Some [Byte.x61])
  ∧ held (store_after sample_store (snd run)) "/item/archive/a.txt"
      = Some (Some [Byte.x61]).
Proof. vm_compute. done. Qed.

(** A delete that [delete_file] counts as failed need not have left
    the source in place.  A DELETE answered 202 is a failure for
    [delete_file]: [move_file] returns [False] and reports that the
    file was copied but the original not deleted.  The server, which
    answered with a status of success, has removed the source: the
    content is at the destination only. *)
Theorem delete_reported_failed_but_done :
  let E := laptop [ok; Response 202 NoJson] in
  let run := move_file E "item" "a.txt" "docs" "archive" [] in
  fst run = Ret false
  ∧ printed (snd run)
      = [Copied "docs/a.txt" "archive/a.txt"; DeleteFailed "docs/a.txt" 202;
         CopiedNotDeleted "docs/a.txt"]
  ∧ held (store_after sample_store (snd run)) "/item/docs/a.txt" = Some None
  ∧ held (store_after sample_store (snd run)) "/item/archive/a.txt"
      = Some (Some [Byte.x61]).
Proof. vm_compute. done. Qed.

(** C4, amended. When the copy PUT does not return 200 or 201 (another
    status, or an exception), [move_file] returns [False] after that
    one exchange and a copy-failure message, and no DELETE is sent;
    when the copy returns 200 or 201 and the DELETE of the source does
    not return 200 or 204, it returns [False] after exactly the copy
    and that one DELETE, reports that the file was copied but the
    original not deleted, and sends nothing to undo the copy.  When
    moreover the server answered the DELETE with a status outside
    200-299 and the two object paths are plain (unreserved characters
    and slashes, no dot segment), the content of the source is both at
    the source and at the destination.  (Without credentials no
    request is made at all and the function returns [False].) *)
Theorem move_file_failures (E : environment)
    (identifier file_name source_dir target_dir : string) (log : list event) :
  let n := length (exchanges log) in
  let src := path_in source_dir file_name in
  let dst := path_in target_dir file_name in
  let copy := copy_request E identifier file_name source_dir target_dir in
  let del := delete_request E identifier src in
  let run := move_file E identifier file_name source_dir target_dir log in
  (keys_missing E = true → run = (Ret false, log ++ [Print MoveKeysMissing]))
  ∧ (keys_missing E = false → copy_ok (net E n) = false →
     run = (Ret false,
            log ++ [Wire copy (net E n); Call copy (outcome_result (net E n));
                    Print (copy_report src dst (net E n))])
     ∧ exchanges (snd run) = exchanges log ++ [(copy, net E n)]
     ∧ req_method copy = PUT)
  ∧ (keys_missing E = false →
     copy_ok (net E n) = true → delete_ok (net E (S n)) = false →
     run = (Ret false,
            log ++ [Wire copy (net E n); Call copy (outcome_result (net E n));
                    Print (Copied src dst);
                    Wire del (net E (S n));
                    Call del (outcome_result (net E (S n)));
                    Print (delete_report src (net E (S n)));
                    Print (CopiedNotDeleted src)])
     ∧ exchanges (snd run)
         = exchanges log ++ [(copy, net E n); (del, net E (S n))]
     ∧ req_method del = DELETE
     ∧ (∀ st st0 c s p,
          net E (S n) = Response s p → accepted s = false →
          plain (object_of identifier src) = true →
          plain (object_of identifier dst) = true →
          store_after st log = Some st0 →
          st0 !! object_of identifier src = Some c →
          ∃ st',
            store_after st (snd run) = Some st'
            ∧ st' !! object_of identifier src = Some c
            ∧ st' !! object_of identifier dst = Some c)).
Proof.
  intros n src dst copy del run.
  split.
  { intros Hk. subst run. unfold move_file. by rewrite Hk. }
  assert (Hrun : keys_missing E = false →
            run = if copy_ok (net E n) then
        (Ret (delete_ok (net E (S n))),
         log ++ [Wire copy (net E n); Call copy (outcome_result (net E n));
                 Print (Copied src dst);
                 Wire del (net E (S n));
                 Call del (outcome_result (net E (S n)));
                 Print (delete_report src (net E (S n)));
                 Print (if delete_ok (net E (S n)) then Moved src dst
                        else CopiedNotDeleted src)])
      else
        (Ret false,
         log ++ [Wire copy (net E n); Call copy (outcome_result (net E n));
                 Print (copy_report src dst (net E n))])).
  { intros Hk.
    exact (move_file_run E identifier file_name source_dir target_dir log Hk). }
  split.
  - intros Hk Hcopy. specialize (Hrun Hk). rewrite Hcopy in Hrun.
    rewrite Hrun. split; [done |].
    split; [|done]. cbn [snd]. by rewrite exchanges_app.
  - intros Hk Hcopy Hdel. specialize (Hrun Hk). rewrite Hcopy, Hdel in Hrun.
    rewrite Hrun.
    split; [done |]. cbn [snd]. split; [by rewrite exchanges_app |].
    split; [done |]. intros st st0 c s p Hans Hacc Hps Hpd Hst0 Hsrc.
    assert (Href : refused (net E (S n))) by (by rewrite Hans).
    rewrite store_after_app, Hst0.
    change (exchanges _) with [(copy, net E n); (del, net E (S n))].
    unfold store_replay. cbn [foldl]. subst copy del.
    rewrite store_step_copy by done. fold src dst. rewrite Hsrc.
    rewrite store_step_refused by done.
    eexists. split; [reflexivity |].
    split; [| by rewrite lookup_insert_eq].
    destruct (decide (object_of identifier dst = object_of identifier src))
      as [->|Hne].
    + by rewrite lookup_insert_eq.
    + by rewrite lookup_insert_ne.
Qed.

Lemma move_file_failures_witness :
  let E := laptop [ok; Response 503 NoJson] in
  let run := move_file E "item" "a.txt" "docs" "archive" [] in
  fst run = Ret false
  ∧ length (exchanges (snd run)) = 2%nat
  ∧ ∃ st',
      store_after sample_store (snd run) = Some st'
      ∧ st' !! "/item/docs/a.txt" = Some [Byte.x61]
      ∧ st' !! "/item/archive/a.txt" = Some [Byte.x61].
Proof.
  intros E run.
  destruct (move_file_failures E "item" "a.txt" "docs" "archive" [])
    as (_ & _ & Hpartial).
  destruct (Hpartial eq_refl eq_refl eq_refl) as (Hrun & Hx & _ & Hstore).
  destruct (Hstore sample_store sample_store [Byte.x61] 503 NoJson
              eq_refl eq_refl eq_refl eq_refl eq_refl eq_refl)
    as (st' & Hafter & Hsrc & Hdst).
  subst run. split; [by rewrite Hrun |]. split; [by rewrite Hx |].
  by exists st'.
Defined.

(** ** C9: a move within one directory *)

Example move_in_place :
  let E := laptop [] in
  let run := move_file E "item" "a.txt" "docs" "docs" [] in
  fst run = Ret true
  ∧ map (λ x, (req_method x.1, req_url x.1)) (exchanges (snd run))
      = [(PUT, "https://s3.us.archive.org/item/docs/a.txt");
         (DELETE, "https://s3.us.archive.org/item/docs/a.txt")]
  ∧ held (store_after sample_store (snd run)) "/item/docs/a.txt" = Some None.
Proof. vm_compute. done. Qed.

(** A move within one directory that returns [True] need not remove
    the file.  For a file whose name has a [#], the part of the URL
    from the [#] on is a fragment, which is not sent, so the copy and
    the DELETE of a move within [docs] both act on [/item/docs/a].
    The move returns [True] and the file [/item/docs/a#b] is still in
    the store. *)
Theorem move_in_place_keeps_file :
  let E := laptop [] in
  let run := move_file E "item" "a#b" "docs" "docs" [] in
  fst run = Ret true
  ∧ map (λ x, (req_method x.1, req_url x.1,
               object_key (req_url x.1) ≫= served))
      (exchanges (snd run))
      = [(PUT, "https://s3.us.archive.org/item/docs/a#b",
          Some "/item/docs/a");
         (DELETE, "https://s3.us.archive.org/item/docs/a#b",
          Some "/item/docs/a")]
  ∧ held (store_after fragment_store (snd run)) "/item/docs/a#b"
      = Some (Some [Byte.x61]).
Proof. vm_compute. done. Qed.

(** C9, amended. When the source and the target directory are the same
    (empty or not), the path in the URL of the copy and the path in its
    source header are the same string, and the DELETE has the URL of
    the copy; with the credentials set, a copy that returns 200 or 201
    is followed at once by that DELETE; and whenever the move returns
    [True] and the object path is plain (unreserved characters and
    slashes, no dot segment), the object is no longer in the store,
    every other object being as it was. *)
Theorem move_file_same_directory (E : environment)
    (identifier file_name dir : string) (log : list event) :
  let n := length (exchanges log) in
  let path := path_in dir file_name in
  let copy := copy_request E identifier file_name dir dir in
  let del := delete_request E identifier path in
  let run := move_file E identifier file_name dir dir log in
  object_key (req_url copy) = Some (object_of identifier path)
  ∧ req_headers copy !! "x-amz-copy-source" = Some (object_of identifier path)
  ∧ object_key (req_url del) = Some (object_of identifier path)
  ∧ req_url del = req_url copy
  ∧ (keys_missing E = false → copy_ok (net E n) = true →
     exchanges (snd run)
       = exchanges log ++ [(copy, net E n); (del, net E (S n))]
     ∧ req_method copy = PUT ∧ req_method del = DELETE)
  ∧ (fst run = Ret true →
     plain (object_of identifier path) = true →
     ∀ st st0,
       store_after st log = Some st0 →
       ∃ st',
         store_after st (snd run) = Some st'
         ∧ st' !! object_of identifier path = None
         ∧ ∀ k, k ≠ object_of identifier path → st' !! k = st0 !! k).
Proof.
  intros n path copy del run.
  split; [apply object_key_s3 |].
  split; [apply lookup_insert_eq |].
  split; [apply object_key_s3 |].
  split; [done |].
  destruct (keys_missing E) eqn:Hk.
  { split; [done |]. subst run. unfold move_file. rewrite Hk. done. }
  pose proof (move_file_run E identifier file_name dir dir log Hk) as Hrun.
  cbv zeta in Hrun. fold n path copy del run in Hrun.
  split.
  - intros _ Hcopy. rewrite Hcopy in Hrun. rewrite Hrun. cbn [snd].
    by rewrite exchanges_app.
  - intros Htrue Hplain st st0 Hst0. rewrite Hrun in Htrue |- *.
    destruct (copy_ok (net E n)) eqn:Hcopy; [|done].
    cbn [fst snd] in *. injection Htrue as Hdel.
    rewrite store_after_app, Hst0.
    change (exchanges _) with [(copy, net E n); (del, net E (S n))].
    unfold store_replay. cbn [foldl]. subst copy del.
    rewrite store_step_copy by done. rewrite store_step_delete by done.
    apply delete_ok_accepted in Hdel as (s & p & -> & ->).
    eexists. split; [reflexivity |]. split; [apply lookup_delete_eq |].
    intros k Hne. rewrite lookup_delete_ne by done.
    fold path. destruct (st0 !! object_of identifier path); [| done].
    by rewrite lookup_insert_ne.
Qed.

Lemma move_file_same_directory_witness :
  let run := move_file (laptop []) "item" "a.txt" "docs" "docs" [] in
  fst run = Ret true
  ∧ ∃ st', store_after sample_store (snd run) = Some st'
           ∧ st' !! "/item/docs/a.txt" = None.
Proof.
  intros run.
  destruct (move_file_same_directory (laptop []) "item" "a.txt" "docs" [])
    as (_ & _ & _ & _ & _ & Hgone).
  split; [reflexivity |].
  destruct (Hgone eq_refl eq_refl sample_store sample_store eq_refl)
    as (st' & Hafter & Hnone & _).
  by exists st'.
Defined.

(** ** C10: the multi-file upload of the menu *)

Lemma upload_file_with_progress_returns (E : environment)
    (identifier file_path directory : string) (f : file) (log : list event) :
  fs_file E file_path = Some f →
  ∃ b log',
    upload_file_with_progress E identifier file_path directory log
      = (Ret b, log').
Proof.
  intros Hf. unfold upload_file_with_progress.
  destruct (keys_missing E); [by eexists _, _ |].
  unfold bind at 1, os_path_getsize. rewrite Hf. unfold ret at 1.
  unfold try_except.
  match goal with |- context [match ?m log with _ => _ end] =>
    destruct (m log) as [[b|e] log'] end.
  - by eexists _, _.
  - unfold upload_handlers. destruct e; simpl; by eexists _, _.
Qed.

Lemma check_files_exist_present (E : environment) (file_paths : list string)
    (log : list event) :
  Forall (λ p, is_Some (fs_file E p)) file_paths →
  check_files_exist E file_paths log = (Ret true, log).
Proof.
  induction 1 as [|p ps [f Hf] _ IH]; simpl; [done |]. by rewrite Hf.
Qed.

Lemma upload_each_attempts (E : environment) (identifier directory : string)
    (file_paths : list string) :
  Forall (λ p, is_Some (fs_file E p)) file_paths →
  ∀ (success : bool) (log : list event),
    length (attempt_all E identifier directory file_paths log).1
      = length file_paths
    ∧ upload_each E identifier directory file_paths success log
      = (Ret (success
              && forallb id (attempt_all E identifier directory file_paths log).1),
         (attempt_all E identifier directory file_paths log).2).
Proof.
  induction 1 as [|p ps [f Hf] _ IH]; intros success log; simpl.
  - by rewrite andb_true_r.
  - destruct (upload_file_with_progress_returns E identifier p directory f log Hf)
      as (b & log' & Hup).
    unfold bind. rewrite Hup.
    destruct (IH (if negb b then false else success) log') as [Hlen Hrest].
    destruct (attempt_all E identifier directory ps log') as [bs final].
    simpl in *. split; [by rewrite Hlen |]. rewrite Hrest.
    by destruct b, success.
Qed.

Example upload_batch_with_failure :
  let E := laptop2 [Response 403 NoJson] in
  let run := main_upload_files E "item" "docs"
               ["/tmp/data.bin"; "/tmp/notes.txt"] [] in
  map (λ x, (req_url x.1, x.2)) (exchanges (snd run))
    = [("https://s3.us.archive.org/item/docs/data.bin", Response 403 NoJson);
       ("https://s3.us.archive.org/item/docs/notes.txt", ok)]
  ∧ printed (snd run)
    = [UploadError "/tmp/data.bin" 403; UploadOK "/tmp/notes.txt"; SomeFailed].
Proof. vm_compute. done. Qed.

(** The check stops at the first path that names no file. *)
Lemma check_files_exist_missing (E : environment) (file_paths : list string)
    (log : list event) :
  ¬ Forall (λ p, is_Some (fs_file E p)) file_paths →
  ∃ before p after,
    file_paths = before ++ p :: after
    ∧ Forall (λ q, is_Some (fs_file E q)) before
    ∧ fs_file E p = None
    ∧ check_files_exist E file_paths log
      = (Ret false, log ++ [Print (FileNotFound p)]).
Proof.
  induction file_paths as [|q ps IH]; intros Hnot.
  - exfalso. apply Hnot. constructor.
  - simpl. destruct (fs_file E q) as [f|] eqn:Hq.
    + destruct IH as (before & p & after & -> & Hbefore & Hp & Hrun).
      { intros Hall. apply Hnot. constructor; [by rewrite Hq | done]. }
      exists (q :: before), p, after. split; [done |].
      split; [constructor; [by rewrite Hq | done] | done].
    + exists [], q, ps. split; [done |]. split; [constructor | done].
Qed.

(** One missing file stops the batch before any upload, also of the
    files that exist. *)
Lemma missing_file_stops_batch :
  let E := laptop [] in
  is_Some (fs_file E "/tmp/data.bin")
  ∧ main_upload_files E "item" "docs" ["/tmp/data.bin"; "/tmp/missing.bin"] []
    = (Ret tt, [Print (FileNotFound "/tmp/missing.bin")]).
Proof. split; [by eexists | reflexivity]. Qed.

(** C10, amended. When every listed file exists, the upload loop of
    the menu calls [upload_file_with_progress] for every file of the
    list in turn, whatever the earlier ones returned, and then prints
    the all-uploaded message exactly when every call returned [True],
    the some-failed message otherwise.  When a listed file does not
    exist the flow reports the first such file of the list (every
    file listed before it exists) and uploads nothing. *)
Theorem main_upload_files_attempts_all (E : environment)
    (identifier directory : string) (file_paths : list string)
    (log : list event) :
  let results := (attempt_all E identifier directory file_paths log).1 in
  let final := (attempt_all E identifier directory file_paths log).2 in
  let run := main_upload_files E identifier directory file_paths log in
  (Forall (λ p, is_Some (fs_file E p)) file_paths →
   length results = length file_paths
   ∧ run = (Ret tt,
            final ++ [Print (if forallb id results then AllUploaded
                             else SomeFailed)])
   ∧ (forallb id results = true ↔ ∀ b, In b results → b = true))
  ∧ (¬ Forall (λ p, is_Some (fs_file E p)) file_paths →
     ∃ before p after,
       file_paths = before ++ p :: after
       ∧ Forall (λ q, is_Some (fs_file E q)) before
       ∧ fs_file E p = None
       ∧ run = (Ret tt, log ++ [Print (FileNotFound p)])).
Proof.
  intros results final run. split.
  - intros Hall.
    destruct (upload_each_attempts E identifier directory file_paths Hall true
                log) as [Hlen Heach].
    split; [done |]. split.
    + subst run. unfold main_upload_files, bind.
      rewrite check_files_exist_present by done. rewrite Heach. simpl.
      fold results final. by destruct (forallb id results).
    + rewrite forallb_forall. done.
  - intros Hnot.
    destruct (check_files_exist_missing E file_paths log Hnot)
      as (before & p & after & Hsplit & Hbefore & Hp & Hcheck).
    exists before, p, after. split; [done |]. split; [done |].
    split; [done |].
    subst run. unfold main_upload_files, bind. by rewrite Hcheck.
Qed.

Lemma main_upload_files_attempts_all_witness :
  printed (snd (main_upload_files (laptop2 [Response 403 NoJson]) "item" "docs"
                  ["/tmp/data.bin"; "/tmp/notes.txt"] []))
    = [UploadError "/tmp/data.bin" 403; UploadOK "/tmp/notes.txt"; SomeFailed].
Proof.
  destruct (main_upload_files_attempts_all (laptop2 [Response 403 NoJson])
              "item" "docs" ["/tmp/data.bin"; "/tmp/notes.txt"] [])
    as [Hall _].
  destruct Hall as (_ & Hrun & _).
  - repeat constructor; by eexists.
  - rewrite Hrun. vm_compute. reflexivity.
Defined.

(** * Further properties *)

(** ** [get_repo_identifier]: every URL *)

Lemma re_search_None_iff (url : string) :
  re_search url = None ↔ ¬ has_segment url.
Proof.
  split.
  - intros Hnone (pre & c & t & -> & Hc). by apply (re_search_finds pre c t Hc).
  - intros Hno. destruct (re_search url) as [g|] eqn:Hs; [|done].
    exfalso. apply Hno.
    destruct (re_search_Some url g Hs) as (pre & rest & -> & Hne & _).
    destruct g as [|c g]; [done |]. exists pre, c, (g +:+ rest).
    split; [by rewrite append_cons |].
    intros ->. destruct (re_search_Some _ _ Hs) as (_ & _ & _ & _ & Hfree & _).
    by apply (Hfree "" g).
Qed.

(** X1. Whatever the URL, [get_repo_identifier] either returns an
    identifier, which is then non-empty, without a slash, and stands in
    the URL right after the marker and before a slash or the end, with
    nothing printed; or it returns [None] after the invalid-URL
    message, and that happens exactly when no occurrence of the marker
    is followed by a character other than a slash (so also for a URL
    that ends with the marker). *)
Theorem get_repo_identifier_complete (url : string) (log : list event) :
  (∀ g, get_repo_identifier url log = (Ret (Some g), log) →
        g ≠ "" ∧ slash_free g
        ∧ ∃ pre rest, url = pre +:+ marker +:+ g +:+ rest ∧ at_boundary rest)
  ∧ (has_segment url →
     ∃ g, get_repo_identifier url log = (Ret (Some g), log))
  ∧ (¬ has_segment url ↔
     get_repo_identifier url log = (Ret None, log ++ [Print InvalidURL]))
  ∧ get_repo_identifier (marker +:+ "") log
      = (Ret None, log ++ [Print InvalidURL]).
Proof.
  unfold get_repo_identifier. split; [|split; [|split]].
  - intros g. destruct (re_search url) as [h|] eqn:Hs.
    + intros [= ->].
      destruct (re_search_Some url g Hs) as (pre & rest & ? & ? & ? & ? & _).
      eauto 10.
    + unfold bind, print, emit, ret. intros [= ?].
  - intros Hseg. destruct (re_search url) as [h|] eqn:Hs; [eauto |].
    by apply re_search_None_iff in Hs.
  - rewrite <- re_search_None_iff.
    destruct (re_search url) as [h|]; split; try done.
  - reflexivity.
Qed.

Lemma get_repo_identifier_complete_witness :
  ∃ g, get_repo_identifier "https://archive.org/details/item/x" []
       = (Ret (Some g), []).
Proof.
  destruct (get_repo_identifier_complete "https://archive.org/details/item/x" [])
    as (_ & Hseg & _).
  apply Hseg. exists "https://", "i"%char, "tem/x". split; [reflexivity |].
  discriminate.
Defined.

(** ** [upload_file_with_progress]: local failures and the empty file *)

(** X2. [upload_file_with_progress] tests the credentials first: without
    them it returns [False] after the message, whatever the file.  With
    them, a path that names no file makes [os.path.getsize], which is
    outside the [try], raise: the function does not return; a file that
    cannot be opened gives [False] after the unexpected-error message.
    In none of these cases does anything go on the wire. *)
Theorem upload_local_failures (E : environment)
    (identifier file_path directory : string) (log : list event) :
  let run := upload_file_with_progress E identifier file_path directory log in
  (keys_missing E = true → run = (Ret false, log ++ [Print CredentialsMissing]))
  ∧ (keys_missing E = false → fs_file E file_path = None →
     run = (Raise OSError, log))
  ∧ (∀ f, keys_missing E = false → fs_file E file_path = Some f →
          readable f = false →
          run = (Ret false, log ++ [Print (UploadUnexpected OSError)]))
  ∧ ((keys_missing E = true ∨ fs_file E file_path = None
      ∨ ∃ f, fs_file E file_path = Some f ∧ readable f = false) →
     exchanges (snd run) = exchanges log ∧ calls (snd run) = calls log).
Proof.
  intros run.
  assert (H1 : keys_missing E = true →
               run = (Ret false, log ++ [Print CredentialsMissing])).
  { intros Hk. subst run. unfold upload_file_with_progress. by rewrite Hk. }
  assert (H2 : keys_missing E = false → fs_file E file_path = None →
               run = (Raise OSError, log)).
  { intros Hk Hf. subst run. unfold upload_file_with_progress. rewrite Hk.
    unfold bind, os_path_getsize. by rewrite Hf. }
  assert (H3 : ∀ f, keys_missing E = false → fs_file E file_path = Some f →
               readable f = false →
               run = (Ret false, log ++ [Print (UploadUnexpected OSError)])).
  { intros f Hk Hf Hr. subst run. unfold upload_file_with_progress. rewrite Hk.
    unfold bind at 1, os_path_getsize. rewrite Hf. unfold ret at 1.
    unfold try_except, bind at 1, open_rb. by rewrite Hf, Hr. }
  split; [done |]. split; [done |]. split; [done |].
  destruct (keys_missing E) eqn:Hk.
  { intros _. rewrite H1 by done. cbn [snd].
    by rewrite exchanges_app, calls_app, !app_nil_r. }
  intros [?|[Hf|(f & Hf & Hr)]]; [done | |].
  - by rewrite H2.
  - rewrite (H3 f) by done. cbn [snd].
    by rewrite exchanges_app, calls_app, !app_nil_r.
Qed.

Lemma upload_local_failures_witness :
  upload_file_with_progress (laptop []) "item" "/tmp/absent.bin" "docs" []
    = (Raise OSError, []).
Proof.
  destruct (upload_local_failures (laptop []) "item" "/tmp/absent.bin" "docs" [])
    as (_ & Hmissing & _).
  apply Hmissing; reflexivity.
Defined.

(** X3. With the credentials set, the upload of a readable file of
    zero bytes sends nothing: the loop ends at the first read, and the
    function prints the success message and returns [True]. *)
Theorem upload_empty_file (E : environment)
    (identifier file_path directory : string) (f : file) (log : list event) :
  keys_missing E = false → fs_file E file_path = Some f →
  readable f = true → content f = [] →
  upload_file_with_progress E identifier file_path directory log
    = (Ret true, log ++ [Print (UploadOK file_path)]).
Proof.
  intros Hk Hf Hr Hc. unfold upload_file_with_progress. rewrite Hk.
  unfold bind at 1, os_path_getsize. rewrite Hf. unfold ret at 1.
  unfold try_except, bind at 1, open_rb. rewrite Hf, Hr. unfold ret at 1.
  rewrite Hc. reflexivity.
Qed.

Lemma upload_empty_file_witness :
  upload_file_with_progress
    (Environment credentials (one_file "/tmp/empty" (File true [])) empty_tree
       (scripted [] unavailable))
    "item" "/tmp/empty" "docs" []
    = (Ret true, [Print (UploadOK "/tmp/empty")]).
Proof.
  apply (upload_empty_file
           (Environment credentials (one_file "/tmp/empty" (File true []))
              empty_tree (scripted [] unavailable))
           "item" "/tmp/empty" "docs" (File true [])); reflexivity.
Defined.

(** ** The target URL keeps only the base name *)

Lemma has_slash_iff (s : string) :
  existsb (Ascii.eqb Str.slash) (String.list_ascii_of_string s) = false
  ↔ slash_free s.
Proof.
  induction s as [|c s IH]; cbn [existsb String.list_ascii_of_string].
  - split; [|done]. intros _ [|? ?] ?; discriminate.
  - rewrite orb_false_iff, IH. split.
    + intros [Hc Hfree] [|d a] b Heq.
      * rewrite append_nil_l in Heq. injection Heq as -> _.
        by rewrite Ascii.eqb_refl in Hc.
      * rewrite append_cons in Heq. injection Heq as _ Heq.
        by apply (Hfree a b).
    + intros Hfree. split.
      * destruct (Ascii.eqb_spec Str.slash c) as [<-|]; [|done].
        exfalso. by apply (Hfree "" s).
      * intros a b ->. by apply (Hfree (String c a) b).
Qed.

Lemma basename_slash_free (name : string) :
  slash_free name → Str.basename name = name.
Proof.
  destruct name as [|c name]; [done |]. intros Hfree. simpl.
  destruct (Ascii.eqb_spec c Str.slash) as [->|Hc].
  { exfalso. by apply (Hfree "" name). }
  assert (Htail : slash_free name).
  { intros a b ->. by apply (Hfree (String c a) b). }
  apply has_slash_iff in Htail. by rewrite Htail.
Qed.

Lemma basename_after_slash (dir name : string) :
  slash_free name → Str.basename (dir +:+ String Str.slash name) = name.
Proof.
  intros Hfree. induction dir as [|c dir IH].
  - rewrite append_nil_l. cbn [Str.basename]. rewrite Ascii.eqb_refl.
    by apply basename_slash_free.
  - rewrite append_cons. cbn [Str.basename].
    destruct (Ascii.eqb c Str.slash); [done |].
    destruct (existsb (Ascii.eqb Str.slash)
                (String.list_ascii_of_string (dir +:+ String Str.slash name)))
      eqn:Hex; [done |].
    apply has_slash_iff in Hex. exfalso. by apply (Hex dir name).
Qed.

(** X4. The target URL of an upload is built from the base name of the
    local path alone: a file [dir/name] goes to
    [https://s3.us.archive.org/{identifier}/{directory}/{name}]
    whatever [dir] is, so two local files with the same name in
    different local directories are sent to the same URL. *)
Theorem upload_url_ignores_local_directory
    (identifier directory dir1 dir2 name : string) :
  slash_free name →
  upload_url_of identifier (dir1 +:+ "/" +:+ name) directory
    = "https://s3.us.archive.org/" +:+ identifier +:+ "/" +:+ directory
        +:+ "/" +:+ name
  ∧ upload_url_of identifier (dir1 +:+ "/" +:+ name) directory
    = upload_url_of identifier (dir2 +:+ "/" +:+ name) directory.
Proof.
  intros Hfree. unfold upload_url_of.
  change ("/" +:+ name) with (String Str.slash name).
  by rewrite !basename_after_slash.
Qed.

Lemma upload_url_ignores_local_directory_witness :
  upload_url_of "item" ("/home/a" +:+ "/" +:+ "x.txt") "docs"
    = upload_url_of "item" ("/home/b" +:+ "/" +:+ "x.txt") "docs".
Proof.
  apply (upload_url_ignores_local_directory "item" "docs" "/home/a" "/home/b"
           "x.txt").
  apply slash_free_take. reflexivity.
Defined.

(** ** Accounting of an upload: progress, exchanges, pauses *)

Lemma progress_app (a b : list event) :
  progress (a ++ b) = progress a ++ progress b.
Proof. apply omap_app. Qed.

Lemma sleep_backoff_progress (pol : Retry) (errors : nat) (log : list event) :
  progress (snd (sleep_backoff pol errors log)) = progress log.
Proof.
  unfold sleep_backoff. destruct (get_backoff_time pol errors <=? 0); [done |].
  unfold emit. cbn [snd]. by rewrite progress_app, app_nil_r.
Qed.

Lemma urlopen_progress (E : environment) (pol : Retry) (r : request)
    (left : nat) :
  ∀ (errors : nat) (log : list event),
    progress (snd (urlopen E pol left errors r log)) = progress log.
Proof.
  induction left as [|left IH]; intros errors log; rewrite urlopen_unfold;
    cbv zeta; destruct (retriable pol r (net E (length (exchanges log))));
    cbn [snd]; rewrite ?IH, ?sleep_backoff_progress, progress_app;
    by rewrite app_nil_r.
Qed.

Lemma session_put_progress (E : environment) (url : string)
    (headers : gmap string string) (data : body) (timeout : option (Z * Z))
    (log : list event) :
  progress (snd (session_put E url headers data timeout log)) = progress log.
Proof.
  unfold session_put, api_call.
  pose proof (urlopen_progress E retry_strategy
                (Request PUT url headers data timeout)
                (total retry_strategy) 0 log) as Hp.
  destruct (urlopen E retry_strategy (total retry_strategy) 0
              (Request PUT url headers data timeout) log) as [res log'].
  cbn [snd] in *. by rewrite progress_app, Hp, app_nil_r.
Qed.

Lemma sumZ_app (a b : list Z) : sumZ (a ++ b) = sumZ a + sumZ b.
Proof. induction a as [|x a IH]; simpl; [done |]. rewrite IH. lia. Qed.

Lemma pause_list_session_sum (k : nat) :
  (k ≤ 5)%nat → 0 ≤ sumZ (pause_list retry_strategy 0 k) ≤ 60.
Proof.
  intros Hk. do 6 (destruct k as [|k]; [vm_compute; split; discriminate |]).
  lia.
Qed.

(** One call of [session.put]: at most six exchanges, at most sixty
    seconds of pauses, one return, no progress update. *)
Lemma session_put_cost (E : environment) (url : string)
    (headers : gmap string string) (data : body) (timeout : option (Z * Z))
    (log : list event) :
  ∃ res added,
    session_put E url headers data timeout log = (res, log ++ added)
    ∧ (1 ≤ length (exchanges added) ≤ 6)%nat
    ∧ 0 ≤ sumZ (pauses added) ≤ 60
    ∧ length (calls added) = 1%nat
    ∧ calls added = [(Request PUT url headers data timeout, res)]
    ∧ progress added = [] ∧ printed added = [].
Proof.
  destruct (session_put_shape E url headers data timeout log)
    as (k & res & added & Hk & Hrun & Hx & Hz & Hc & Hp).
  exists res, added. split; [done |].
  split; [rewrite Hx; unfold sent; rewrite length_map, length_seq; lia |].
  split; [rewrite Hz; by apply pause_list_session_sum |].
  split; [by rewrite Hc |]. split; [done |]. split; [|done].
  pose proof (session_put_progress E url headers data timeout log) as Hq.
  rewrite Hrun in Hq. cbn [snd] in Hq. rewrite progress_app in Hq.
  apply (f_equal length) in Hq. rewrite length_app in Hq.
  destruct (progress added); [done | simpl in Hq; lia].
Qed.

Lemma upload_loop_accounting (E : environment) (chunk_size : Z)
    (file_path upload_url : string) (headers : gmap string string) :
  0 < chunk_size →
  ∀ (fuel : nat) (f : list Byte.byte) (log : list event),
    (length f < fuel)%nat →
    ∃ res added,
      upload_loop E chunk_size fuel file_path upload_url headers f log
        = (res, log ++ added)
      ∧ 0 ≤ sumZ (progress added) ≤ Z.of_nat (length f)
      ∧ (res = Ret true → sumZ (progress added) = Z.of_nat (length f))
      ∧ (length (exchanges added) ≤ 6 * length (calls added))%nat
      ∧ 0 ≤ sumZ (pauses added) ≤ 60 * Z.of_nat (length (calls added)).
Proof.
  intros Hsize. induction fuel as [|fuel IH]; intros f log Hfuel; [lia |].
  cbn [upload_loop]. rewrite read_take_drop by lia.
  destruct f as [|b f].
  { rewrite take_nil. exists (Ret true), []. unfold ret.
    rewrite app_nil_r. simpl. repeat split; lia. }
  set (n := Z.to_nat chunk_size) in *.
  assert (Hn : (0 < n)%nat) by (subst n; lia).
  destruct (take n (b :: f)) as [|b0 chunk0] eqn:Htake.
  { apply (f_equal length) in Htake. rewrite length_take in Htake.
    simpl in Htake. lia. }
  rewrite <- Htake.
  assert (Hsplit : (length (take n (b :: f)) + length (drop n (b :: f))
                    = length (b :: f))%nat).
  { rewrite <- length_app. by rewrite take_drop. }
  assert (Hpos : (0 < length (take n (b :: f)))%nat).
  { rewrite Htake. simpl. lia. }
  set (chunk := take n (b :: f)) in *.
  destruct (session_put_cost E upload_url headers (Bytes chunk)
              (Some (60, 600)) log)
    as (res1 & a1 & Hput & Hx1 & Hz1 & Hc1 & _ & Hp1 & _).
  unfold bind at 1. rewrite Hput.
  destruct res1 as [[s p]|e].
  - cbn [status_code fst]. destruct (Z.eqb_spec s 200) as [->|Hs]; cbn [negb].
    + unfold bind at 1, emit.
      destruct (IH (drop n (b :: f))
                  ((log ++ a1) ++ [Progress (Z.of_nat (length chunk))]))
        as (res & a2 & Hloop & Hprog & Hdone & Hx2 & Hz2).
      { simpl in *. lia. }
      exists res, (a1 ++ [Progress (Z.of_nat (length chunk))] ++ a2).
      rewrite Hloop. split; [by rewrite <- !app_assoc |].
      rewrite !progress_app, !exchanges_app, !pauses_app, !calls_app.
      rewrite !sumZ_app, !length_app, Hp1, Hc1.
      simpl (progress [_]); simpl (exchanges [_]); simpl (pauses [_]);
        simpl (calls [_]); simpl (sumZ [_]); simpl (sumZ []);
        simpl (length []); simpl (length (b :: f)) in *.
      split; [lia |]. split; [intros Hres; specialize (Hdone Hres); lia |].
      split; lia.
    + unfold bind, print, emit, ret.
      exists (Ret false), (a1 ++ [Print (UploadError file_path s)]).
      split; [by rewrite <- !app_assoc |].
      rewrite !progress_app, !exchanges_app, !pauses_app, !calls_app.
      rewrite !sumZ_app, !length_app, Hp1, Hc1.
      simpl (progress [_]); simpl (exchanges [_]); simpl (pauses [_]);
        simpl (calls [_]); simpl (sumZ [_]); simpl (sumZ []);
        simpl (length []); simpl (length (b :: f)) in *.
      split; [lia |]. split; [done |]. split; lia.
  - exists (Raise e), a1. split; [done |]. rewrite Hp1, Hc1.
    cbn [sumZ foldr]. split; [lia |]. split; [done |]. split; lia.
Qed.

(** X5. With the credentials set and a readable file, an upload always
    returns; the progress bar never passes the size of the file and
    reaches it when the function returns [True]; and for each call of
    [session.put] there are at most six exchanges on the wire and at
    most sixty seconds of pauses. *)
Theorem upload_accounting (E : environment)
    (identifier file_path directory : string) (f : file) (log : list event) :
  keys_missing E = false → fs_file E file_path = Some f → readable f = true →
  ∃ b added,
    upload_file_with_progress E identifier file_path directory log
      = (Ret b, log ++ added)
    ∧ 0 ≤ sumZ (progress added) ≤ Z.of_nat (length (content f))
    ∧ (b = true → sumZ (progress added) = Z.of_nat (length (content f)))
    ∧ (length (exchanges added) ≤ 6 * length (calls added))%nat
    ∧ 0 ≤ sumZ (pauses added) ≤ 60 * Z.of_nat (length (calls added)).
Proof.
  intros Hk Hf Hr.
  assert (Hsize : 0 < CHUNK_SIZE) by reflexivity.
  destruct (upload_loop_accounting E CHUNK_SIZE file_path
              (upload_url_of identifier file_path directory) (auth_headers E)
              Hsize (S (length (content f))) (content f) log ltac:(lia))
    as (res & added & Hloop & Hprog & Hdone & Hx & Hz).
  assert (Hrun :
    ∃ b tail, upload_file_with_progress E identifier file_path directory log
                = (Ret b, log ++ added ++ tail)
              ∧ exchanges tail = [] ∧ calls tail = [] ∧ pauses tail = []
              ∧ progress tail = [] ∧ (b = true → res = Ret true)).
  { unfold upload_file_with_progress. rewrite Hk.
    unfold bind at 1, os_path_getsize. rewrite Hf. unfold ret at 1.
    unfold try_except, bind at 1, open_rb. rewrite Hf, Hr.
    unfold ret at 1. unfold bind at 1. rewrite Hloop.
    destruct res as [[|]|e].
    - exists true, [Print (UploadOK file_path)].
      unfold bind, print, emit, ret. by rewrite <- app_assoc.
    - exists false, []. unfold ret. by rewrite app_nil_r.
    - destruct e; simpl; unfold bind, print, emit, ret;
        eexists false, [_]; by rewrite <- app_assoc. }
  destruct Hrun as (b & tail & Heq & Hxt & Hct & Hzt & Hpt & Hb).
  exists b, (added ++ tail). split; [done |].
  rewrite progress_app, exchanges_app, calls_app, pauses_app.
  rewrite Hxt, Hct, Hzt, Hpt, !app_nil_r.
  split; [done |]. split; [by intros ->%Hb%Hdone |]. done.
Qed.

Lemma upload_accounting_witness :
  ∃ b added,
    upload_file_with_progress (laptop [unavailable]) "item" "/tmp/data.bin"
      "docs" [] = (Ret b, added)
    ∧ (b = true → sumZ (progress added) = 5).
Proof.
  destruct (upload_accounting (laptop [unavailable]) "item" "/tmp/data.bin"
              "docs" (File true five_bytes) [] eq_refl eq_refl eq_refl)
    as (b & added & Hrun & _ & Hdone & _).
  exists b, added. split; [exact Hrun | exact Hdone].
Defined.

(** ** An upload that keeps failing *)

Lemma transient_retriable (r : request) (o : outcome) :
  req_method r = PUT → transient o → retriable retry_strategy r o = true.
Proof.
  intros Hm Ho. destruct o as [s p|e]; [|done]. simpl. rewrite Hm.
  by apply is_retry_session.
Qed.

Lemma upload_handlers_run (e : exn) (log : list event) :
  upload_handlers e log = (Ret false, log ++ [Print (upload_exception_report e)]).
Proof. by destruct e. Qed.

Lemma upload_loop_gives_up (E : environment) (chunk_size : Z)
    (file_path upload_url : string) (headers : gmap string string)
    (fuel : nat) (f : list Byte.byte) (log : list event) :
  0 < chunk_size → f ≠ [] →
  (∀ i, (i ≤ 5)%nat → transient (net E (length (exchanges log) + i)%nat)) →
  let n := length (exchanges log) in
  let r := Request PUT upload_url headers
             (Bytes (take (Z.to_nat chunk_size) f)) (Some (60, 600)) in
  ∃ added,
    upload_loop E chunk_size (S fuel) file_path upload_url headers f log
      = (Raise (exhausted_exn retry_strategy (net E (n + 5)%nat)),
         log ++ added)
    ∧ exchanges added = sent E r n 6
    ∧ calls added
        = [(r, Raise (exhausted_exn retry_strategy (net E (n + 5)%nat)))]
    ∧ pauses added = [4; 8; 16; 32]
    ∧ printed added = [].
Proof.
  intros Hsize Hne Hfail n r.
  cbn [upload_loop]. rewrite read_take_drop by lia.
  set (m := Z.to_nat chunk_size) in *.
  assert (Hm : (0 < m)%nat) by (subst m; lia).
  destruct (take m f) as [|b0 chunk0] eqn:Htake.
  { exfalso. apply (f_equal length) in Htake. rewrite length_take in Htake.
    destruct f; [done | simpl in Htake; lia]. }
  destruct (urlopen_exhausted E retry_strategy r (total retry_strategy) 0 log)
    as (added & Hrun & Hx & Hz & Hc & Hp).
  { intros i Hi. apply transient_retriable; [done |]. by apply Hfail. }
  fold n in Hrun, Hx.
  unfold bind at 1. unfold session_put, api_call. fold r.
  rewrite Hrun. change (total retry_strategy) with 5%nat in *.
  exists (added ++ [Call r (Raise (exhausted_exn retry_strategy
                                     (net E (n + 5)%nat)))]).
  split; [by rewrite <- !app_assoc |].
  rewrite !exchanges_app, !calls_app, !pauses_app, !printed_app.
  rewrite Hx, Hz, Hc, Hp. split; [by rewrite app_nil_r |].
  split; [done |]. split; [|done]. vm_compute. reflexivity.
Qed.

(** X6. With the credentials set and a readable, non-empty file: when
    the first six exchanges are all answered by a status of the force
    list or fail in the transport, the first chunk is sent six times, with pauses of
    4, 8, 16 and 32 seconds, no other chunk is sent, and the call of
    [session.put] raises what [requests] makes of the exhausted
    retries: [RetryError] when the last answer is a status, [SSLError]
    when the last failure is an SSL error, and [ConnectionError] for
    any other failure of the transport, a read timeout included.  The
    function returns [False] after one message: the SSL message in the
    second case, the request-error message in the two others. *)
Theorem upload_gives_up (E : environment)
    (identifier file_path directory : string) (f : file) (log : list event) :
  keys_missing E = false → fs_file E file_path = Some f → readable f = true →
  content f ≠ [] →
  (∀ i, (i ≤ 5)%nat → transient (net E (length (exchanges log) + i)%nat)) →
  let n := length (exchanges log) in
  let chunk := take (Z.to_nat CHUNK_SIZE) (content f) in
  let r := chunk_put E identifier file_path directory chunk in
  ∃ added,
    upload_file_with_progress E identifier file_path directory log
      = (Ret false, log ++ added)
    ∧ exchanges added = sent E r n 6
    ∧ calls added
        = [(r, Raise (match net E (n + 5)%nat with
                      | Response _ _ => RetryError
                      | Broken SSLError => SSLError
                      | Broken _ => ConnectionError
                      end))]
    ∧ pauses added = [4; 8; 16; 32]
    ∧ printed added
        = [match net E (n + 5)%nat with
           | Response _ _ => UploadRequestError RetryError
           | Broken SSLError => UploadSSLError
           | Broken _ => UploadRequestError ConnectionError
           end].
Proof.
  intros Hk Hf Hr Hne Hfail n chunk r.
  assert (Hsize : 0 < CHUNK_SIZE) by reflexivity.
  destruct (upload_loop_gives_up E CHUNK_SIZE file_path
              (upload_url_of identifier file_path directory) (auth_headers E)
              (length (content f)) (content f) log Hsize Hne Hfail)
    as (added & Hloop & Hx & Hc & Hz & Hp).
  unfold upload_file_with_progress. rewrite Hk.
  unfold bind at 1, os_path_getsize. rewrite Hf. unfold ret at 1.
  unfold try_except, bind at 1, open_rb. rewrite Hf, Hr. unfold ret at 1.
  unfold bind at 1. rewrite Hloop. rewrite upload_handlers_run.
  eexists. split; [by rewrite <- !app_assoc |].
  rewrite !exchanges_app, !calls_app, !pauses_app, !printed_app.
  rewrite Hx, Hz, Hc, Hp. rewrite !app_nil_r. fold n.
  split; [done |]. split; [| split; [done |]].
  - by destruct (net E (n + 5)%nat) as [s p|[]].
  - by destruct (net E (n + 5)%nat) as [s p|[]].
Qed.

Lemma upload_gives_up_witness :
  let run :=
    upload_file_with_progress
      (Environment credentials
         (one_file "/tmp/data.bin" (File true five_bytes)) empty_tree
         (scripted [] (Broken Timeout)))
      "item" "/tmp/data.bin" "docs" [] in
  fst run = Ret false
  ∧ printed (snd run) = [UploadRequestError ConnectionError]
  ∧ pauses (snd run) = [4; 8; 16; 32].
Proof.
  intros run.
  destruct (upload_gives_up
              (Environment credentials
                 (one_file "/tmp/data.bin" (File true five_bytes)) empty_tree
                 (scripted [] (Broken Timeout)))
              "item" "/tmp/data.bin" "docs" (File true five_bytes) []
              eq_refl eq_refl eq_refl ltac:(discriminate))
    as (added & Hrun & _ & _ & Hz & Hp).
  - intros i _. unfold transient, net, scripted.
    destruct i as [|i]; simpl; auto.
  - subst run. rewrite Hrun. cbn [fst snd app]. split; [done |].
    rewrite Hp, Hz. done.
Defined.

(** ** [delete_file] *)

(** X7. Without credentials [delete_file] returns [False] and sends
    nothing.  With them it sends exactly one DELETE, for
    [https://s3.us.archive.org/{identifier}/{file_path}], never raises,
    and returns [True] exactly when the answer is 200 or 204.  When the
    object path [/{identifier}/{file_path}] is plain (unreserved
    characters and slashes, no dot segment), a deletion that returned
    [True] leaves an honest store without that object and with every
    other object as it was. *)
Theorem delete_file_outcomes (E : environment) (identifier file_path : string)
    (log : list event) :
  let n := length (exchanges log) in
  let r := delete_request E identifier file_path in
  let run := delete_file E identifier file_path log in
  (keys_missing E = true → run = (Ret false, log ++ [Print DeleteKeysMissing]))
  ∧ (keys_missing E = false →
     exchanges (snd run) = exchanges log ++ [(r, net E n)]
     ∧ (fst run = Ret true ∨ fst run = Ret false)
     ∧ (fst run = Ret true
        ↔ ∃ p, net E n = Response 200 p ∨ net E n = Response 204 p)
     ∧ (fst run = Ret true →
        plain (object_of identifier file_path) = true →
        ∀ st st0,
          store_after st log = Some st0 →
          store_after st (snd run)
            = Some (delete (object_of identifier file_path) st0))).
Proof.
  intros n r run. split.
  { intros Hk. subst run. unfold delete_file. by rewrite Hk. }
  intros Hk.
  pose proof (delete_file_run E identifier file_path log Hk) as Hrun.
  cbv zeta in Hrun. fold n r run in Hrun. rewrite Hrun. cbn [fst snd].
  split; [by rewrite exchanges_app |].
  split; [destruct (delete_ok (net E n)); auto |].
  split.
  - split.
    + intros [= Hok]. destruct (net E n) as [s p|e]; [|done].
      simpl in Hok. apply orb_true_iff in Hok as [->%Z.eqb_eq| ->%Z.eqb_eq];
        exists p; auto.
    + intros (p & [-> | ->]); reflexivity.
  - intros [= Hok] Hplain st st0 Hst0. rewrite store_after_app, Hst0.
    change (exchanges _) with [(r, net E n)].
    unfold store_replay. cbn [foldl]. subst r.
    rewrite store_step_delete by done.
    by apply delete_ok_accepted in Hok as (s & p & -> & ->).
Qed.

Lemma delete_file_outcomes_witness :
  let run := delete_file (laptop [Response 204 NoJson]) "item" "docs/a.txt" [] in
  fst run = Ret true
  ∧ store_after sample_store (snd run)
      = Some (delete "/item/docs/a.txt" sample_store).
Proof.
  intros run.
  destruct (delete_file_outcomes (laptop [Response 204 NoJson]) "item"
              "docs/a.txt" []) as [_ Hkeys].
  destruct (Hkeys eq_refl) as (_ & _ & _ & Hgone).
  split; [reflexivity |].
  apply (Hgone eq_refl eq_refl sample_store sample_store eq_refl).
Defined.

(** ** [move_file]: a move that succeeds *)

Lemma append_length (a b : string) :
  String.length (a +:+ b) = (String.length a + String.length b)%nat.
Proof.
  induction a as [|c a IH]; [done |]. rewrite append_cons. simpl. by rewrite IH.
Qed.

Lemma append_inj_l (a x y : string) : a +:+ x = a +:+ y → x = y.
Proof.
  induction a as [|c a IH]; [done |]. rewrite !append_cons.
  intros [= H]. by apply IH.
Qed.

Lemma append_inj_r (a b s : string) : a +:+ s = b +:+ s → a = b.
Proof.
  revert b; induction a as [|c a IH]; intros [|d b] H.
  - done.
  - apply (f_equal String.length) in H. rewrite append_nil_l in H.
    rewrite append_cons in H. simpl in H. rewrite append_length in H. lia.
  - apply (f_equal String.length) in H. rewrite append_nil_l in H.
    rewrite append_cons in H. simpl in H. rewrite append_length in H. lia.
  - rewrite !append_cons in H. injection H as -> H. f_equal. by apply IH.
Qed.

Lemma path_in_inj (dir1 dir2 file_name : string) :
  path_in dir1 file_name = path_in dir2 file_name → dir1 = dir2.
Proof.
  unfold path_in. destruct dir1 as [|c1 d1], dir2 as [|c2 d2]; intros H.
  - done.
  - apply (f_equal String.length) in H. rewrite !append_length in H.
    simpl in H. lia.
  - apply (f_equal String.length) in H. rewrite !append_length in H.
    simpl in H. lia.
  - by apply append_inj_r in H.
Qed.

Lemma object_of_inj (identifier p1 p2 : string) :
  object_of identifier p1 = object_of identifier p2 → p1 = p2.
Proof.
  unfold object_of. intros H.
  by do 3 apply append_inj_l in H.
Qed.

(** X8. With the credentials set, [move_file] returns [True] exactly
    when the copy is answered 200 or 201 and the DELETE that follows is
    answered 200 or 204.  Different source and target directories give
    different object paths, and then, when both paths are plain
    (unreserved characters and slashes, no dot segment), a move that
    returns [True] leaves an honest store that held the source with
    the content at the destination, nothing at the source, and every
    other object as it was. *)
Theorem move_file_moves (E : environment)
    (identifier file_name source_dir target_dir : string) (log : list event) :
  keys_missing E = false →
  let n := length (exchanges log) in
  let src := object_of identifier (path_in source_dir file_name) in
  let dst := object_of identifier (path_in target_dir file_name) in
  let run := move_file E identifier file_name source_dir target_dir log in
  (fst run = Ret true
   ↔ copy_ok (net E n) = true ∧ delete_ok (net E (S n)) = true)
  ∧ (source_dir ≠ target_dir → src ≠ dst)
  ∧ (fst run = Ret true → source_dir ≠ target_dir →
     plain src = true → plain dst = true →
     ∀ st st0 c,
       store_after st log = Some st0 → st0 !! src = Some c →
       ∃ st',
         store_after st (snd run) = Some st'
         ∧ st' !! dst = Some c
         ∧ st' !! src = None
         ∧ ∀ k, k ≠ src → k ≠ dst → st' !! k = st0 !! k).
Proof.
  intros Hk n src dst run.
  pose proof (move_file_run E identifier file_name source_dir target_dir log Hk)
    as Hrun.
  cbv zeta in Hrun. fold n run in Hrun.
  assert (Hne : source_dir ≠ target_dir → src ≠ dst).
  { intros Hdir Heq. apply Hdir.
    by apply object_of_inj, path_in_inj in Heq. }
  split; [|split; [done |]].
  - rewrite Hrun. destruct (copy_ok (net E n)); cbn [fst].
    + split; [by intros [= ->] | by intros [_ ->]].
    + split; [done | by intros [? _]].
  - intros Htrue Hdir Hps Hpd st st0 c Hst0 Hsrc. specialize (Hne Hdir).
    rewrite Hrun in Htrue |- *.
    destruct (copy_ok (net E n)) eqn:Hcopy; [|done].
    cbn [fst snd] in *. injection Htrue as Hdel.
    rewrite store_after_app, Hst0.
    change (exchanges _) with
      [(copy_request E identifier file_name source_dir target_dir, net E n);
       (delete_request E identifier (path_in source_dir file_name),
        net E (S n))].
    unfold store_replay. cbn [foldl].
    rewrite store_step_copy by done. fold src dst. rewrite Hsrc.
    rewrite store_step_delete by done. fold src.
    apply delete_ok_accepted in Hdel as (s & p & -> & ->).
    eexists. split; [reflexivity |]. split; [|split].
    + rewrite lookup_delete_ne by done. apply lookup_insert_eq.
    + apply lookup_delete_eq.
    + intros k Hks Hkd. rewrite lookup_delete_ne by done.
      by rewrite lookup_insert_ne.
Qed.

Lemma move_file_moves_witness :
  let run := move_file (laptop []) "item" "a.txt" "docs" "archive" [] in
  ∃ st',
    store_after sample_store (snd run) = Some st'
    ∧ st' !! "/item/archive/a.txt" = Some [Byte.x61]
    ∧ st' !! "/item/docs/a.txt" = None.
Proof.
  intros run.
  destruct (move_file_moves (laptop []) "item" "a.txt" "docs" "archive" []
              eq_refl) as (_ & _ & Hmoved).
  destruct (Hmoved eq_refl ltac:(discriminate) eq_refl eq_refl
              sample_store sample_store [Byte.x61] eq_refl eq_refl)
    as (st' & Hafter & Hdst & Hsrc & _).
  by exists st'.
Defined.

(** ** [list_repository_files]: failures and the printed list *)

Lemma numbered_quiet (names : list string) (idx : nat) :
  exchanges (numbered idx names) = [] ∧ calls (numbered idx names) = [].
Proof.
  revert idx; induction names as [|n names IH]; intros idx; [done |].
  simpl. apply IH.
Qed.

Lemma numbered_In (names : list string) :
  ∀ (idx k : nat) (name : string),
    In (Print (FileLine k name)) (numbered idx names)
    ↔ (idx ≤ k)%nat ∧ names !! (k - idx)%nat = Some name.
Proof.
  induction names as [|n names IH]; intros idx k name; simpl.
  - split; [done | by intros [_ ?]].
  - rewrite IH. split.
    + intros [[= -> ->]|[Hle Hl]].
      * split; [lia |]. by rewrite Nat.sub_diag.
      * split; [lia |].
        by replace (k - idx)%nat with (S (k - S idx)) by lia.
    + intros [Hle Hl]. destruct (decide (k = idx)) as [->|Hne].
      * left. rewrite Nat.sub_diag in Hl. simpl in Hl. by injection Hl as ->.
      * right. split; [lia |].
        by replace (k - idx)%nat with (S (k - S idx)) in Hl by lia.
Qed.

Lemma list_repository_files_run (E : environment) (identifier : string)
    (log : list event) :
  let o := net E (length (exchanges log)) in
  let r := listing_request identifier in
  list_repository_files E identifier log
    = match o with
      | Response s p =>
          if s =? 200 then
            match p with
            | Json doc_files =>
                (Ret (kept_names doc_files),
                 log ++ [Wire r o; Call r (outcome_result o)]
                     ++ listing_lines (kept_names doc_files))
            | NoJson =>
                (Ret [],
                 log ++ [Wire r o; Call r (outcome_result o);
                         Print (ListingError ValueError)])
            end
          else
            (Ret [],
             log ++ [Wire r o; Call r (outcome_result o);
                     Print (MetadataFetchError s)])
      | Broken e =>
          (Ret [],
           log ++ [Wire r o; Call r (outcome_result o);
                   Print (ListingError e)])
      end.
Proof.
  intros o r. unfold list_repository_files, try_except. unfold bind at 1.
  rewrite requests_request_spec. fold o. fold r.
  destruct o as [s p|e]; cbn [outcome_result status_code fst].
  - destruct (s =? 200); cbn [negb].
    + unfold bind at 1, response_json. cbn [snd].
      destruct p as [|doc_files].
      * unfold raise, bind, print, emit, ret. by rewrite <- !app_assoc.
      * unfold ret at 1. rewrite foldl_collect_name. cbn [app].
        fold (kept_names doc_files). unfold listing_lines.
        destruct (kept_names doc_files) as [|k ks].
        -- unfold bind, print, emit, ret. by rewrite <- !app_assoc.
        -- unfold bind, print, emit, ret. rewrite print_file_lines_run.
           by rewrite <- !app_assoc.
    + unfold bind, print, emit, ret. by rewrite <- !app_assoc.
  - unfold bind, print, emit, ret. by rewrite <- !app_assoc.
Qed.

(** X9. [list_repository_files] always returns a list, never raises,
    and sends exactly one request, a GET of
    [https://archive.org/metadata/{identifier}] without headers.  The
    list is empty, after one error message, when the status is not 200
    (whatever the body), when the exchange is broken, and when the body
    of a 200 answer is not JSON; a 200 document without a [files]
    member gives the empty list and the no-files message. *)
Theorem list_repository_files_failures (E : environment) (identifier : string)
    (log : list event) :
  let n := length (exchanges log) in
  let r := listing_request identifier in
  let run := list_repository_files E identifier log in
  (∃ names, fst run = Ret names)
  ∧ exchanges (snd run) = exchanges log ++ [(r, net E n)]
  ∧ (∀ s p, net E n = Response s p → s ≠ 200 →
       fst run = Ret [] ∧ printed (snd run) = printed log ++ [MetadataFetchError s])
  ∧ (∀ e, net E n = Broken e →
       fst run = Ret [] ∧ printed (snd run) = printed log ++ [ListingError e])
  ∧ (net E n = Response 200 NoJson →
       fst run = Ret []
       ∧ printed (snd run) = printed log ++ [ListingError ValueError])
  ∧ (net E n = Response 200 (Json None) →
       fst run = Ret [] ∧ printed (snd run) = printed log ++ [NoFilesFound]).
Proof.
  intros n r run.
  pose proof (list_repository_files_run E identifier log) as Hrun.
  cbv zeta in Hrun. fold n r run in Hrun.
  split; [|split; [|split; [|split; [|split]]]].
  - rewrite Hrun. destruct (net E n) as [s [|d]|e]; [| |eauto];
      destruct (s =? 200); eauto.
  - rewrite Hrun. destruct (net E n) as [s [|d]|e]; [| |]; try destruct (s =? 200);
      cbn [snd]; rewrite ?exchanges_app; try done.
    destruct (kept_names d) as [|k ks]; [done |]. simpl.
    by destruct (numbered_quiet ks 2) as [-> _].
  - intros s p Hnet Hs. rewrite Hrun, Hnet.
    destruct (Z.eqb_spec s 200) as [|_]; [done |].
    cbn [fst snd]. by rewrite printed_app.
  - intros e Hnet. rewrite Hrun, Hnet. cbn [fst snd]. by rewrite printed_app.
  - intros Hnet. rewrite Hrun, Hnet. change (200 =? 200) with true.
    cbn [fst snd]. by rewrite printed_app.
  - intros Hnet. rewrite Hrun, Hnet. change (200 =? 200) with true.
    change (kept_names None) with (@nil string).
    cbn [fst snd listing_lines]. by rewrite !printed_app.
Qed.

Lemma list_repository_files_failures_witness :
  fst (list_repository_files (laptop [Response 404 listing_payload]) "item" [])
    = Ret [].
Proof.
  destruct (list_repository_files_failures
              (laptop [Response 404 listing_payload]) "item" [])
    as (_ & _ & Hstatus & _).
  by destruct (Hstatus 404 listing_payload eq_refl ltac:(discriminate)).
Defined.

(** ** The menu: delete and move by number *)

Lemma events_of_app (a b : list line) :
  events_of (a ++ b) = events_of a ++ events_of b.
Proof. apply omap_app. Qed.

Lemma said_app (a b : list line) : said (a ++ b) = said a ++ said b.
Proof. apply omap_app. Qed.

Lemma events_of_map (added : list event) : events_of (map Event added) = added.
Proof. induction added as [|e added IH]; [done |]. simpl. by rewrite IH. Qed.

Lemma said_map (added : list event) : said (map Event added) = [].
Proof. induction added as [|e added IH]; [done |]. by simpl. Qed.

Lemma lift_run {A} (m : M A) (tr : list line) (res : result A)
    (added : list event) :
  m (events_of tr) = (res, events_of tr ++ added) →
  lift m tr = (res, tr ++ map Event added).
Proof.
  intros Hm. unfold lift. rewrite Hm. by rewrite drop_app_length.
Qed.

Lemma list_repository_files_listed (E : environment) (identifier : string)
    (log : list event) (doc_files : option (list (gmap string string))) :
  net E (length (exchanges log)) = Response 200 (Json doc_files) →
  list_repository_files E identifier log
    = (Ret (kept_names doc_files),
       log ++ [Wire (listing_request identifier)
                 (Response 200 (Json doc_files));
               Call (listing_request identifier) (Ret (200, Json doc_files))]
           ++ listing_lines (kept_names doc_files)).
Proof.
  intros Hnet. pose proof (list_repository_files_run E identifier log) as Hrun.
  cbv zeta in Hrun. by rewrite Hnet in Hrun.
Qed.

Lemma listing_lines_quiet (kept : list string) :
  exchanges (listing_lines kept) = [] ∧ calls (listing_lines kept) = [].
Proof.
  destruct kept as [|k ks]; [done |]. simpl. apply numbered_quiet.
Qed.

Lemma list_repository_files_empty (E : environment) (identifier : string)
    (log : list event) :
  fst (list_repository_files E identifier log) = Ret [] →
  ∃ added,
    list_repository_files E identifier log = (Ret [], log ++ added)
    ∧ exchanges added
        = [(listing_request identifier, net E (length (exchanges log)))].
Proof.
  pose proof (list_repository_files_run E identifier log) as Hrun.
  cbv zeta in Hrun. rewrite Hrun.
  destruct (net E (length (exchanges log))) as [s [|d]|e];
    [| |]; try destruct (s =? 200); cbn [fst]; intros Hres;
    try (eexists; split; [reflexivity |]; reflexivity).
  injection Hres as Hres. rewrite Hres. eexists. split; [reflexivity |].
  rewrite exchanges_app. by destruct (listing_lines_quiet []) as [-> _].
Qed.

Lemma listed_trace_exchanges (tr : list line) (identifier : string)
    (doc_files : option (list (gmap string string))) (question : string) :
  exchanges (events_of (listed_trace tr identifier doc_files question))
    = exchanges (events_of tr)
        ++ [(listing_request identifier, Response 200 (Json doc_files))].
Proof.
  unfold listed_trace.
  rewrite !events_of_app, events_of_map, !exchanges_app.
  destruct (listing_lines_quiet (kept_names doc_files)) as [-> _].
  by rewrite !app_nil_r.
Qed.

Lemma listed_trace_said (tr : list line) (identifier : string)
    (doc_files : option (list (gmap string string))) (question : string) :
  said (listed_trace tr identifier doc_files question) = said tr ++ [question].
Proof.
  unfold listed_trace. rewrite !said_app, said_map. by rewrite app_nil_r.
Qed.

Lemma main_delete_run (E : environment) (identifier : string)
    (number : option Z) (tr : list line)
    (doc_files : option (list (gmap string string))) :
  keys_missing E = false →
  net E (length (exchanges (events_of tr))) = Response 200 (Json doc_files) →
  kept_names doc_files ≠ [] →
  let n := length (exchanges (events_of tr)) in
  let tr1 := listed_trace tr identifier doc_files
               "Enter the number of the file to delete:" in
  main_delete E identifier number tr
    = match number with
      | None => (Ret tt, tr1 ++ [Say "Invalid input."])
      | Some typed =>
          if in_range typed (length (kept_names doc_files)) then
            match kept_names doc_files !! Z.to_nat (typed - 1) with
            | Some name =>
                (Ret tt,
                 tr1 ++ map Event
                          [Wire (delete_request E identifier name)
                             (net E (S n));
                           Call (delete_request E identifier name)
                             (outcome_result (net E (S n)));
                           Print (delete_report name (net E (S n)))])
            | None => (Ret tt, tr1)
            end
          else (Ret tt, tr1 ++ [Say "Invalid index."])
      end.
Proof.
  intros Hk Hnet Hne n tr1. unfold main_delete. unfold bindT at 1.
  rewrite (lift_run _ tr _ _
             (list_repository_files_listed E identifier (events_of tr)
                doc_files Hnet)).
  assert (Hn1 : length (exchanges (events_of tr1)) = S n).
  { subst tr1. rewrite listed_trace_exchanges, length_app. simpl. subst n. lia. }
  revert Hn1. subst tr1. unfold listed_trace.
  destruct (kept_names doc_files) as [|k0 ks] eqn:Hkept; [done |].
  set (tr1 := (tr ++ _) ++ [Say _]). intros Hn1.
  unfold bindT at 1, say at 1. fold tr1.
  destruct number as [typed|]; [|done].
  unfold in_range.
  destruct ((0 <=? typed - 1) && (typed - 1 <? Z.of_nat (length (k0 :: ks))));
    [|done].
  destruct ((k0 :: ks) !! Z.to_nat (typed - 1)) as [name|]; [|done].
  unfold bindT.
  pose proof (delete_file_run E identifier name (events_of tr1) Hk) as Hdel.
  cbv zeta in Hdel. rewrite Hn1 in Hdel.
  by rewrite (lift_run _ tr1 _ _ Hdel).
Qed.

(** X10. In the delete branch of the menu, with the credentials set
    and a listing that keeps at least one name: a number [k] between 1
    and the length of the list makes the branch send one DELETE, for
    the name in position [k] of the list, which is the name that was
    printed in the line numbered [k]; any other number, or a text that
    is no number, gives a message and sends nothing after the GET. *)
Theorem main_delete_by_number (E : environment) (identifier : string)
    (number : option Z) (tr : list line)
    (doc_files : option (list (gmap string string))) :
  keys_missing E = false →
  net E (length (exchanges (events_of tr))) = Response 200 (Json doc_files) →
  kept_names doc_files ≠ [] →
  let n := length (exchanges (events_of tr)) in
  let kept := kept_names doc_files in
  let run := main_delete E identifier number tr in
  (∀ k name,
     number = Some k → 1 ≤ k → kept !! Z.to_nat (k - 1) = Some name →
     exchanges (events_of (snd run))
       = exchanges (events_of tr)
           ++ [(listing_request identifier, net E n);
               (delete_request E identifier name, net E (S n))]
     ∧ In (Print (FileLine (Z.to_nat k) name)) (events_of (snd run)))
  ∧ (∀ k, number = Some k → k < 1 ∨ Z.of_nat (length kept) < k →
     exchanges (events_of (snd run))
       = exchanges (events_of tr) ++ [(listing_request identifier, net E n)]
     ∧ said (snd run)
       = said tr ++ ["Enter the number of the file to delete:";
                     "Invalid index."])
  ∧ (number = None →
     exchanges (events_of (snd run))
       = exchanges (events_of tr) ++ [(listing_request identifier, net E n)]
     ∧ said (snd run)
       = said tr ++ ["Enter the number of the file to delete:";
                     "Invalid input."]).
Proof.
  intros Hk Hnet Hne n kept run.
  pose proof (main_delete_run E identifier number tr doc_files Hk Hnet Hne)
    as Hrun.
  cbv zeta in Hrun. fold n kept run in Hrun.
  split; [|split].
  - intros k name -> Hk1 Hl. rewrite Hl in Hrun.
    assert (Hin : in_range k (length kept) = true).
    { unfold in_range. apply lookup_lt_Some in Hl.
      apply andb_true_iff. split; [apply Z.leb_le | apply Z.ltb_lt]; lia. }
    rewrite Hin in Hrun. rewrite Hrun. cbn [snd].
    rewrite events_of_app, events_of_map, exchanges_app.
    rewrite listed_trace_exchanges. change (net E n) with (net E (length (exchanges (events_of tr)))).
    rewrite Hnet.
    split; [by rewrite <- app_assoc |].
    apply in_or_app. left. unfold listed_trace.
    rewrite !events_of_app, events_of_map.
    apply in_or_app. left. apply in_or_app. right.
    apply in_or_app. right. unfold listing_lines. fold kept.
    destruct kept as [|k0 ks] eqn:Hkept; [done |].
    right. apply numbered_In. split; [lia |].
    by replace (Z.to_nat k - 1)%nat with (Z.to_nat (k - 1)) by lia.
  - intros k -> Hout.
    assert (Hin : in_range k (length kept) = false).
    { unfold in_range. apply andb_false_iff.
      destruct Hout; [left; apply Z.leb_gt | right; apply Z.ltb_ge]; lia. }
    rewrite Hin in Hrun. rewrite Hrun. cbn [snd].
    rewrite events_of_app, exchanges_app, said_app.
    rewrite listed_trace_exchanges, listed_trace_said. change (net E n) with (net E (length (exchanges (events_of tr)))).
    rewrite Hnet.
    split; [by rewrite app_nil_r | by rewrite <- app_assoc].
  - intros ->. rewrite Hrun. cbn [snd].
    rewrite events_of_app, exchanges_app, said_app.
    rewrite listed_trace_exchanges, listed_trace_said. change (net E n) with (net E (length (exchanges (events_of tr)))).
    rewrite Hnet.
    split; [by rewrite app_nil_r | by rewrite <- app_assoc].
Qed.

Lemma main_delete_by_number_witness :
  map (λ x, (req_method x.1, req_url x.1))
    (exchanges (events_of
       (snd (main_delete (laptop [Response 200 listing_payload]) "item"
               (Some 1) []))))
    = [(GET, "https://archive.org/metadata/item");
       (DELETE, "https://s3.us.archive.org/item/a/b.jpg")].
Proof.
  destruct (main_delete_by_number (laptop [Response 200 listing_payload])
              "item" (Some 1) [] (Some [named "a/b.jpg";
                                        named "a/b.thumbs/c.jpg";
                                        named "x.thumbs"])
              eq_refl eq_refl ltac:(discriminate)) as (Hsel & _).
  destruct (Hsel 1 "a/b.jpg" eq_refl ltac:(lia) eq_refl) as [Hx _].
  rewrite Hx. reflexivity.
Defined.

Lemma path_in_blank (dir file_name : string) :
  path_in dir file_name = file_name ↔ dir = "".
Proof.
  split; [|by intros ->].
  intros H. apply (path_in_inj dir "" file_name). by rewrite H.
Qed.

(** X11. In the move branch of the menu, with the credentials set and
    a listing that keeps at least one name: a number [k] in range makes
    the branch call [move_file] with the whole listed name in position
    [k] as the file name.  The copy therefore names, as its source,
    the object [{source_dir}/{listed name}]: that is the listed object
    only when the source directory is left blank; the DELETE, sent only
    after an accepted copy, is for the same object as the copy
    source. *)
Theorem main_move_by_number (E : environment) (identifier : string)
    (number : option Z) (source_dir target_dir : string) (tr : list line)
    (doc_files : option (list (gmap string string))) :
  keys_missing E = false →
  net E (length (exchanges (events_of tr))) = Response 200 (Json doc_files) →
  kept_names doc_files ≠ [] →
  let n := length (exchanges (events_of tr)) in
  let kept := kept_names doc_files in
  let run := main_move E identifier number source_dir target_dir tr in
  ∀ k name,
    number = Some k → 1 ≤ k → kept !! Z.to_nat (k - 1) = Some name →
    let copy := copy_request E identifier name source_dir target_dir in
    let del := delete_request E identifier (path_in source_dir name) in
    exchanges (events_of (snd run))
      = exchanges (events_of tr)
          ++ [(listing_request identifier, net E n); (copy, net E (S n))]
          ++ (if copy_ok (net E (S n)) then [(del, net E (S (S n)))] else [])
    ∧ req_headers copy !! "x-amz-copy-source"
        = Some (object_of identifier (path_in source_dir name))
    ∧ object_key (req_url del)
        = Some (object_of identifier (path_in source_dir name))
    ∧ (object_of identifier (path_in source_dir name)
         = object_of identifier name ↔ source_dir = "").
Proof.
  intros Hk Hnet Hne n kept run k name -> Hk1 Hl copy del.
  split; [|split; [apply lookup_insert_eq |split; [apply object_key_s3 |]]].
  2: { split.
       - intros H%object_of_inj. by apply path_in_blank in H.
       - by intros ->. }
  set (tr1 := listed_trace tr identifier doc_files
                "Enter the number of the file to move:").
  assert (Hn1 : length (exchanges (events_of tr1)) = S n).
  { subst tr1. rewrite listed_trace_exchanges, length_app. simpl. subst n. lia. }
  assert (Hin : in_range k (length kept) = true).
  { unfold in_range. apply lookup_lt_Some in Hl.
    apply andb_true_iff. split; [apply Z.leb_le | apply Z.ltb_lt]; lia. }
  pose proof (move_file_run E identifier name source_dir target_dir
                (events_of tr1) Hk) as Hmove.
  cbv zeta in Hmove. rewrite Hn1 in Hmove. fold copy del in Hmove.
  assert (Hrun : ∃ added,
            run = (Ret tt, tr1 ++ map Event added)
            ∧ exchanges added
              = (copy, net E (S n))
                  :: (if copy_ok (net E (S n))
                      then [(del, net E (S (S n)))] else [])).
  { subst run. unfold main_move. unfold bindT at 1.
    rewrite (lift_run _ tr _ _
               (list_repository_files_listed E identifier (events_of tr)
                  doc_files Hnet)).
    revert Hmove. subst tr1. unfold listed_trace.
    unfold in_range in Hin. subst kept.
    destruct (kept_names doc_files) as [|k0 ks] eqn:Hkept; [done |].
    set (tr1 := (tr ++ _) ++ [Say _]). intros Hmove.
    unfold bindT at 1, say at 1. fold tr1. rewrite Hin, Hl.
    unfold bindT.
    destruct (copy_ok (net E (S n)));
      rewrite (lift_run _ tr1 _ _ Hmove); eexists; split; reflexivity. }
  destruct Hrun as (added & -> & Hx). cbn [snd].
  rewrite events_of_app, events_of_map, exchanges_app, Hx.
  subst tr1. rewrite listed_trace_exchanges.
  change (net E n) with (net E (length (exchanges (events_of tr)))).
  rewrite Hnet. by rewrite <- app_assoc.
Qed.

Lemma main_move_by_number_witness :
  map (λ x, (req_method x.1, req_url x.1,
             req_headers x.1 !! "x-amz-copy-source"))
    (exchanges (events_of
       (snd (main_move (laptop [Response 200 listing_payload]) "item"
               (Some 1) "a" "z" []))))
    = [(GET, "https://archive.org/metadata/item", None);
       (PUT, "https://s3.us.archive.org/item/z/a/b.jpg",
        Some "/item/a/a/b.jpg");
       (DELETE, "https://s3.us.archive.org/item/a/a/b.jpg", None)].
Proof.
  destruct (main_move_by_number (laptop [Response 200 listing_payload])
              "item" (Some 1) "a" "z" []
              (Some [named "a/b.jpg"; named "a/b.thumbs/c.jpg";
                     named "x.thumbs"])
              eq_refl eq_refl ltac:(discriminate) 1 "a/b.jpg" eq_refl
              ltac:(lia) eq_refl) as [Hx _].
  rewrite Hx. vm_compute. reflexivity.
Defined.

(** ** Permanent mode, step by step *)

Lemma relpath_top (rel : string) : relpath [] rel = rel.
Proof. reflexivity. Qed.

Lemma upload_one_run (E : environment) (identifier : string)
    (root : list string) (file_name : string) (f : file) (log : list event) :
  let rel := relpath root file_name in
  let o := net E (length (exchanges log)) in
  let r := file_put E identifier rel f in
  upload_one E identifier root file_name f log
    = if readable f then
        (Ret (goes_on o),
         log ++ [Print (UploadingFile rel); Wire r o; Call r (outcome_result o)]
             ++ file_report rel (Z.of_nat (length (content f))) o)
      else
        (Ret true,
         log ++ [Print (UploadingFile rel); Print (InitException OSError)]).
Proof.
  intros rel o r. unfold upload_one. fold rel. unfold try_except.
  unfold bind at 1, print at 1, emit at 1.
  destruct (readable f).
  - unfold bind at 1, ret at 1. unfold bind at 1.
    rewrite requests_request_spec.
    assert (Hlen : length (exchanges (log ++ [Print (UploadingFile rel)]))
                   = length (exchanges log)).
    { by rewrite exchanges_app, app_nil_r. }
    rewrite Hlen. fold o. unfold file_put in r. fold r.
    destruct o as [s p|e]; cbn [outcome_result status_code fst goes_on
                                 file_report].
    + destruct (s =? 200); cbn [negb]; unfold bind, print, emit, ret;
        by rewrite <- !app_assoc.
    + unfold bind, print, emit, ret. by rewrite <- !app_assoc.
  - unfold bind at 1, raise. unfold bind, print, emit, ret.
    by rewrite <- !app_assoc.
Qed.

Lemma upload_one_by_path (E : environment) (identifier : string)
    (root : list string) (file_name : string) (f : file) :
  upload_one E identifier root file_name f
    = upload_one E identifier [] (relpath root file_name) f.
Proof. reflexivity. Qed.

Lemma upload_files_listed (E : environment) (identifier : string)
    (root : list string) (files : list (string * file)) :
  ∀ log,
    upload_files E identifier root files log
      = upload_listed E identifier
          (map (λ nf : string * file, (relpath root nf.1, nf.2)) files) log.
Proof.
  induction files as [|[name f] files IH]; intros log; [done |].
  cbn [upload_files upload_listed map fst snd].
  rewrite upload_one_by_path. unfold bind.
  destruct (upload_one E identifier [] (relpath root name) f log)
    as [[[|]|e] log']; [apply IH | done | done].
Qed.

Lemma upload_listed_app (E : environment) (identifier : string)
    (a b : list (string * file)) :
  ∀ log,
    upload_listed E identifier (a ++ b) log
      = bind (upload_listed E identifier a)
          (λ go_on, if go_on then upload_listed E identifier b else ret false)
          log.
Proof.
  induction a as [|[rel f] a IH]; intros log.
  - simpl. unfold bind, ret. done.
  - cbn [app upload_listed]. unfold bind.
    destruct (upload_one E identifier [] rel f log) as [[[|]|e] log'];
      [|done|done].
    rewrite IH. done.
Qed.

Lemma upload_walk_listed (E : environment) (identifier : string)
    (items : list (list string * list string * list (string * file))) :
  ∀ log,
    upload_walk E identifier items log
      = upload_listed E identifier
          (flat_map (λ item : list string * list string
                               * list (string * file),
                       map (λ nf : string * file,
                              (relpath item.1.1 nf.1, nf.2)) item.2) items)
          log.
Proof.
  induction items as [|[[root dirs] files] items IH]; intros log; [done |].
  cbn [upload_walk flat_map fst snd]. rewrite upload_listed_app.
  unfold bind. rewrite upload_files_listed.
  destruct (upload_listed E identifier _ log) as [[[|]|e] log'];
    [apply IH | done | done].
Qed.

Lemma would_upload_walked (top : node) : would_upload top = map fst (walked top).
Proof.
  unfold would_upload, walked.
  induction (os_walk [] top) as [|[[root dirs] files] items IH]; [done |].
  cbn [flat_map fst snd]. rewrite map_app, IH. f_equal.
  by rewrite map_map.
Qed.

Lemma post_metadata_run (E : environment) (identifier : string)
    (metadata : gmap string string) (log : list event) :
  let o := net E (length (exchanges log)) in
  let r := metadata_post identifier metadata in
  post_metadata E identifier metadata log
    = (Ret tt,
       log ++ [Print AddingMetadata; Wire r o; Call r (outcome_result o);
               Print (metadata_report o)]).
Proof.
  intros o r. unfold post_metadata, try_except.
  unfold bind at 1, print at 1, emit at 1. unfold bind at 1.
  rewrite requests_request_spec.
  assert (Hlen : length (exchanges (log ++ [Print AddingMetadata]))
                 = length (exchanges log)).
  { by rewrite exchanges_app, app_nil_r. }
  rewrite Hlen. fold o. unfold metadata_post in r. fold r.
  destruct o as [s p|e]; cbn [outcome_result status_code fst metadata_report].
  - destruct (s =? 200); unfold print, emit; by rewrite <- !app_assoc.
  - unfold print, emit. by rewrite <- !app_assoc.
Qed.

Lemma file_report_quiet (rel : string) (size : Z) (o : outcome) :
  exchanges (file_report rel size o) = [].
Proof. destruct o as [s p|e]; [|done]. simpl. by destruct (s =? 200). Qed.

(** Every file readable and every PUT answered 200: the loop sends the
    files in order and goes on to the end. *)
Lemma upload_listed_accepted (E : environment) (identifier : string)
    (files : list (string * file)) :
  ∀ log,
    Forall (λ rf : string * file, readable rf.2 = true) files →
    (∀ i, (i < length files)%nat →
          ∃ p, net E (length (exchanges log) + i)%nat = Response 200 p) →
    ∃ added,
      upload_listed E identifier files log = (Ret true, log ++ added)
      ∧ exchanges added
          = file_puts E identifier (length (exchanges log)) files.
Proof.
  induction files as [|[rel f] files IH]; intros log Hread Hok.
  - exists []. simpl. unfold ret. by rewrite app_nil_r.
  - inversion Hread as [|? ? Hr Hrest]; subst. cbn [snd] in Hr.
    cbn [upload_listed]. unfold bind. rewrite upload_one_run. cbv zeta.
    rewrite Hr, relpath_top.
    destruct (Hok O ltac:(simpl; lia)) as [p Hp]. rewrite Nat.add_0_r in Hp.
    rewrite Hp. cbn [goes_on]. change (200 =? 200) with true. cbv iota.
    set (a1 := [Print (UploadingFile rel); _; _] ++ _).
    assert (Hx1 : exchanges a1
                  = [(file_put E identifier rel f, Response 200 p)]).
    { subst a1. rewrite exchanges_app, file_report_quiet. done. }
    destruct (IH (log ++ a1) Hrest) as (a2 & Hrun & Hx2).
    { intros i Hi. rewrite exchanges_app, Hx1, length_app. simpl.
      replace (length (exchanges log) + 1 + i)%nat
        with (length (exchanges log) + S i)%nat by lia.
      apply Hok. simpl. lia. }
    exists (a1 ++ a2). rewrite Hrun. split; [by rewrite app_assoc |].
    rewrite exchanges_app, Hx1, Hx2. cbn [file_puts app]. rewrite Hp.
    do 2 f_equal. rewrite exchanges_app, Hx1, length_app. simpl. lia.
Qed.

(** The files before position [k] accepted, the one at [k] answered by
    another status: the loop stops there. *)
Lemma upload_listed_refused (E : environment) (identifier : string)
    (files : list (string * file)) :
  ∀ (k : nat) (log : list event) (rel : string) (f : file) (s : Z) (p : payload),
    files !! k = Some (rel, f) →
    Forall (λ rf : string * file, readable rf.2 = true) (take (S k) files) →
    (∀ i, (i < k)%nat →
          ∃ q, net E (length (exchanges log) + i)%nat = Response 200 q) →
    net E (length (exchanges log) + k)%nat = Response s p → s ≠ 200 →
    ∃ added,
      upload_listed E identifier files log = (Ret false, log ++ added)
      ∧ exchanges added
          = file_puts E identifier (length (exchanges log)) (take (S k) files)
      ∧ last (printed added) = Some (InitUploadError rel s).
Proof.
  induction files as [|[rel0 f0] files IH];
    intros k log rel f s p Hl Hread Hok Hbad Hs; [done |].
  inversion Hread as [|? ? Hr Hrest]; subst. cbn [snd] in Hr.
  cbn [upload_listed]. unfold bind. rewrite upload_one_run. cbv zeta.
  rewrite Hr, relpath_top.
  destruct k as [|k].
  - injection Hl as -> ->. rewrite Nat.add_0_r in Hbad. rewrite Hbad.
    cbn [goes_on file_report outcome_result].
    destruct (Z.eqb_spec s 200) as [|_]; [done |].
    eexists. split; [reflexivity |].
    change (take 1 ((rel, f) :: files)) with [(rel, f)].
    cbn [file_puts]. split; [by rewrite Hbad | done].
  - destruct (Hok O ltac:(lia)) as [q Hq]. rewrite Nat.add_0_r in Hq.
    rewrite Hq. cbn [goes_on]. change (200 =? 200) with true. cbv iota.
    set (a1 := [Print (UploadingFile rel0); _; _] ++ _).
    assert (Hx1 : exchanges a1
                  = [(file_put E identifier rel0 f0, Response 200 q)]).
    { subst a1. rewrite exchanges_app, file_report_quiet. done. }
    assert (Hlen : length (exchanges (log ++ a1)) = S (length (exchanges log))).
    { rewrite exchanges_app, Hx1, length_app. simpl. lia. }
    destruct (IH k (log ++ a1) rel f s p Hl Hrest) as (a2 & Hrun & Hx2 & Hlast).
    + intros i Hi. rewrite Hlen.
      replace (S (length (exchanges log)) + i)%nat
        with (length (exchanges log) + S i)%nat by lia.
      apply Hok. lia.
    + rewrite Hlen.
      by replace (S (length (exchanges log)) + k)%nat
        with (length (exchanges log) + S k)%nat by lia.
    + done.
    + exists (a1 ++ a2). rewrite Hrun. split; [by rewrite app_assoc |].
      rewrite exchanges_app, Hx1, Hx2, Hlen. cbn [file_puts take app].
      rewrite Hq. split; [done |].
      rewrite printed_app. destruct (printed a2) as [|m ms] eqn:Hp2; [done |].
      rewrite last_app. by rewrite Hlast.
Qed.


Lemma file_puts_requests (E : environment) (identifier : string)
    (files : list (string * file)) :
  ∀ n, map fst (file_puts E identifier n files)
       = map (λ rf : string * file, file_put E identifier rf.1 rf.2) files.
Proof.
  induction files as [|[rel f] files IH]; intros n; [done |].
  cbn [file_puts map fst snd]. by rewrite IH.
Qed.

Lemma file_puts_length (E : environment) (identifier : string)
    (files : list (string * file)) :
  ∀ n, length (file_puts E identifier n files) = length files.
Proof.
  induction files as [|[rel f] files IH]; intros n; [done |].
  cbn [file_puts length]. by rewrite IH.
Qed.

(** X12. Permanent mode when nothing goes wrong. With both credentials
    set, every file under the folder readable and every PUT answered
    200, [initialize_repository] sends one PUT per file, in the order
    of the walk, each to the item's URL followed by the path of the file
    relative to the folder and with the whole file as its body, and
    after them exactly one POST of the metadata; the paths are those
    Test mode reports for the same folder; whatever the answer to the
    POST, the function returns normally and its last message reports
    that answer. *)
Theorem permanent_mode_uploads_then_posts (E : environment)
    (folder_path identifier : string) (metadata : gmap string string)
    (log : list event) :
  let files := walked (fs_tree E folder_path) in
  let n := length (exchanges log) in
  let run :=
    initialize_repository E folder_path identifier metadata Permanent log in
  keys_missing E = false →
  Forall (λ rf : string * file, readable rf.2 = true) files →
  (∀ i, (i < length files)%nat → ∃ p, net E (n + i)%nat = Response 200 p) →
  fst run = Ret tt
  ∧ exchanges (snd run)
      = exchanges log ++ file_puts E identifier n files
          ++ [(metadata_post identifier metadata,
               net E (n + length files)%nat)]
  ∧ map fst (file_puts E identifier n files)
      = map (λ rf : string * file,
               Request PUT
                 ("https://s3.us.archive.org/" +:+ identifier +:+ "/" +:+ rf.1)
                 (auth_headers E) (FileStream (content rf.2)) None) files
  ∧ map fst files = would_upload (fs_tree E folder_path)
  ∧ last (printed (snd run))
      = Some (metadata_report (net E (n + length files)%nat)).
Proof.
  intros files n run Hkeys Hread Hok. subst run.
  unfold initialize_repository. rewrite Hkeys. unfold bind.
  rewrite upload_walk_listed. fold (walked (fs_tree E folder_path)).
  fold files.
  destruct (upload_listed_accepted E identifier files log Hread Hok)
    as (added & Hrun & Hx).
  rewrite Hrun, post_metadata_run. cbv zeta. cbn [fst snd].
  assert (Hlen : length (exchanges (log ++ added))
                 = (n + length files)%nat).
  { rewrite exchanges_app, length_app, Hx, file_puts_length. done. }
  rewrite Hlen. split; [done |]. split.
  { rewrite !exchanges_app, Hx. fold n. by rewrite <- app_assoc. }
  split; [apply file_puts_requests |].
  split; [by rewrite would_upload_walked |].
  rewrite printed_app. simpl (printed [_; _; _; _]).
  change [AddingMetadata; ?m] with ([AddingMetadata] ++ [m]).
  by rewrite app_assoc, last_snoc.
Qed.

(** X13. Permanent mode stops at the first refused file. With both
    credentials set, when the files before some position of the walk
    are readable and their PUTs answered 200, and the readable file at
    that position is answered by any other status, the function sends
    the PUTs of the files up to and including that one and nothing
    else: no later file, no POST of the metadata, and no request that
    removes what was uploaded; its last message names that file and
    status. *)
Theorem permanent_mode_stops_at_refusal (E : environment)
    (folder_path identifier : string) (metadata : gmap string string)
    (log : list event) (k : nat) (rel : string) (f : file) (s : Z)
    (p : payload) :
  let files := walked (fs_tree E folder_path) in
  let n := length (exchanges log) in
  let run :=
    initialize_repository E folder_path identifier metadata Permanent log in
  keys_missing E = false →
  files !! k = Some (rel, f) →
  Forall (λ rf : string * file, readable rf.2 = true) (take (S k) files) →
  (∀ i, (i < k)%nat → ∃ q, net E (n + i)%nat = Response 200 q) →
  net E (n + k)%nat = Response s p →
  s ≠ 200 →
  fst run = Ret tt
  ∧ exchanges (snd run)
      = exchanges log ++ file_puts E identifier n (take (S k) files)
  ∧ map fst (file_puts E identifier n (take (S k) files))
      = map (λ rf : string * file, file_put E identifier rf.1 rf.2)
          (take (S k) files)
  ∧ length (exchanges (snd run)) = (n + S k)%nat
  ∧ last (printed (snd run)) = Some (InitUploadError rel s).
Proof.
  intros files n run Hkeys Hl Hread Hok Hbad Hs. subst run.
  unfold initialize_repository. rewrite Hkeys. unfold bind.
  rewrite upload_walk_listed. fold (walked (fs_tree E folder_path)).
  fold files.
  destruct (upload_listed_refused E identifier files k log rel f s p
              Hl Hread Hok Hbad Hs) as (added & Hrun & Hx & Hlast).
  rewrite Hrun. unfold ret. cbn [fst snd].
  split; [done |]. split; [by rewrite exchanges_app, Hx |].
  split; [apply file_puts_requests |]. split.
  - rewrite exchanges_app, length_app, Hx, file_puts_length, length_take.
    apply lookup_lt_Some in Hl. fold n. lia.
  - rewrite printed_app. destruct (printed added) as [|m ms]; [done |].
    rewrite last_app. by rewrite Hlast.
Qed.


Lemma permanent_mode_uploads_then_posts_witness :
  map (λ x, (req_method x.1, req_url x.1))
    (exchanges (snd (initialize_repository (desk credentials []) "/tmp/folder"
                       "item" sample_metadata Permanent [])))
    = [(PUT, "https://s3.us.archive.org/item/a.txt");
       (PUT, "https://s3.us.archive.org/item/sub/b.txt");
       (POST, "https://archive.org/metadata/item/metadata")].
Proof.
  destruct (permanent_mode_uploads_then_posts (desk credentials [])
              "/tmp/folder" "item" sample_metadata []) as (_ & Hx & _).
  - reflexivity.
  - repeat constructor.
  - intros i _. exists NoJson. by destruct i as [|[|i]].
  - rewrite Hx. vm_compute. reflexivity.
Defined.

Lemma permanent_mode_stops_at_refusal_witness :
  map (λ x, (req_method x.1, req_url x.1))
    (exchanges (snd (initialize_repository
                       (desk credentials [answered 403]) "/tmp/folder"
                       "item" sample_metadata Permanent [])))
    = [(PUT, "https://s3.us.archive.org/item/a.txt")].
Proof.
  destruct (permanent_mode_stops_at_refusal (desk credentials [answered 403])
              "/tmp/folder" "item" sample_metadata [] 0 "a.txt"
              (File true [Byte.x61]) 403 NoJson) as (_ & Hx & _).
  - reflexivity.
  - reflexivity.
  - repeat constructor.
  - intros i Hi. lia.
  - reflexivity.
  - discriminate.
  - rewrite Hx. vm_compute. reflexivity.
Defined.

(** ** The two services *)

Lemma issues_weaken {A} (P Q : request → Prop) (m : M A) :
  (∀ r, P r → Q r) → issues P m → issues Q m.
Proof.
  intros HPQ Hm log. destruct (Hm log) as (added & Hrun & Hx).
  exists added. split; [done |]. eapply Forall_impl; [exact Hx |].
  intros x. apply HPQ.
Qed.

Lemma upload_loop_sends (E : environment) (P : request → Prop)
    (chunk_size : Z) (file_path upload_url : string)
    (headers : gmap string string) (fuel : nat) (f : list Byte.byte) :
  (∀ chunk, P (Request PUT upload_url headers (Bytes chunk) (Some (60, 600)))) →
  issues P (upload_loop E chunk_size fuel file_path upload_url headers f).
Proof.
  intros HP. revert f; induction fuel as [|fuel IH]; intros f;
    cbn [upload_loop]; [apply issues_ret |].
  destruct (read chunk_size f) as [[|b chunk] f']; [apply issues_ret |].
  apply issues_bind; [apply issues_session_put, HP |].
  intros resp. destruct (negb _).
  - apply issues_bind; [apply issues_print | intros; apply issues_ret].
  - apply issues_bind; [apply issues_progress | intros; apply IH].
Qed.

Lemma auth_headers_authorization (E : environment) :
  auth_headers E !! "Authorization"
    = Some ("AWS " +:+ default "" (access_key E) +:+ ":"
              +:+ default "" (secret_key E)).
Proof. unfold auth_headers. by rewrite lookup_insert_eq. Qed.

Lemma delete_file_sends (E : environment) (identifier file_path : string) :
  issues (object_request E [DELETE]) (delete_file E identifier file_path).
Proof.
  unfold delete_file. destruct (keys_missing E).
  { apply issues_bind; [apply issues_print | intros; apply issues_ret]. }
  apply issues_try.
  - apply issues_bind.
    + apply issues_requests. split; [by left |]. split; [by eexists |].
      apply auth_headers_authorization.
    + intros resp. destruct (_ || _);
        (apply issues_bind; [apply issues_print | intros; apply issues_ret]).
  - intros e. apply issues_bind; [apply issues_print | intros; apply issues_ret].
Qed.

Lemma print_file_lines_sends (P : request → Prop) (names : list string) :
  ∀ idx, issues P (print_file_lines idx names).
Proof.
  induction names as [|name names IH]; intros idx; cbn [print_file_lines].
  - apply issues_ret.
  - apply issues_bind; [apply issues_print | intros; apply IH].
Qed.

Lemma report_walk_sends (P : request → Prop)
    (items : list (list string * list string * list (string * file))) :
  issues P (report_walk items).
Proof.
  induction items as [|[[root dirs] files] items IH]; cbn [report_walk].
  - apply issues_ret.
  - apply issues_bind; [| intros; apply IH].
    induction files as [|[name f] files IHf]; cbn [report_files].
    + apply issues_ret.
    + apply issues_bind; [apply issues_print | intros; apply IHf].
Qed.

Lemma upload_listed_sends (E : environment) (P : request → Prop)
    (identifier : string) (files : list (string * file)) :
  (∀ rel f, P (file_put E identifier rel f)) →
  issues P (upload_listed E identifier files).
Proof.
  intros HP. induction files as [|[rel f] files IH]; cbn [upload_listed].
  - apply issues_ret.
  - apply issues_bind.
    + intros log. rewrite upload_one_run. cbv zeta. rewrite relpath_top.
      destruct (readable f); cbn [snd].
      * eexists. split; [reflexivity |].
        rewrite exchanges_app, file_report_quiet. simpl.
        constructor; [apply HP | constructor].
      * eexists. split; [reflexivity |]. constructor.
    + intros [|]; [apply IH | apply issues_ret].
Qed.

(** X14. Which service each function talks to. Whatever the
    environment and the arguments, [upload_file_with_progress] sends
    only PUTs, [delete_file] only DELETEs and [move_file] only PUTs and
    DELETEs, all to addresses under [https://s3.us.archive.org/] and
    with the [Authorization] header made of the two keys;
    [list_repository_files] sends only GETs to addresses under
    [https://archive.org/metadata/] and with no header; and
    [initialize_repository] sends only such PUTs to the store and POSTs
    without any header to the metadata service.  So the keys are never
    sent to the metadata service, and neither an upload nor an
    initialization ever sends a DELETE. *)
Theorem requests_by_service (E : environment)
    (identifier file_path directory file_name source_dir target_dir
       folder_path : string)
    (metadata : gmap string string) (md : mode) :
  issues (object_request E [PUT])
    (upload_file_with_progress E identifier file_path directory)
  ∧ issues (object_request E [DELETE]) (delete_file E identifier file_path)
  ∧ issues (object_request E [PUT; DELETE])
      (move_file E identifier file_name source_dir target_dir)
  ∧ issues (metadata_request GET) (list_repository_files E identifier)
  ∧ issues (λ r, object_request E [PUT] r ∨ metadata_request POST r)
      (initialize_repository E folder_path identifier metadata md).
Proof.
  split; [| split; [apply delete_file_sends | split; [| split]]].
  - unfold upload_file_with_progress, os_path_getsize, open_rb.
    destruct (keys_missing E).
    { apply issues_bind; [apply issues_print | intros; apply issues_ret]. }
    apply issues_bind.
    { destruct (fs_file E file_path); [apply issues_ret | apply issues_raise]. }
    intros size. apply issues_try.
    + apply issues_bind.
      { destruct (fs_file E file_path) as [f|]; [| apply issues_raise].
        destruct (readable f); [apply issues_ret | apply issues_raise]. }
      intros f. apply issues_bind.
      * apply upload_loop_sends. intros chunk.
        split; [by left |]. split; [by eexists |].
        apply auth_headers_authorization.
      * intros [|]; [| apply issues_ret].
        apply issues_bind; [apply issues_print | intros; apply issues_ret].
    + intros e. unfold upload_handlers.
      destruct e; cbn;
        (apply issues_bind; [apply issues_print | intros; apply issues_ret]).
  - unfold move_file. destruct (keys_missing E).
    { apply issues_bind; [apply issues_print | intros; apply issues_ret]. }
    cbv zeta. apply issues_try.
    + apply issues_bind.
      * apply issues_requests. split; [by left |]. split; [by eexists |].
        cbn [req_headers]. rewrite lookup_insert_ne by done.
        apply auth_headers_authorization.
      * intros resp. destruct (negb _).
        { apply issues_bind; [apply issues_print | intros; apply issues_ret]. }
        apply issues_bind; [apply issues_print | intros _].
        apply issues_bind.
        { eapply issues_weaken; [| apply delete_file_sends].
          intros r (Hm & Hrest). split; [| exact Hrest].
          destruct Hm as [<-|[]]. right. by left. }
        intros [|];
          (apply issues_bind; [apply issues_print | intros; apply issues_ret]).
    + intros e. apply issues_bind; [apply issues_print | intros; apply issues_ret].
  - unfold list_repository_files, response_json. apply issues_try.
    + apply issues_bind.
      * apply issues_requests. split; [done |]. split; [by eexists | done].
      * intros resp. destruct (negb _).
        { apply issues_bind; [apply issues_print | intros; apply issues_ret]. }
        apply issues_bind.
        { destruct (snd resp); first [apply issues_ret | apply issues_raise]. }
        intros data_files. cbv zeta.
        destruct (foldl collect_name [] (default [] data_files)).
        { apply issues_bind; [apply issues_print | intros; apply issues_ret]. }
        apply issues_bind; [apply issues_print | intros _].
        apply issues_bind; [apply print_file_lines_sends |].
        intros; apply issues_ret.
    + intros e. apply issues_bind; [apply issues_print | intros; apply issues_ret].
  - unfold initialize_repository.
    destruct (keys_missing E); [apply issues_print |].
    destruct md.
    + repeat (apply issues_bind; [apply issues_print | intros _]).
      apply issues_bind; [apply report_walk_sends | intros _].
      apply issues_print.
    + apply issues_bind.
      * intros log. rewrite upload_walk_listed.
        apply (upload_listed_sends E
                 (λ r, object_request E [PUT] r ∨ metadata_request POST r)).
        intros rel f. left.
        split; [by left |]. split; [by eexists |].
        apply auth_headers_authorization.
      * intros [|]; [| apply issues_ret].
        intros log. rewrite post_metadata_run. cbv zeta. cbn [snd].
        eexists. split; [reflexivity |]. simpl.
        constructor; [| constructor]. right.
        split; [done |]. split; [by eexists | done].
Qed.


(** ** The metadata asked at the prompts *)

Lemma say_all_run (texts : list string) :
  ∀ tr, say_all texts tr = (Ret tt, tr ++ map Say texts).
Proof.
  induction texts as [|text texts IH]; intros tr; cbn [say_all map].
  - unfold retT. by rewrite app_nil_r.
  - unfold bindT, say. rewrite IH. by rewrite <- app_assoc.
Qed.

(** X15. What [prompt_metadata] returns. It always returns a mapping,
    after printing its lines. No value of the mapping is empty: an
    answer left blank is dropped. Each of the eight text fields is in
    the mapping exactly when its answer is not blank, with that answer.
    [test_item] is in the mapping only with the value [true], and
    exactly when the answer, in lower case, is [yes]; any other answer
    leaves it out, and an answer that is neither [yes] nor [no] is
    reported as invalid. *)
Theorem prompt_metadata_result (a : answers) (tr : list line) :
  ∃ metadata lines,
    prompt_metadata a tr = (Ret metadata, tr ++ map Say lines)
    ∧ (∀ k v, metadata !! k = Some v → v ≠ "")
    ∧ metadata !! "test_item"
        = (if String.eqb (test_item a) "yes" then Some "true" else None)
    ∧ (∀ k v, k ≠ "test_item" →
         (metadata !! k = Some v ↔ v ≠ "" ∧ In (k, v) (text_answers a)))
    ∧ (In "Invalid input for test item. Assuming 'no'." lines
       ↔ test_item a ≠ "yes" ∧ test_item a ≠ "no").
Proof.
  unfold prompt_metadata. cbv zeta.
  rewrite lookup_insert_eq. cbn [default from_option]. unfold id.
  set (texts := <["subject" := subject a]> _).
  assert (Htexts : ∀ k v, k ≠ "test_item" →
            (texts !! k = Some v ↔ In (k, v) (text_answers a))).
  { intros k v Hk. subst texts. unfold text_answers. cbn [In].
    rewrite !lookup_insert_Some, lookup_singleton_Some.
    split.
    - intros H. repeat (destruct H as [[<- <-]|[? H]]; [tauto |]).
      destruct H as [<- <-]. tauto.
    - intros H.
      repeat (destruct H as [H|H];
              [injection H as <- <-;
               repeat (first [left; split; [reflexivity | reflexivity]
                             | right; split; [discriminate |]]);
               try (split; reflexivity) |]).
      destruct H. }
  assert (Hnone : texts !! "test_item" = None).
  { subst texts. by rewrite !lookup_insert_ne, lookup_singleton_ne. }
  unfold bindT at 1, say at 1. unfold bindT at 1, say at 1.
  unfold bindT at 1. rewrite say_all_run.
  unfold bindT at 1, say at 1.
  assert (Hfilter : ∀ (m : gmap string string) k v,
            filter (λ kv : string * string, kv.2 ≠ "") m !! k = Some v
            ↔ m !! k = Some v ∧ v ≠ "").
  { intros m k v. by rewrite map_lookup_filter_Some. }
  destruct (String.eqb_spec (test_item a) "yes") as [Hyes|Hyes].
  - unfold bindT, retT.
    eexists _, ([_; _] ++ collection_options ++ [_]). split.
    { rewrite <- !app_assoc, !map_app. simpl. reflexivity. }
    split; [intros k v; rewrite Hfilter; tauto |].
    split.
    { apply Hfilter. by rewrite lookup_insert_eq. }
    split.
    { intros k v Hk. rewrite Hfilter, !lookup_insert_ne by done.
      rewrite Htexts by done. tauto. }
    split.
    + intros Hin. exfalso. vm_compute in Hin. intuition discriminate.
    + intros [H _]. done.
  - destruct (String.eqb_spec (test_item a) "no") as [Hno|Hno].
    + unfold bindT, retT.
      eexists _, ([_; _] ++ collection_options ++ [_]). split.
      { rewrite <- !app_assoc, !map_app. simpl. reflexivity. }
      split; [intros k v; rewrite Hfilter; tauto |].
      split.
      { apply map_lookup_filter_None. left. by rewrite lookup_delete_eq. }
      split.
      { intros k v Hk. rewrite Hfilter, lookup_delete_ne by done.
        rewrite lookup_insert_ne by done. rewrite Htexts by done. tauto. }
      split.
      * intros Hin. exfalso. vm_compute in Hin. intuition discriminate.
      * intros [_ H]. done.
    + unfold bindT, say, retT.
      eexists _, ([_; _] ++ collection_options ++ [_; _]). split.
      { rewrite <- !app_assoc, !map_app. simpl. reflexivity. }
      split; [intros k v; rewrite Hfilter; tauto |].
      split.
      { apply map_lookup_filter_None. left. by rewrite lookup_delete_eq. }
      split.
      { intros k v Hk. rewrite Hfilter, lookup_delete_ne by done.
        rewrite lookup_insert_ne by done. rewrite Htexts by done. tauto. }
      split; [done |]. intros _. rewrite !in_app_iff. right. right.
      right. by left.
Qed.


(** ** The rules file *)

Lemma lists_entry_with_entry (p : nat) (name : string) (f : file)
    (entries : list (string * node)) :
  lists_entry name (DirNode (with_entry p name f entries)) = true.
Proof.
  unfold lists_entry, entry_names, with_entry.
  rewrite map_app, existsb_app. cbn [map existsb fst].
  rewrite String.eqb_refl. by rewrite orb_true_r.
Qed.

Lemma filter_unlisted (name : string) (entries : list (string * node)) :
  lists_entry name (DirNode entries) = false →
  List.filter (λ e : string * node, negb (String.eqb name e.1)) entries
    = entries.
Proof.
  unfold lists_entry, entry_names.
  induction entries as [|[n t] entries IH]; [done |].
  cbn [map existsb fst List.filter]. intros H.
  apply orb_false_iff in H as [-> H]. cbn [negb]. by rewrite IH.
Qed.

Lemma with_entry_others (p : nat) (name : string) (f : file)
    (entries : list (string * node)) :
  lists_entry name (DirNode entries) = false →
  List.filter (λ e : string * node, negb (String.eqb name e.1))
    (with_entry p name f entries) = entries.
Proof.
  intros H. unfold with_entry. rewrite List.filter_app.
  cbn [List.filter fst]. rewrite String.eqb_refl. cbn [negb].
  rewrite <- List.filter_app, take_drop. by apply filter_unlisted.
Qed.

Lemma written_tree (E : environment) (folder_path : string) (top : node)
    (path : string) (f : file) :
  fs_tree (written E folder_path top path f) folder_path = top.
Proof. unfold written. cbn [fs_tree]. by rewrite String.eqb_refl. Qed.

Lemma written_file (E : environment) (folder_path : string) (top : node)
    (path : string) (f : file) :
  fs_file (written E folder_path top path f) path = Some f.
Proof. unfold written. cbn [fs_file]. by rewrite String.eqb_refl. Qed.

Lemma create_rules_file_kept (E : environment) (c : creation)
    (folder_path : string) (tr : list line) :
  lists_entry "_rules.conf" (fs_tree E folder_path) = true →
  create_rules_file E c folder_path tr = (Ret E, tr ++ [Say rules_kept]).
Proof. intros H. unfold create_rules_file. by rewrite H. Qed.

Lemma create_rules_file_created (E : environment) (c : creation)
    (folder_path : string) (tr : list line) (entries : list (string * node)) :
  fs_tree E folder_path = DirNode entries →
  lists_entry "_rules.conf" (DirNode entries) = false →
  permitted c = true →
  create_rules_file E c folder_path tr
    = (Ret (after_creation E c folder_path entries),
       tr ++ [Say rules_missing; Say rules_created]).
Proof.
  intros Ht Hl Hp. unfold create_rules_file. rewrite Ht, Hl, Hp.
  cbn [negb]. unfold bindT, say, retT. by rewrite <- app_assoc.
Qed.

(** X16. [create_rules_file] creates the rules file once and never
    overwrites. When the folder already lists [_rules.conf] the
    function says so and leaves everything as it was. When the folder
    is a directory that does not list it and the file can be created,
    the function returns after its two messages, the folder then lists
    [_rules.conf], a readable file holding [CAT.ALL] and a line feed,
    beside the entries it had, which are unchanged and in the same
    order, and a second call changes nothing and says the file exists.
    When the file cannot be created, or the path is no directory, the
    [OSError] of [open] leaves the function, after the first message. *)
Theorem create_rules_file_creates_once (E : environment) (c : creation)
    (folder_path : string) (tr : list line) :
  let run := create_rules_file E c folder_path tr in
  (lists_entry "_rules.conf" (fs_tree E folder_path) = true →
   run = (Ret E, tr ++ [Say rules_kept]))
  ∧ (∀ entries,
       fs_tree E folder_path = DirNode entries →
       lists_entry "_rules.conf" (DirNode entries) = false →
       permitted c = true →
       ∃ E' entries',
         run = (Ret E', tr ++ [Say rules_missing; Say rules_created])
         ∧ fs_tree E' folder_path = DirNode entries'
         ∧ In ("_rules.conf", FileNode (File true rules_text)) entries'
         ∧ List.filter (λ e : string * node,
                          negb (String.eqb "_rules.conf" e.1)) entries'
             = entries
         ∧ fs_file E' (os_path_join folder_path "_rules.conf")
             = Some (File true rules_text)
         ∧ getenv E' = getenv E ∧ net E' = net E
         ∧ create_rules_file E' c folder_path (snd run)
             = (Ret E', snd run ++ [Say rules_kept]))
  ∧ (lists_entry "_rules.conf" (fs_tree E folder_path) = false →
     permitted c = false ∨ os_path_isdir E folder_path = false →
     run = (Raise OSError, tr ++ [Say rules_missing])).
Proof.
  intros run. split; [apply create_rules_file_kept |]. split.
  - intros entries Ht Hl Hp.
    exists (after_creation E c folder_path entries),
           (with_entry (place c) "_rules.conf" rules_file entries).
    subst run. rewrite (create_rules_file_created _ _ _ _ _ Ht Hl Hp).
    split; [done |]. split; [apply written_tree |]. split.
    { unfold with_entry. apply in_app_iff. right. by left. }
    split; [by apply with_entry_others |].
    split; [apply written_file |]. split; [done |]. split; [done |].
    apply create_rules_file_kept. unfold after_creation.
    rewrite written_tree. apply lists_entry_with_entry.
  - intros Hl Hno. subst run. unfold create_rules_file. rewrite Hl.
    cbn [negb]. unfold bindT at 1, say at 1. unfold bindT, raiseT.
    unfold os_path_isdir in Hno.
    destruct (fs_tree E folder_path) as [f|entries]; [done |].
    destruct Hno as [-> | Hno]; [done | discriminate].
Qed.

Lemma create_rules_file_creates_once_witness :
  ∃ E' entries',
    fst (create_rules_file (office []) (Creation true 1) "/tmp/folder" [])
      = Ret E'
    ∧ fs_tree E' "/tmp/folder" = DirNode entries'
    ∧ In ("_rules.conf", FileNode (File true rules_text)) entries'.
Proof.
  destruct (create_rules_file_creates_once (office []) (Creation true 1)
              "/tmp/folder" []) as (_ & Hcreate & _).
  destruct (Hcreate _ eq_refl eq_refl eq_refl)
    as (E' & entries' & Hrun & Htree & Hin & _).
  exists E', entries'. rewrite Hrun. split; [reflexivity |]. by split.
Defined.


(** ** Choice 5: the folder, the rules file and the initialization *)

Lemma prompt_metadata_run (a : answers) (tr : list line) :
  prompt_metadata a tr = (Ret (metadata_of a), tr ++ prompt_lines a)
  ∧ events_of (prompt_lines a) = [].
Proof.
  unfold metadata_of, prompt_lines, prompt_metadata. cbv zeta.
  rewrite lookup_insert_eq. cbn [default from_option]. unfold id.
  unfold bindT at 1 7, say at 1 5. unfold bindT at 1 6, say at 1 4.
  unfold bindT at 1 5. rewrite !say_all_run.
  unfold bindT at 1 4, say at 1 3.
  destruct (String.eqb (test_item a) "yes").
  - unfold bindT, retT. cbn [fst snd]. split; [| reflexivity].
    by rewrite <- !app_assoc.
  - destruct (String.eqb (test_item a) "no").
    + unfold bindT, retT. cbn [fst snd]. split; [| reflexivity].
      by rewrite <- !app_assoc.
    + unfold bindT, say, retT. cbn [fst snd]. split; [| reflexivity].
      by rewrite <- !app_assoc.
Qed.


Lemma test_mode_run (E : environment) (folder_path identifier : string)
    (metadata : gmap string string) (log : list event) :
  keys_missing E = false →
  initialize_repository E folder_path identifier metadata Test log
    = (Ret tt,
       log ++ ([Print TestBanner; Print (TestFolder folder_path);
                Print (TestIdentifier identifier);
                Print (TestMetadata metadata); Print TestFilesHeader]
                 ++ map (λ p, Print (WouldUpload p))
                      (would_upload (fs_tree E folder_path))
                 ++ [Print TestComplete])).
Proof.
  intros Hk. unfold initialize_repository. rewrite Hk.
  unfold bind, print, emit. rewrite report_walk_run.
  by rewrite <- !app_assoc.
Qed.

Lemma would_upload_quiet (paths : list string) :
  exchanges (map (λ p, Print (WouldUpload p)) paths) = [].
Proof. induction paths as [|p paths IH]; [done |]. by simpl. Qed.

Lemma permanent_mode_accepted_run (E : environment)
    (folder_path identifier : string) (metadata : gmap string string)
    (log : list event) :
  let files := walked (fs_tree E folder_path) in
  let n := length (exchanges log) in
  keys_missing E = false →
  Forall (λ rf : string * file, readable rf.2 = true) files →
  (∀ i, (i < length files)%nat → ∃ p, net E (n + i)%nat = Response 200 p) →
  ∃ added,
    initialize_repository E folder_path identifier metadata Permanent log
      = (Ret tt, log ++ added)
    ∧ exchanges added
        = file_puts E identifier n files
            ++ [(metadata_post identifier metadata,
                 net E (n + length files)%nat)].
Proof.
  intros files n Hkeys Hread Hok.
  unfold initialize_repository. rewrite Hkeys. unfold bind.
  rewrite upload_walk_listed. fold (walked (fs_tree E folder_path)).
  fold files.
  destruct (upload_listed_accepted E identifier files log Hread Hok)
    as (added & Hrun & Hx).
  rewrite Hrun, post_metadata_run. cbv zeta.
  eexists. split; [by rewrite <- app_assoc |].
  rewrite exchanges_app, Hx. simpl. do 3 f_equal.
  rewrite exchanges_app, length_app, Hx, file_puts_length. done.
Qed.

Lemma walked_with_entry (p : nat) (name : string) (f : file)
    (entries : list (string * node)) :
  ∃ before after,
    walked (DirNode entries) = before ++ after
    ∧ walked (DirNode (with_entry p name f entries))
        = before ++ (name, f) :: after.
Proof.
  unfold walked. cbn [os_walk flat_map fst snd].
  set (h := λ nf : string * file, (relpath [] nf.1, nf.2)).
  set (F := λ item : list string * list string * list (string * file),
              map (λ nf : string * file, (relpath item.1.1 nf.1, nf.2)) item.2).
  set (G := λ e : string * node, let (n, sub) := e in os_walk ([] ++ [n]) sub).
  exists (map h (filenames (take p entries))),
         (map h (filenames (drop p entries)) ++ flat_map F (flat_map G entries)).
  split.
  - rewrite app_assoc, <- map_app. unfold filenames.
    by rewrite <- omap_app, take_drop.
  - unfold with_entry, filenames. rewrite omap_app. cbn [omap].
    rewrite map_app. cbn [map]. rewrite <- app_assoc. cbn [app].
    do 3 f_equal. rewrite flat_map_app. cbn [flat_map G os_walk app].
    by rewrite <- flat_map_app, take_drop.
Qed.

Lemma file_puts_In (E : environment) (identifier rel : string) (f : file)
    (files : list (string * file)) (n : nat) :
  In (rel, f) files →
  In (file_put E identifier rel f) (map fst (file_puts E identifier n files)).
Proof.
  intros Hin. rewrite file_puts_requests.
  apply in_map_iff. by exists (rel, f).
Qed.


Lemma upload_listed_returns (E : environment) (identifier : string)
    (files : list (string * file)) :
  ∀ log, ∃ b log', upload_listed E identifier files log = (Ret b, log').
Proof.
  induction files as [|[rel f] files IH]; intros log; cbn [upload_listed].
  - by exists true, log.
  - unfold bind. rewrite upload_one_run. cbv zeta.
    destruct (readable f); [| apply IH].
    destruct (goes_on _); [apply IH |]. by eexists _, _.
Qed.

Lemma initialize_repository_returns (E : environment)
    (folder_path identifier : string) (metadata : gmap string string)
    (md : mode) (log : list event) :
  ∃ log',
    initialize_repository E folder_path identifier metadata md log
      = (Ret tt, log').
Proof.
  unfold initialize_repository.
  destruct (keys_missing E) eqn:Hk; [by eexists |].
  destruct md.
  - pose proof (test_mode_run E folder_path identifier metadata log Hk) as H.
    unfold initialize_repository in H. rewrite Hk in H. by eexists.
  - unfold bind. rewrite upload_walk_listed.
    destruct (upload_listed_returns E identifier
                (flat_map (λ item : list string * list string
                                     * list (string * file),
                             map (λ nf : string * file,
                                    (relpath item.1.1 nf.1, nf.2)) item.2)
                   (os_walk [] (fs_tree E folder_path))) log)
      as (b & log' & ->).
    destruct b; [| by eexists]. rewrite post_metadata_run. by eexists.
Qed.

Lemma file_puts_ext (E E' : environment) (identifier : string)
    (files : list (string * file)) :
  getenv E' = getenv E → net E' = net E →
  ∀ n, file_puts E' identifier n files = file_puts E identifier n files.
Proof.
  intros Hg Hn. induction files as [|[rel f] files IH]; intros n; [done |].
  cbn [file_puts]. rewrite IH, Hn. do 2 f_equal.
  unfold file_put, auth_headers, access_key, secret_key. by rewrite Hg.
Qed.

Lemma main_create_run (E : environment) (c : creation)
    (folder_path mode_choice : string) (a : answers) (identifier : string)
    (tr : list line) (entries : list (string * node)) (md : mode) :
  fs_tree E folder_path = DirNode entries →
  lists_entry "_rules.conf" (DirNode entries) = false →
  permitted c = true →
  mode_of mode_choice = Some md →
  let E' := after_creation E c folder_path entries in
  let tr' := tr ++ create_lines a in
  main_create E c folder_path mode_choice a identifier tr
    = match identifier with
      | EmptyString =>
          (Ret E', tr' ++ [Say "Repository identifier is required."])
      | String _ _ =>
          bindT (lift (initialize_repository E' folder_path identifier
                         (metadata_of a) md))
            (λ _, retT E') tr'
      end
  ∧ events_of tr' = events_of tr.
Proof.
  intros Ht Hl Hp Hmd E' tr'. split.
  - unfold main_create, os_path_isdir. rewrite Ht. cbn [negb].
    unfold mode_of in Hmd. rewrite Hmd.
    unfold bindT at 1, say at 1. unfold bindT at 1, say at 1.
    unfold bindT at 1, say at 1. unfold bindT at 1.
    destruct (prompt_metadata_run a
                (((tr ++ [Say (nl +:+ "Choose mode:")])
                    ++ [Say "1. Test Mode (simulate actions)"])
                   ++ [Say "2. Permanent Mode (execute actions)"]))
      as [-> _].
    unfold bindT at 1.
    rewrite (create_rules_file_created _ _ _ _ _ Ht Hl Hp).
    fold E'.
    assert (Htr : ((((tr ++ [Say (nl +:+ "Choose mode:")])
                      ++ [Say "1. Test Mode (simulate actions)"])
                     ++ [Say "2. Permanent Mode (execute actions)"])
                    ++ prompt_lines a) ++ [Say rules_missing; Say rules_created]
                  = tr').
    { subst tr'. unfold create_lines. by rewrite <- !app_assoc. }
    rewrite Htr. destruct identifier as [|ch rest]; [| done].
    unfold bindT, say, retT. done.
  - subst tr'. unfold create_lines. rewrite !events_of_app.
    destruct (prompt_metadata_run a []) as [_ ->]. simpl.
    by rewrite app_nil_r.
Qed.

(** X17. Choice 5 of the menu creates the rules file before it walks
    the folder. For a folder that is a directory without
    [_rules.conf], where the file can be created, and with both
    credentials set: with either mode chosen the branch leaves the
    folder with the rules file in it, also in Test mode and also when
    the identifier is then left blank. In Test mode nothing goes on the
    wire and the files reported include [_rules.conf]. In Permanent
    mode, when the files of the folder are readable and every answer is
    200, the PUTs are those of the files of the folder with the rules
    file among them, sent to
    [https://s3.us.archive.org/{identifier}/_rules.conf] with
    [CAT.ALL] as its body, and the POST carries the metadata that
    [prompt_metadata] returned. With a blank identifier, or a mode
    choice other than 1 and 2, nothing goes on the wire; in the latter
    case no file is created either. *)
Theorem main_create_uploads_rules_file (E : environment) (c : creation)
    (folder_path mode_choice : string) (a : answers) (identifier : string)
    (tr : list line) (entries : list (string * node)) :
  fs_tree E folder_path = DirNode entries →
  lists_entry "_rules.conf" (DirNode entries) = false →
  permitted c = true →
  keys_missing E = false →
  let top' := with_rules c entries in
  let E' := after_creation E c folder_path entries in
  let n := length (exchanges (events_of tr)) in
  let run := main_create E c folder_path mode_choice a identifier tr in
  (mode_choice = "1" ∨ mode_choice = "2" →
   fst run = Ret E' ∧ fs_tree E' folder_path = top'
   ∧ In "_rules.conf" (would_upload top'))
  ∧ (mode_choice = "1" → identifier ≠ "" →
     exchanges (events_of (snd run)) = exchanges (events_of tr)
     ∧ ∀ p, In p (would_upload top') →
            In (Print (WouldUpload p)) (events_of (snd run)))
  ∧ (mode_choice = "2" → identifier ≠ "" →
     Forall (λ rf : string * file, readable rf.2 = true)
       (walked (DirNode entries)) →
     (∀ i, (i ≤ length (walked (DirNode entries)))%nat →
           ∃ p, net E (n + i)%nat = Response 200 p) →
     exchanges (events_of (snd run))
       = exchanges (events_of tr)
           ++ file_puts E identifier n (walked top')
           ++ [(metadata_post identifier (metadata_of a),
                net E (n + length (walked top'))%nat)]
     ∧ In (Request PUT
             ("https://s3.us.archive.org/" +:+ identifier +:+ "/_rules.conf")
             (auth_headers E) (FileStream rules_text) None)
          (map fst (file_puts E identifier n (walked top'))))
  ∧ (mode_choice = "1" ∨ mode_choice = "2" → identifier = "" →
     exchanges (events_of (snd run)) = exchanges (events_of tr)
     ∧ last (said (snd run)) = Some "Repository identifier is required.")
  ∧ (mode_choice ≠ "1" → mode_choice ≠ "2" →
     fst run = Ret E
     ∧ exchanges (events_of (snd run)) = exchanges (events_of tr)
     ∧ last (said (snd run)) = Some "Invalid choice. Exiting.").
Proof.
  intros Ht Hl Hp Hkeys top' E' n run.
  assert (Hwalk := walked_with_entry (place c) "_rules.conf" rules_file entries).
  destruct Hwalk as (before & after & Hold & Hnew).
  fold (with_rules c entries) in Hnew. fold top' in Hnew.
  assert (Htree : fs_tree E' folder_path = top') by apply written_tree.
  assert (Hin : In ("_rules.conf", rules_file) (walked top')).
  { rewrite Hnew. apply in_app_iff. right. by left. }
  assert (Hmode : mode_choice = "1" ∨ mode_choice = "2" →
                  ∃ md, mode_of mode_choice = Some md
                        ∧ (mode_choice = "1" → md = Test)
                        ∧ (mode_choice = "2" → md = Permanent)).
  { intros [-> | ->]; eexists; (split; [reflexivity |]);
      split; intros; done. }
  assert (Htest : ∀ ch rest log,
            initialize_repository E' folder_path (String ch rest)
              (metadata_of a) Test log
            = (Ret tt,
               log ++ ([Print TestBanner; Print (TestFolder folder_path);
                        Print (TestIdentifier (String ch rest));
                        Print (TestMetadata (metadata_of a));
                        Print TestFilesHeader]
                         ++ map (λ p, Print (WouldUpload p)) (would_upload top')
                         ++ [Print TestComplete]))).
  { intros ch rest log. rewrite test_mode_run by exact Hkeys.
    by rewrite Htree. }
  split; [| split; [| split; [| split]]].
  - intros Hm. destruct (Hmode Hm) as (md & Hmd & HT & HP).
    split; [| split; [done |]].
    + subst run.
      destruct (main_create_run E c folder_path mode_choice a identifier tr
                  entries md Ht Hl Hp Hmd) as [-> _].
      destruct identifier as [|ch rest]; [done |].
      unfold bindT, lift.
      destruct (initialize_repository_returns
                  (after_creation E c folder_path entries) folder_path
                  (String ch rest) (metadata_of a) md
                  (events_of (tr ++ create_lines a))) as (log' & ->).
      done.
    + rewrite would_upload_walked. apply in_map_iff.
      by exists ("_rules.conf", rules_file).
  - intros -> Hid. subst run.
    destruct (main_create_run E c folder_path "1" a identifier tr
                entries Test Ht Hl Hp eq_refl) as [-> Hev].
    destruct identifier as [|ch rest]; [done |].
    unfold bindT. rewrite (lift_run _ _ _ _ (Htest ch rest _)).
    unfold retT. cbn [snd]. rewrite events_of_app, events_of_map, Hev.
    split.
    + rewrite !exchanges_app, would_upload_quiet. simpl.
      by rewrite app_nil_r.
    + intros p Hp'. apply in_app_iff. right. apply in_app_iff. right.
      apply in_app_iff. left. apply in_map_iff. by exists p.
  - intros -> Hid Hread Hok. subst run.
    destruct (main_create_run E c folder_path "2" a identifier tr
                entries Permanent Ht Hl Hp eq_refl) as [-> Hev].
    destruct identifier as [|ch rest]; [done |].
    destruct (permanent_mode_accepted_run E' folder_path (String ch rest)
                (metadata_of a) (events_of (tr ++ create_lines a)))
      as (added & Hrun & Hx).
    + exact Hkeys.
    + rewrite Htree, Hnew. rewrite Hold in Hread.
      apply Forall_app in Hread as [Hb Ha].
      apply Forall_app. split; [done |]. by constructor.
    + rewrite Htree, Hnew, Hev. intros i Hi. apply Hok.
      rewrite Hold. rewrite !length_app in *. simpl in Hi. lia.
    + unfold bindT. fold E'. rewrite (lift_run _ _ _ _ Hrun).
      unfold retT. cbn [snd].
      rewrite events_of_app, events_of_map, exchanges_app, Hx, Hev, Htree.
      rewrite (file_puts_ext E E') by done. fold n. split; [done |].
      apply (file_puts_In E (String ch rest) "_rules.conf" rules_file).
      exact Hin.
  - intros Hm ->. destruct (Hmode Hm) as (md & Hmd & _). subst run.
    destruct (main_create_run E c folder_path mode_choice a "" tr
                entries md Ht Hl Hp Hmd) as [-> Hev].
    cbn [snd]. rewrite events_of_app, said_app, Hev. simpl.
    rewrite app_nil_r. split; [done |]. by rewrite last_snoc.
  - intros H1 H2. subst run. unfold main_create, os_path_isdir.
    rewrite Ht. cbn [negb].
    destruct (String.eqb_spec mode_choice "1") as [|_]; [done |].
    destruct (String.eqb_spec mode_choice "2") as [|_]; [done |].
    unfold bindT, say, retT. cbn [fst snd]. split; [done |].
    rewrite !events_of_app, !said_app. simpl. rewrite !app_nil_r.
    split; [done |]. by rewrite last_snoc.
Qed.


Lemma main_create_uploads_rules_file_witness :
  map (λ x, (req_method x.1, req_url x.1, req_body x.1))
    (exchanges (events_of (snd (main_create (office []) (Creation true 1)
                                  "/tmp/folder" "2" (brief "no") "item" []))))
    = [(PUT, "https://s3.us.archive.org/item/a.txt", FileStream [Byte.x61]);
       (PUT, "https://s3.us.archive.org/item/_rules.conf",
        FileStream rules_text);
       (POST, "https://archive.org/metadata/item/metadata",
        Form (metadata_of (brief "no")))].
Proof.
  destruct (main_create_uploads_rules_file (office []) (Creation true 1)
              "/tmp/folder" "2" (brief "no") "item" []
              [("a.txt", FileNode (File true [Byte.x61]))]
              eq_refl eq_refl eq_refl eq_refl) as (_ & _ & Hperm & _).
  destruct (Hperm eq_refl ltac:(discriminate)) as [Hx _].
  - repeat constructor.
  - intros i _. exists NoJson. by destruct i as [|[|[|i]]].
  - rewrite Hx. reflexivity.
Defined.


(** ** What an upload leaves in the store *)

Lemma store_replay_refused (acc : option (gmap string (list Byte.byte)))
    (r : request) (o : outcome) :
  refused o → store_replay acc [(r, o)] = acc.
Proof.
  intros Href. destruct acc as [st|]; [| done].
  unfold store_replay. cbn [foldl]. by apply store_step_refused.
Qed.

Lemma urlopen_store (E : environment) (pol : Retry) (r : request)
    (st : gmap string (list Byte.byte)) :
  (∀ s, is_retry pol (req_method r) s = true → accepted s = false) →
  ∀ (left errors : nat) (log : list event),
    store_after st (snd (urlopen E pol left errors r log))
      = match fst (urlopen E pol left errors r log) with
        | Ret (s, p) => store_replay (store_after st log) [(r, Response s p)]
        | Raise _ => store_after st log
        end.
Proof.
  intros Hpol.
  assert (Hskip : ∀ log, retriable pol r (net E (length (exchanges log))) = true →
            ∀ a1, exchanges a1 = [] →
            store_after st
              ((log ++ [Wire r (net E (length (exchanges log)))]) ++ a1)
            = store_after st log).
  { intros log Hr a1 Ha1. rewrite !store_after_app, Ha1.
    change (exchanges [Wire r ?o]) with [(r, o)].
    change (store_replay ?acc []) with acc.
    apply store_replay_refused.
    destruct (net E (length (exchanges log))) as [s p|e]; [| done].
    simpl in Hr |- *. by apply Hpol. }
  induction left as [|left IH]; intros errors log;
    rewrite urlopen_unfold; cbv zeta.
  - destruct (retriable pol r (net E (length (exchanges log)))) eqn:Hr.
    + cbn [fst snd]. rewrite <- (app_nil_r (log ++ _)).
      by apply Hskip.
    + destruct (net E (length (exchanges log))) as [s p|e]; [| done].
      cbn [fst snd outcome_result]. by rewrite store_after_app.
  - destruct (retriable pol r (net E (length (exchanges log)))) eqn:Hr.
    + destruct (sleep_backoff_run pol (S errors)
                  (log ++ [Wire r (net E (length (exchanges log)))]))
        as (a1 & Hs & Hx & _).
      rewrite Hs. cbn [snd]. rewrite IH.
      destruct (urlopen E pol left (S errors) r _) as [[[s p]|e] log'];
        cbn [fst]; by rewrite (Hskip log Hr a1 Hx).
    + destruct (net E (length (exchanges log))) as [s p|e]; [| done].
      cbn [fst snd outcome_result]. by rewrite store_after_app.
Qed.

Lemma session_put_store (E : environment) (url : string)
    (headers : gmap string string) (data : body) (timeout : option (Z * Z))
    (log : list event) (st : gmap string (list Byte.byte)) :
  let r := Request PUT url headers data timeout in
  store_after st (snd (session_put E url headers data timeout log))
    = match fst (session_put E url headers data timeout log) with
      | Ret (s, p) => store_replay (store_after st log) [(r, Response s p)]
      | Raise _ => store_after st log
      end.
Proof.
  intros r. unfold session_put, api_call. fold r.
  pose proof (urlopen_store E retry_strategy r st) as Hu.
  destruct (urlopen E retry_strategy (total retry_strategy) 0 r log)
    as [res log'] eqn:Hrun.
  cbn [fst snd]. rewrite store_after_app.
  change (exchanges [Call r res]) with (@nil (request * outcome)).
  change (store_replay ?acc []) with acc.
  specialize (Hu ltac:(intros s [_ Hf]%is_retry_session;
                       by destruct Hf as [-> | [-> | [-> | ->]]])
                 (total retry_strategy) 0%nat log).
  by rewrite Hrun in Hu.
Qed.

Lemma upload_loop_stores (E : environment) (chunk_size : Z)
    (file_path upload_url : string) (headers : gmap string string)
    (rest key : string) (st : gmap string (list Byte.byte)) :
  0 < chunk_size →
  object_key upload_url = Some rest → served rest = Some key →
  headers !! "x-amz-copy-source" = None →
  ∀ (fuel : nat) (f : list Byte.byte) (log log' : list event)
    (st0 : gmap string (list Byte.byte)),
    (length f < fuel)%nat → f ≠ [] →
    upload_loop E chunk_size fuel file_path upload_url headers f log
      = (Ret true, log') →
    store_after st log = Some st0 →
    ∃ k, (k * Z.to_nat chunk_size < length f
          ∧ length f ≤ (k + 1) * Z.to_nat chunk_size)%nat
         ∧ store_after st log'
             = Some (<[key := drop (k * Z.to_nat chunk_size) f]> st0).
Proof.
  intros Hsize Hkey Hserved Hcopy.
  set (n := Z.to_nat chunk_size). assert (Hn : (0 < n)%nat) by (subst n; lia).
  induction fuel as [|fuel IH]; intros f log log' st0 Hfuel Hne Hrun Hst0;
    [lia |].
  cbn [upload_loop] in Hrun. rewrite read_take_drop in Hrun by lia.
  fold n in Hrun.
  destruct (take n f) as [|b chunk] eqn:Htake.
  { destruct f; [done |]. apply (f_equal length) in Htake.
    rewrite length_take in Htake. simpl in Htake. lia. }
  rewrite <- Htake in Hrun. unfold bind at 1 in Hrun.
  pose proof (session_put_store E upload_url headers (Bytes (take n f))
                (Some (60, 600)) log st) as Hst. cbv zeta in Hst.
  destruct (session_put E upload_url headers (Bytes (take n f))
              (Some (60, 600)) log) as [[[s p]|e] log1]; [| done].
  cbn [fst snd status_code] in Hst, Hrun.
  destruct (Z.eqb_spec s 200) as [->|Hs]; cbn [negb] in Hrun;
    [| unfold bind, print, emit, ret in Hrun; done].
  unfold bind at 1, emit at 1 in Hrun.
  assert (Hstored : store_after st (log1 ++ [Progress (Z.of_nat (length (take n f)))])
                    = Some (<[key := take n f]> st0)).
  { rewrite store_after_app.
    change (exchanges [Progress _]) with (@nil (request * outcome)).
    change (store_replay ?acc []) with acc.
    rewrite Hst, Hst0. unfold store_replay. cbn [foldl]. unfold store_step.
    change (accepted 200) with true.
    cbn [req_url req_method req_headers req_body].
    by rewrite Hkey, Hserved, Hcopy. }
  destruct (drop n f) as [|b' f'] eqn:Hdrop.
  - assert (Hlog : log' = log1 ++ [Progress (Z.of_nat (length (take n f)))]).
    { destruct fuel; cbn in Hrun; unfold ret in Hrun; congruence. }
    exists 0%nat. apply (f_equal length) in Hdrop. rewrite length_drop in Hdrop.
    split; [destruct f; [done | simpl in *; lia] |].
    rewrite Hlog, Hstored. simpl in Hdrop |- *.
    by rewrite take_ge by lia.
  - rewrite <- Hdrop in Hrun.
    eapply IH in Hrun as (k & [Hlo Hhi] & Hk); [| | | exact Hstored].
    + exists (S k). rewrite length_drop in Hlo, Hhi.
      split; [lia |]. rewrite Hk, drop_drop, insert_insert_eq. reflexivity.
    + rewrite length_drop. destruct f; [done |]. simpl in *. lia.
    + by rewrite Hdrop.
Qed.

(** X18. What the store holds after an upload that reports success.
    With the credentials set and a readable, non-empty file whose
    object path [/{identifier}/{directory}/{basename}] is plain
    (unreserved characters and slashes, no dot segment), when
    [upload_file_with_progress] returns [True] an honest store holds
    under that path the last chunk of the file, that is the file
    without its first [k] chunks of 2 MiB, where [k] chunks are less
    than the file and [k + 1] chunks cover it, and every other object
    as it was: every chunk went to the same URL and replaced the one
    before.  The last chunk is the file exactly when the file is no
    longer than one chunk. *)
Theorem upload_stores_last_chunk (E : environment)
    (identifier file_path directory : string) (f : file) (log : list event)
    (st st0 : gmap string (list Byte.byte)) :
  keys_missing E = false → fs_file E file_path = Some f →
  readable f = true → content f ≠ [] →
  let run := upload_file_with_progress E identifier file_path directory log in
  let key := object_of identifier (directory +:+ "/" +:+ Str.basename file_path) in
  let n := Z.to_nat CHUNK_SIZE in
  plain key = true →
  store_after st log = Some st0 →
  fst run = Ret true →
  ∃ k, (k * n < length (content f) ∧ length (content f) ≤ (k + 1) * n)%nat
       ∧ store_after st (snd run)
           = Some (<[key := drop (k * n) (content f)]> st0)
       ∧ (drop (k * n) (content f) = content f
          ↔ Z.of_nat (length (content f)) ≤ CHUNK_SIZE).
Proof.
  intros Hkeys Hfile Hread Hne run key n Hplain Hst0 Htrue.
  assert (Hrun : run
            = match upload_loop E CHUNK_SIZE (S (length (content f))) file_path
                      (upload_url_of identifier file_path directory)
                      (auth_headers E) (content f) log with
              | (Ret true, log1) =>
                  (Ret true, log1 ++ [Print (UploadOK file_path)])
              | (Ret false, log1) => (Ret false, log1)
              | (Raise e, log1) => upload_handlers e log1
              end).
  { subst run.
    unfold upload_file_with_progress, os_path_getsize, open_rb.
    rewrite Hkeys, Hfile, Hread. unfold bind at 1, ret at 1.
    unfold try_except, bind. unfold ret at 1.
    by destruct (upload_loop _ _ _ _ _ _ _ _) as [[[|]|e] log1]. }
  pose proof (upload_loop_stores E CHUNK_SIZE file_path
                (upload_url_of identifier file_path directory)
                (auth_headers E) key key st eq_refl
                (object_key_s3 identifier _) (served_plain key Hplain))
    as Hloop.
  specialize (Hloop ltac:(unfold auth_headers;
                          by rewrite lookup_insert_ne, lookup_singleton_ne)
                    (S (length (content f))) (content f) log).
  rewrite Hrun in Htrue |- *. clear Hrun.
  destruct (upload_loop E CHUNK_SIZE (S (length (content f))) file_path
              (upload_url_of identifier file_path directory) (auth_headers E)
              (content f) log) as [[[|]|e] log1].
  - destruct (Hloop log1 st0 ltac:(lia) Hne eq_refl Hst0)
      as (k & [Hlo Hhi] & Hk).
    fold n in Hlo, Hhi, Hk. exists k. split; [done |].
    cbn [snd]. rewrite store_after_app.
    change (exchanges [Print _]) with (@nil (request * outcome)).
    change (store_replay ?acc []) with acc.
    split; [exact Hk |].
    assert (Hn : Z.of_nat n = CHUNK_SIZE).
    { subst n. apply Z2Nat.id. discriminate. }
    clearbody n. split.
    + intros Heq. apply (f_equal length) in Heq.
      rewrite length_drop in Heq.
      destruct k as [|k]; [lia |].
      assert (0 < length (content f))%nat
        by (destruct (content f); [done | simpl; lia]).
      nia.
    + intros Hle. destruct k as [|k]; [done |]. nia.
  - done.
  - rewrite upload_handlers_run in Htrue. done.
Qed.

Lemma upload_stores_last_chunk_witness :
  store_after ∅
    (snd (upload_file_with_progress (laptop []) "item" "/tmp/data.bin"
            "docs" []))
    = Some {["/item/docs/data.bin" := five_bytes]}.
Proof.
  destruct (upload_stores_last_chunk (laptop []) "item" "/tmp/data.bin" "docs"
              (File true five_bytes) [] ∅ ∅ eq_refl eq_refl eq_refl
              ltac:(discriminate) eq_refl eq_refl eq_refl)
    as (k & _ & Hafter & Hiff).
  rewrite Hafter. rewrite (proj2 Hiff ltac:(by vm_compute)). reflexivity.
Defined.
